(** * Mock API server: storage, resolution, CORS and session tokens

    A shallow embedding of the TypeScript sources
      - [src/storage/memory.ts] ([MemoryStorage]),
      - [src/storage/kv.ts] ([KVStorage]),
      - the CORS middleware ([corsMiddleware], [staticCorsMiddleware]) and
        the two entry points that install it,
      - the JWT helpers ([createToken], [verifyToken]), the authentication
        middleware and the session routes ([POST /login], [GET /auth/status]),
      - [generateId],
    together with the properties the specification states about them.

    Conventions of the embedding
      - a JavaScript string is the list of its UTF-16 code units;
      - [Date.now()] is an explicit argument ([now] in the stores, [clock]
        in the token helpers);
      - an [async] method that mutates [this.data] is a function from the
        store to a result and a new store; the file write of [save()] is
        outside the model;
      - [x || d] on strings takes [d] when [x] is [undefined] or empty. *)

From Stdlib Require Import ZArith NArith Ascii String DecimalString DecimalZ.
From stdpp Require Import base tactics option list strings gmap.

Local Open Scope Z_scope.

(** ** JavaScript strings *)

Abbreviation jsstring := (list N) (only parsing).

Definition str (s : string) : jsstring :=
  (λ a, N_of_ascii a) <$> String.list_ascii_of_string s.

(** [a || d] where [a] is a string that may be [undefined]. *)
Definition or_default (a : option jsstring) (d : jsstring) : jsstring :=
  match a with
  | Some (c :: s) => c :: s
  | _ => d
  end.

(** [s.startsWith(p)] *)
Fixpoint startsWith (s p : jsstring) {struct p} : bool :=
  match p, s with
  | [], _ => true
  | c :: p', d :: s' => bool_decide (c = d) && startsWith s' p'
  | _ :: _, [] => false
  end.

(** [s.substring(n)] for [0 <= n]; a start beyond the end gives the empty string. *)
Definition substring (n : nat) (s : jsstring) : jsstring := drop n s.

(** [l.find(f) || null] *)
Definition find_first {A} (f : A → bool) (l : list A) : option A :=
  snd <$> list_find (λ x, f x = true) l.

(** [l.findIndex(f)], with [None] for -1. *)
Definition findIndex {A} (f : A → bool) (l : list A) : option nat :=
  fst <$> list_find (λ x, f x = true) l.

(** [l.includes(x)] *)
Definition includes (l : list jsstring) (x : jsstring) : bool :=
  bool_decide (x ∈ l).

(** ** JSON values ([unknown] response bodies, parsed token payloads)

    Numbers are kept as exact decimals: an integer, or [m / 10^k] with [m]
    not a multiple of ten. *)

Inductive number :=
  | Int (z : Z)
  | Frac (m : Z) (k : positive).

#[warnings="-register-all"]
Inductive json :=
  | JNull
  | JBool (b : bool)
  | JNum (n : number)
  | JStr (s : jsstring)
  | JArr (l : list json)
  | JObj (kv : list (jsstring * json)).

(** ** Data model ([src/types.ts]) *)

Module Project.
Record t := mk {
  id : jsstring;
  name : jsstring;
  description : option jsstring;
  basePath : jsstring;
  createdAt : Z;
  updatedAt : Z
}.
End Project.

Record EndpointResponse := {
  status : Z;
  headers : list (jsstring * jsstring);
  body : json;
  delay : option Z
}.

Module Endpoint.
(** [method] is declared as [HttpMethod], a union of string literals that
    is not checked at run time; it is compared to the request method as a
    string. *)
Record t := mk {
  id : jsstring;
  projectId : jsstring;
  path : jsstring;
  method : jsstring;
  response : EndpointResponse;
  enabled : bool;
  createdAt : Z;
  updatedAt : Z
}.
End Endpoint.

Record GlobalSettings := {
  corsOrigins : list jsstring;
  corsHeaders : list jsstring;
  corsMethods : list jsstring;
  defaultHeaders : list (jsstring * jsstring);
  authEnabled : bool
}.

Record StorageData := {
  projects : list Project.t;
  endpoints : list Endpoint.t;
  settings : GlobalSettings
}.

Definition DEFAULT_SETTINGS : GlobalSettings := {|
  corsOrigins := [str "*"];
  corsHeaders := [str "Content-Type"; str "Authorization"; str "X-Requested-With"];
  corsMethods := [str "GET"; str "POST"; str "PUT"; str "DELETE"; str "PATCH"; str "OPTIONS"];
  defaultHeaders := [(str "Content-Type", str "application/json")];
  authEnabled := true
|}.

(** [Partial<Project>] and [Partial<Endpoint>]: every field may be absent. *)
Module ProjectPatch.
Record t := mk {
  id : option jsstring;
  name : option jsstring;
  description : option jsstring;
  basePath : option jsstring;
  createdAt : option Z;
  updatedAt : option Z
}.
Definition empty : t := mk None None None None None None.
End ProjectPatch.

Module EndpointPatch.
Record t := mk {
  id : option jsstring;
  projectId : option jsstring;
  path : option jsstring;
  method : option jsstring;
  response : option EndpointResponse;
  enabled : option bool;
  createdAt : option Z;
  updatedAt : option Z
}.
Definition empty : t := mk None None None None None None None None.
End EndpointPatch.

(** [Partial<GlobalSettings>] *)
Module SettingsPatch.
Record t := mk {
  corsOrigins : option (list jsstring);
  corsHeaders : option (list jsstring);
  corsMethods : option (list jsstring);
  defaultHeaders : option (list (jsstring * jsstring));
  authEnabled : option bool
}.
Definition empty : t := mk None None None None None.
End SettingsPatch.

(** [Omit<Project, 'id' | 'createdAt' | 'updatedAt'>] and
    [Omit<Endpoint, 'id' | 'createdAt' | 'updatedAt'>]: what the caller of
    [createProject] and [createEndpoint] supplies. *)
Module ProjectData.
Record t := mk {
  name : jsstring;
  description : option jsstring;
  basePath : jsstring
}.
End ProjectData.

Module EndpointData.
Record t := mk {
  projectId : jsstring;
  path : jsstring;
  method : jsstring;
  response : EndpointResponse;
  enabled : bool
}.
End EndpointData.

(** [{...a, ...b}.f]: the patch's field when present, else the record's. *)
Definition over {A} (patch : option A) (old : A) : A := default old patch.

(** [{ ...current, ...patch }] on settings. *)
Definition merge_settings (current : GlobalSettings) (patch : SettingsPatch.t)
    : GlobalSettings :=
  {| corsOrigins := over (SettingsPatch.corsOrigins patch) (corsOrigins current);
     corsHeaders := over (SettingsPatch.corsHeaders patch) (corsHeaders current);
     corsMethods := over (SettingsPatch.corsMethods patch) (corsMethods current);
     defaultHeaders := over (SettingsPatch.defaultHeaders patch) (defaultHeaders current);
     authEnabled := over (SettingsPatch.authEnabled patch) (authEnabled current) |}.

(** ** The endpoint test shared by both stores

    [e.projectId === project.id && e.path === relativePath &&
     e.method === method && e.enabled] *)
Definition endpoint_matches (project : Project.t) (relativePath method : jsstring)
    (e : Endpoint.t) : bool :=
  bool_decide (Endpoint.projectId e = Project.id project)
  && bool_decide (Endpoint.path e = relativePath)
  && bool_decide (Endpoint.method e = method)
  && Endpoint.enabled e.

(** ** [src/storage/memory.ts] *)

Module MemoryStorage.

Definition getProjects (d : StorageData) : list Project.t := projects d.

Definition getProject (id : jsstring) (d : StorageData) : option Project.t :=
  find_first (λ p, bool_decide (Project.id p = id)) (projects d).

(** [findIndex] and the read of [projects[index]] are one [list_find]. *)
Definition updateProject (now : Z) (id : jsstring) (data : ProjectPatch.t)
    (d : StorageData) : option Project.t * StorageData :=
  match list_find (λ p, Project.id p = id) (projects d) with
  | None => (None, d)
  | Some (index, old) =>
      let new := {|
        Project.id := id;
        Project.name := over (ProjectPatch.name data) (Project.name old);
        Project.description :=
          match ProjectPatch.description data with
          | Some s => Some s
          | None => Project.description old
          end;
        Project.basePath := over (ProjectPatch.basePath data) (Project.basePath old);
        Project.createdAt := over (ProjectPatch.createdAt data) (Project.createdAt old);
        Project.updatedAt := now
      |} in
      (Some new,
       {| projects := <[index := new]> (projects d);
          endpoints := endpoints d;
          settings := settings d |})
  end.

Definition deleteEndpointsByProject (projectId : jsstring) (d : StorageData)
    : nat * StorageData :=
  let before := length (endpoints d) in
  let kept := filter (λ e, Endpoint.projectId e ≠ projectId) (endpoints d) in
  ((before - length kept)%nat,
   {| projects := projects d; endpoints := kept; settings := settings d |}).

Definition deleteProject (id : jsstring) (d : StorageData) : bool * StorageData :=
  match findIndex (λ p, bool_decide (Project.id p = id)) (projects d) with
  | None => (false, d)
  | Some index =>
      let d1 := {| projects := delete index (projects d);
                   endpoints := endpoints d;
                   settings := settings d |} in
      (true, snd (deleteEndpointsByProject id d1))
  end.

(** [getEndpoints(projectId?)]: the filter applies when [projectId] is
    truthy, that is, present and not the empty string. *)
Definition getEndpoints (projectId : option jsstring) (d : StorageData)
    : list Endpoint.t :=
  match projectId with
  | Some (c :: s) => filter (λ e, Endpoint.projectId e = c :: s) (endpoints d)
  | _ => endpoints d
  end.

Definition getEndpoint (id : jsstring) (d : StorageData) : option Endpoint.t :=
  find_first (λ e, bool_decide (Endpoint.id e = id)) (endpoints d).

Definition getEndpointByPath (fullPath _subPath method : jsstring) (d : StorageData)
    : option Endpoint.t :=
  match find_first (λ p, startsWith fullPath (Project.basePath p)) (projects d) with
  | None => None
  | Some project =>
      let relativePath :=
        or_default (Some (substring (length (Project.basePath project)) fullPath))
                   (str "/") in
      find_first (endpoint_matches project relativePath method) (endpoints d)
  end.

Definition updateEndpoint (now : Z) (id : jsstring) (data : EndpointPatch.t)
    (d : StorageData) : option Endpoint.t * StorageData :=
  match list_find (λ e, Endpoint.id e = id) (endpoints d) with
  | None => (None, d)
  | Some (index, old) =>
      let new := {|
        Endpoint.id := id;
        Endpoint.projectId := over (EndpointPatch.projectId data) (Endpoint.projectId old);
        Endpoint.path := over (EndpointPatch.path data) (Endpoint.path old);
        Endpoint.method := over (EndpointPatch.method data) (Endpoint.method old);
        Endpoint.response := over (EndpointPatch.response data) (Endpoint.response old);
        Endpoint.enabled := over (EndpointPatch.enabled data) (Endpoint.enabled old);
        Endpoint.createdAt := over (EndpointPatch.createdAt data) (Endpoint.createdAt old);
        Endpoint.updatedAt := now
      |} in
      (Some new,
       {| projects := projects d;
          endpoints := <[index := new]> (endpoints d);
          settings := settings d |})
  end.

Definition getSettings (d : StorageData) : GlobalSettings := settings d.

(** [id] is what [generateId()] returned and [now] what [Date.now()]
    returned in the method. *)
Definition createProject (now : Z) (id : jsstring) (data : ProjectData.t)
    (d : StorageData) : Project.t * StorageData :=
  let project := {|
    Project.id := id;
    Project.name := ProjectData.name data;
    Project.description := ProjectData.description data;
    Project.basePath := ProjectData.basePath data;
    Project.createdAt := now;
    Project.updatedAt := now
  |} in
  (project,
   {| projects := projects d ++ [project];
      endpoints := endpoints d;
      settings := settings d |}).

Definition createEndpoint (now : Z) (id : jsstring) (data : EndpointData.t)
    (d : StorageData) : Endpoint.t * StorageData :=
  let endpoint := {|
    Endpoint.id := id;
    Endpoint.projectId := EndpointData.projectId data;
    Endpoint.path := EndpointData.path data;
    Endpoint.method := EndpointData.method data;
    Endpoint.response := EndpointData.response data;
    Endpoint.enabled := EndpointData.enabled data;
    Endpoint.createdAt := now;
    Endpoint.updatedAt := now
  |} in
  (endpoint,
   {| projects := projects d;
      endpoints := endpoints d ++ [endpoint];
      settings := settings d |}).

Definition deleteEndpoint (id : jsstring) (d : StorageData) : bool * StorageData :=
  match findIndex (λ e, bool_decide (Endpoint.id e = id)) (endpoints d) with
  | None => (false, d)
  | Some index =>
      (true,
       {| projects := projects d;
          endpoints := delete index (endpoints d);
          settings := settings d |})
  end.

Definition updateSettings (patch : SettingsPatch.t) (d : StorageData)
    : GlobalSettings * StorageData :=
  let updated := merge_settings (settings d) patch in
  (updated, {| projects := projects d; endpoints := endpoints d; settings := updated |}).

End MemoryStorage.

(** ** [src/storage/kv.ts]

    The key-value namespace holds the JSON text of the project list and of
    the endpoint list under the keys [projects] and [endpoints]; a missing
    key reads as the empty list. *)

Record KVData := {
  kv_projects : option (list Project.t);
  kv_endpoints : option (list Endpoint.t);
  kv_settings : option GlobalSettings
}.

Module KVStorage.

Definition getProjects (d : KVData) : list Project.t := default [] (kv_projects d).

Definition getEndpoints (projectId : option jsstring) (d : KVData) : list Endpoint.t :=
  let endpoints := default [] (kv_endpoints d) in
  match projectId with
  | Some (c :: s) => filter (λ e, Endpoint.projectId e = c :: s) endpoints
  | _ => endpoints
  end.

Definition getEndpointByPath (basePath path method : jsstring) (d : KVData)
    : option Endpoint.t :=
  let endpoints := getEndpoints None d in
  let projects := getProjects d in
  match find_first (λ p, startsWith basePath (Project.basePath p)) projects with
  | None => None
  | Some project =>
      let relativePath :=
        substring (length (Project.basePath project)) basePath ++ path in
      find_first (endpoint_matches project relativePath method) endpoints
  end.

Definition getSettings (d : KVData) : GlobalSettings :=
  default DEFAULT_SETTINGS (kv_settings d).

(** [kv.put(KEYS.PROJECTS, ...)], [kv.put(KEYS.ENDPOINTS, ...)] and
    [kv.put(KEYS.SETTINGS, ...)]. *)
Definition put_projects (ps : list Project.t) (d : KVData) : KVData :=
  {| kv_projects := Some ps; kv_endpoints := kv_endpoints d; kv_settings := kv_settings d |}.

Definition put_endpoints (es : list Endpoint.t) (d : KVData) : KVData :=
  {| kv_projects := kv_projects d; kv_endpoints := Some es; kv_settings := kv_settings d |}.

Definition put_settings (s : GlobalSettings) (d : KVData) : KVData :=
  {| kv_projects := kv_projects d; kv_endpoints := kv_endpoints d; kv_settings := Some s |}.

Definition initialize (d : KVData) : KVData :=
  match kv_settings d with
  | Some _ => d
  | None => put_settings DEFAULT_SETTINGS d
  end.

Definition getProject (id : jsstring) (d : KVData) : option Project.t :=
  let projects := getProjects d in
  find_first (λ p, bool_decide (Project.id p = id)) projects.

Definition createProject (now : Z) (id : jsstring) (data : ProjectData.t) (d : KVData)
    : Project.t * KVData :=
  let projects := getProjects d in
  let project := {|
    Project.id := id;
    Project.name := ProjectData.name data;
    Project.description := ProjectData.description data;
    Project.basePath := ProjectData.basePath data;
    Project.createdAt := now;
    Project.updatedAt := now
  |} in
  (project, put_projects (projects ++ [project]) d).

Definition updateProject (now : Z) (id : jsstring) (data : ProjectPatch.t) (d : KVData)
    : option Project.t * KVData :=
  let projects := getProjects d in
  match list_find (λ p, Project.id p = id) projects with
  | None => (None, d)
  | Some (index, old) =>
      let new := {|
        Project.id := id;
        Project.name := over (ProjectPatch.name data) (Project.name old);
        Project.description :=
          match ProjectPatch.description data with
          | Some s => Some s
          | None => Project.description old
          end;
        Project.basePath := over (ProjectPatch.basePath data) (Project.basePath old);
        Project.createdAt := over (ProjectPatch.createdAt data) (Project.createdAt old);
        Project.updatedAt := now
      |} in
      (Some new, put_projects (<[index := new]> projects) d)
  end.

Definition deleteEndpointsByProject (projectId : jsstring) (d : KVData) : nat * KVData :=
  let endpoints := getEndpoints None d in
  let filtered := filter (λ e, Endpoint.projectId e ≠ projectId) endpoints in
  let deleted := (length endpoints - length filtered)%nat in
  (deleted, put_endpoints filtered d).

Definition deleteProject (id : jsstring) (d : KVData) : bool * KVData :=
  let projects := getProjects d in
  let filtered := filter (λ p, Project.id p ≠ id) projects in
  if decide (length filtered = length projects) then (false, d)
  else (true, snd (deleteEndpointsByProject id (put_projects filtered d))).

Definition getEndpoint (id : jsstring) (d : KVData) : option Endpoint.t :=
  let endpoints := getEndpoints None d in
  find_first (λ e, bool_decide (Endpoint.id e = id)) endpoints.

Definition createEndpoint (now : Z) (id : jsstring) (data : EndpointData.t) (d : KVData)
    : Endpoint.t * KVData :=
  let endpoints := getEndpoints None d in
  let endpoint := {|
    Endpoint.id := id;
    Endpoint.projectId := EndpointData.projectId data;
    Endpoint.path := EndpointData.path data;
    Endpoint.method := EndpointData.method data;
    Endpoint.response := EndpointData.response data;
    Endpoint.enabled := EndpointData.enabled data;
    Endpoint.createdAt := now;
    Endpoint.updatedAt := now
  |} in
  (endpoint, put_endpoints (endpoints ++ [endpoint]) d).

Definition updateEndpoint (now : Z) (id : jsstring) (data : EndpointPatch.t) (d : KVData)
    : option Endpoint.t * KVData :=
  let endpoints := getEndpoints None d in
  match list_find (λ e, Endpoint.id e = id) endpoints with
  | None => (None, d)
  | Some (index, old) =>
      let new := {|
        Endpoint.id := id;
        Endpoint.projectId := over (EndpointPatch.projectId data) (Endpoint.projectId old);
        Endpoint.path := over (EndpointPatch.path data) (Endpoint.path old);
        Endpoint.method := over (EndpointPatch.method data) (Endpoint.method old);
        Endpoint.response := over (EndpointPatch.response data) (Endpoint.response old);
        Endpoint.enabled := over (EndpointPatch.enabled data) (Endpoint.enabled old);
        Endpoint.createdAt := over (EndpointPatch.createdAt data) (Endpoint.createdAt old);
        Endpoint.updatedAt := now
      |} in
      (Some new, put_endpoints (<[index := new]> endpoints) d)
  end.

Definition deleteEndpoint (id : jsstring) (d : KVData) : bool * KVData :=
  let endpoints := getEndpoints None d in
  let filtered := filter (λ e, Endpoint.id e ≠ id) endpoints in
  if decide (length filtered = length endpoints) then (false, d)
  else (true, put_endpoints filtered d).

Definition updateSettings (patch : SettingsPatch.t) (d : KVData) : GlobalSettings * KVData :=
  let current := getSettings d in
  let updated := merge_settings current patch in
  (updated, put_settings updated d).

(** What the methods of [IStorage] read from the namespace. *)
Definition contents (d : KVData) : StorageData :=
  {| projects := getProjects d; endpoints := getEndpoints None d; settings := getSettings d |}.

End KVStorage.

(** ** [src/storage/interface.ts]: the part of [IStorage] that serving uses *)

Class IStorage (St : Type) := {
  getSettings : St → GlobalSettings;
  getEndpointByPath : jsstring → jsstring → jsstring → St → option Endpoint.t
}.

#[global] Instance MemoryStorage_IStorage : IStorage StorageData := {|
  getSettings := MemoryStorage.getSettings;
  getEndpointByPath := MemoryStorage.getEndpointByPath
|}.

#[global] Instance KVStorage_IStorage : IStorage KVData := {|
  getSettings := KVStorage.getSettings;
  getEndpointByPath := KVStorage.getEndpointByPath
|}.

(** [generateId]: [Date.now().toString(36)], a dash, and the characters 2
    to 8 of [Math.random().toString(36)].  The two readings, of the clock and
    of the random source, are arguments. *)

Definition digit36 (d : N) : N :=
  nth (N.to_nat d) (str "0123456789abcdefghijklmnopqrstuvwxyz") 0%N.

(** The digits of [n] in base 36 before [acc]; [n] has at most [fuel] bits. *)
Fixpoint to_radix36 (fuel : nat) (n : N) (acc : jsstring) : jsstring :=
  match fuel with
  | O => acc
  | S fuel' =>
      if (n <? 36)%N then digit36 n :: acc
      else to_radix36 fuel' (n / 36)%N (digit36 (n mod 36)%N :: acc)
  end.

(** [z.toString(36)] for an integer [z]. *)
Definition toString36 (z : Z) : jsstring :=
  (if z <? 0 then str "-" else [])
  ++ to_radix36 (S (N.to_nat (N.log2 (Z.abs_N z)))) (Z.abs_N z) [].

(** [s.substring(start, stop)] for [start <= stop]. *)
Definition substring_between (start stop : nat) (s : jsstring) : jsstring :=
  take (stop - start) (drop start s).

Definition generateId (now : Z) (random36 : jsstring) : jsstring :=
  toString36 now ++ str "-" ++ substring_between 2 9 random36.

(** ** Requests, responses and the Hono context

    A handler runs against the context [c] of one request: the response
    headers set so far with [c.header], and a log of the collaborators it has
    reached.  A handler is a state transformer over that context; a
    middleware receives the rest of the chain as [next]. *)

Module Request.
Record t := mk {
  path : jsstring;
  method : jsstring;
  origin : option jsstring   (* [c.req.header('Origin')] *)
}.
End Request.

Inductive ResBody :=
  | NoBody
  | Text (s : jsstring)
  | Json (j : json).

Module Res.
Record t := mk { status : Z; body : ResBody }.
End Res.

Inductive event :=
  | Resolved (path method : jsstring) (found : option Endpoint.t)
  | AdminLogic (r : Request.t).

Record Context := {
  out_headers : gmap jsstring jsstring;
  log : list event
}.

Definition Hono (A : Type) : Type := Context → A * Context.

Definition ret {A} (a : A) : Hono A := λ c, (a, c).

Definition bind {A B} (m : Hono A) (k : A → Hono B) : Hono B :=
  λ c, let '(a, c') := m c in k a c'.

#[global] Instance Hono_ret : MRet Hono := @ret.
#[global] Instance Hono_bind : MBind Hono := λ A B k m, bind m k.

(** [c.header(name, value)] *)
Definition header (name value : jsstring) : Hono unit :=
  λ c, (tt, {| out_headers := <[name := value]> (out_headers c); log := log c |}).

Definition emit (e : event) : Hono unit :=
  λ c, (tt, {| out_headers := out_headers c; log := log c ++ [e] |}).

Definition when (b : bool) (m : Hono unit) : Hono unit :=
  if b then m else ret tt.

Definition Handler : Type := Hono Res.t.
Definition Middleware : Type := Request.t → Handler → Handler.

(** [l.join(sep)] *)
Fixpoint join (sep : jsstring) (l : list jsstring) : jsstring :=
  match l with
  | [] => []
  | [s] => s
  | s :: l' => s ++ sep ++ join sep l'
  end.

(** [String(n)] for an integer [n]: its decimal numeral. *)
Definition String_of_Z (z : Z) : jsstring :=
  str (NilZero.string_of_int (Z.to_int z)).

Definition ACAO := str "Access-Control-Allow-Origin".
Definition ACAM := str "Access-Control-Allow-Methods".
Definition ACAH := str "Access-Control-Allow-Headers".
Definition ACMA := str "Access-Control-Max-Age".
Definition ACAC := str "Access-Control-Allow-Credentials".

(** ** The CORS middleware *)

(** Dynamic mode.  [settings] is what [await getSettings()] returned for
    this request. *)
Definition corsMiddleware (settings : GlobalSettings) : Middleware :=
  λ req next,
    let origin := or_default (Request.origin req) (str "*") in
    let isAllowed :=
      includes (corsOrigins settings) (str "*")
      || includes (corsOrigins settings) origin in
    if negb isAllowed then
      ret (Res.mk 403 (Text (str "Origin not allowed")))
    else
      let allowedOrigin :=
        if includes (corsOrigins settings) (str "*") then str "*" else origin in
      header ACAO allowedOrigin ;;
      header ACAM (join (str ", ") (corsMethods settings)) ;;
      header ACAH (join (str ", ") (corsHeaders settings)) ;;
      header ACMA (str "86400") ;;
      when (negb (bool_decide (allowedOrigin = str "*")))
           (header ACAC (str "true")) ;;
      if bool_decide (Request.method req = str "OPTIONS") then
        ret (Res.mk 204 NoBody)
      else
        next.

Record CORSOptions := {
  origins : option (list jsstring);
  methods : option (list jsstring);
  opt_headers : option (list jsstring);
  credentials : option bool;
  maxAge : option Z
}.

Definition no_options : CORSOptions := Build_CORSOptions None None None None None.

(** Static mode. *)
Definition staticCorsMiddleware (options : CORSOptions) : Middleware :=
  let origins := default [str "*"] (origins options) in
  let methods :=
    default [str "GET"; str "POST"; str "PUT"; str "DELETE"; str "OPTIONS"]
            (methods options) in
  let headers := default [str "Content-Type"; str "Authorization"] (opt_headers options) in
  let maxAge := default 86400 (maxAge options) in
  λ req next,
    let origin := or_default (Request.origin req) (str "*") in
    let allowedOrigin :=
      if includes origins (str "*") then Some (str "*")
      else if includes origins origin then Some origin
      else None in
    match allowedOrigin with
    | Some (c :: s) =>
        let allowedOrigin := c :: s in
        header ACAO allowedOrigin ;;
        header ACAM (join (str ", ") methods) ;;
        header ACAH (join (str ", ") headers) ;;
        header ACMA (String_of_Z maxAge) ;;
        when (negb (bool_decide (allowedOrigin = str "*")))
             (header ACAC (str "true"))
    | _ => ret tt
    end ;;
    if bool_decide (Request.method req = str "OPTIONS") then
      ret (Res.mk 204 NoBody)
    else
      next.

(** ** The mock responder ([routes/mock.ts] and the catch-all of the Node
    entry point) *)

Definition apply_headers (hs : list (jsstring * jsstring)) : Hono unit :=
  foldr (λ kv rest, header kv.1 kv.2 ;; rest) (ret tt) hs.

Definition not_found_body (method path : jsstring) : json :=
  JObj [ (str "error", JStr (str "Not Found"));
         (str "message",
          JStr (str "No mock endpoint configured for " ++ method ++ str " " ++ path)) ].

(** [createMockRoutes]: resolve, then answer 404 or the configured response.
    The configured delay postpones the answer and is not part of the result. *)
Definition mockResponder {St} `{!IStorage St} (d : St) : Request.t → Handler :=
  λ req,
    let settings := getSettings d in
    let method := Request.method req in
    let path := Request.path req in
    let endpoint := getEndpointByPath path [] method d in
    emit (Resolved path method endpoint) ;;
    match endpoint with
    | None =>
        apply_headers (defaultHeaders settings) ;;
        ret (Res.mk 404 (Json (not_found_body method path)))
    | Some e =>
        apply_headers (defaultHeaders settings) ;;
        apply_headers (headers (Endpoint.response e)) ;;
        ret (Res.mk (status (Endpoint.response e)) (Json (body (Endpoint.response e))))
    end.

Definition notFound : Handler := ret (Res.mk 404 (Text (str "404 Not Found"))).

Definition reserved_path (path : jsstring) : bool :=
  startsWith path (str "/api/admin")
  || bool_decide (path = str "/index.html")
  || bool_decide (path = str "/app.js")
  || bool_decide (path = str "/json-editor.js")
  || bool_decide (path = str "/style.css")
  || bool_decide (path = str "/favicon.ico")
  || bool_decide (path = str "/").

(** The catch-all of the Node entry point; it does what [mockResponder]
    does after skipping the reserved paths. *)
Definition nodeCatchAll {St} `{!IStorage St} (d : St) : Request.t → Handler :=
  λ req,
    if reserved_path (Request.path req) then notFound
    else mockResponder d req.

(** Mock traffic in the Node entry point:
    [app.use('*', corsMiddleware(getSettings)); app.all('*', ...)]. *)
Definition nodeMockTraffic {St} `{!IStorage St} (d : St) (req : Request.t) : Handler :=
  corsMiddleware (getSettings d) req (nodeCatchAll d req).

(** Mock traffic under [/mock] in the Workers entry point:
    [workerApp.use('/mock/*', corsMiddleware(settingsGetter));
     workerApp.route('/mock', createMockRoutes(...))]. *)
Definition workerMockTraffic {St} `{!IStorage St} (d : St) (req : Request.t) : Handler :=
  corsMiddleware (getSettings d) req (mockResponder d req).

(** The catch-all of the Workers entry point, which applies the dynamic
    policy inline. *)
Definition workerCatchAll {St} `{!IStorage St} (d : St) : Request.t → Handler :=
  λ req,
    if startsWith (Request.path req) (str "/api/admin") then notFound
    else
      let settings := getSettings d in
      let origin := or_default (Request.origin req) (str "*") in
      let isAllowed :=
        includes (corsOrigins settings) (str "*")
        || includes (corsOrigins settings) origin in
      when isAllowed (
        let allowedOrigin :=
          if includes (corsOrigins settings) (str "*") then str "*" else origin in
        header ACAO allowedOrigin ;;
        header ACAM (join (str ", ") (corsMethods settings)) ;;
        header ACAH (join (str ", ") (corsHeaders settings))) ;;
      if bool_decide (Request.method req = str "OPTIONS") then
        ret (Res.mk 204 NoBody)
      else mockResponder d req.

(** The management API behind its static CORS policy:
    [app.use('/api/admin/*', staticCorsMiddleware());
     app.route('/api/admin', createAdminRoutes(...))]. *)
Definition adminTraffic (admin : Request.t → Handler) (req : Request.t) : Handler :=
  staticCorsMiddleware no_options req (emit (AdminLogic req) ;; admin req).

Definition fresh : Context := {| out_headers := ∅; log := [] |}.

(** ** Exceptions

    A computation that may throw; [try { ... } catch { ... }] is [try_catch]. *)

Inductive result (A : Type) :=
  | Val (a : A)
  | Throw.
Arguments Val {A} a.
Arguments Throw {A}.

#[global] Instance result_ret : MRet result := @Val.
#[global] Instance result_bind : MBind result :=
  λ A B k m, match m with Val a => k a | Throw => Throw end.

Definition try_catch {A} (m : result A) (handler : A) : A :=
  match m with Val a => a | Throw => handler end.

(** ** Platform functions the token helpers call

    [btoa], [atob], [TextEncoder], [crypto.subtle] (HMAC with SHA-256),
    [JSON.stringify] and [JSON.parse] are provided by the JavaScript run time.
    They are modelled after their standards (HTML, Encoding, RFC 4648,
    FIPS 180-4, RFC 2104, Web Crypto, ECMA-262 and ECMA-404); numbers are
    exact decimals instead of IEEE doubles. *)

Module Platform.

Definition chr (a : ascii) : N := N_of_ascii a.

(** *** Base64 ([btoa], [atob]) *)

Definition alphabet : jsstring :=
  str "ABCDEFGHIJKLMNOPQRSTUVWXYZabcdefghijklmnopqrstuvwxyz0123456789+/".

Definition enc_sextet (n : N) : N := nth (N.to_nat n) alphabet 0%N.

Definition dec_sextet (c : N) : option N :=
  if (65 <=? c)%N && (c <=? 90)%N then Some (c - 65)%N
  else if (97 <=? c)%N && (c <=? 122)%N then Some (c - 71)%N
  else if (48 <=? c)%N && (c <=? 57)%N then Some (c + 4)%N
  else if (c =? 43)%N then Some 62%N
  else if (c =? 47)%N then Some 63%N
  else None.

Definition pad : N := chr "=".

Fixpoint b64_encode (l : list N) : jsstring :=
  match l with
  | [] => []
  | [a] =>
      [enc_sextet (a / 4); enc_sextet (a mod 4 * 16); pad; pad]%N
  | [a; b] =>
      [enc_sextet (a / 4); enc_sextet (a mod 4 * 16 + b / 16);
       enc_sextet (b mod 16 * 4); pad]%N
  | a :: b :: c :: l' =>
      [enc_sextet (a / 4); enc_sextet (a mod 4 * 16 + b / 16);
       enc_sextet (b mod 16 * 4 + c / 64); enc_sextet (c mod 64)]%N
      ++ b64_encode l'
  end.

(** [btoa(s)]: throws [InvalidCharacterError] when a code unit exceeds 0xFF. *)
Definition btoa (s : jsstring) : result jsstring :=
  if forallb (λ c, (c <=? 255)%N) s then Val (b64_encode s) else Throw.

Definition ascii_whitespace (c : N) : bool :=
  bool_decide (c ∈ [9; 10; 12; 13; 32]%N).

(** Groups of four sextets give three bytes; a final group of two gives
    one byte and of three gives two, the left-over bits being dropped. *)
Fixpoint b64_decode (l : list N) : list N :=
  match l with
  | a :: b :: c :: d :: l' =>
      [a * 4 + b / 16; b mod 16 * 16 + c / 4; c mod 4 * 64 + d]%N ++ b64_decode l'
  | [a; b; c] => [a * 4 + b / 16; b mod 16 * 16 + c / 4]%N
  | [a; b] => [a * 4 + b / 16]%N
  | _ => []
  end.

Definition strip_padding (s : jsstring) : jsstring :=
  if decide (length s mod 4 = 0)%nat then
    match reverse s with
    | p1 :: p2 :: r =>
        if bool_decide (p1 = pad) then
          if bool_decide (p2 = pad) then reverse r else reverse (p2 :: r)
        else s
    | [p1] => if bool_decide (p1 = pad) then [] else s
    | [] => s
    end
  else s.

(** [atob(s)]: the forgiving-base64 decode of the HTML standard. *)
Definition atob (s : jsstring) : result jsstring :=
  let data := filter (λ c, ascii_whitespace c = false) s in
  let data := strip_padding data in
  if decide (length data mod 4 = 1)%nat then Throw
  else
    match mapM dec_sextet data with
    | None => Throw
    | Some sextets => Val (b64_decode sextets)
    end.

(** *** [TextEncoder.encode]: UTF-8 of a UTF-16 string; an unpaired
    surrogate becomes U+FFFD. *)

Definition is_high_surrogate (c : N) : bool := (55296 <=? c)%N && (c <=? 56319)%N.
Definition is_low_surrogate (c : N) : bool := (56320 <=? c)%N && (c <=? 57343)%N.

Definition utf8_of_code_point (p : N) : list N :=
  if (p <? 128)%N then [p]
  else if (p <? 2048)%N then [192 + p / 64; 128 + p mod 64]%N
  else if (p <? 65536)%N then
    [224 + p / 4096; 128 + p / 64 mod 64; 128 + p mod 64]%N
  else
    [240 + p / 262144; 128 + p / 4096 mod 64; 128 + p / 64 mod 64; 128 + p mod 64]%N.

Fixpoint utf8_encode (s : jsstring) : list N :=
  match s with
  | [] => []
  | c :: s' =>
      if is_high_surrogate c then
        match s' with
        | d :: s'' =>
            if is_low_surrogate d then
              utf8_of_code_point (65536 + (c - 55296) * 1024 + (d - 56320))%N
              ++ utf8_encode s''
            else utf8_of_code_point 65533 ++ utf8_encode s'
        | [] => utf8_of_code_point 65533
        end
      else if is_low_surrogate c then utf8_of_code_point 65533 ++ utf8_encode s'
      else utf8_of_code_point c ++ utf8_encode s'
  end.

End Platform.

(** ** SHA-256 (FIPS 180-4) and HMAC (RFC 2104), as [crypto.subtle] computes them *)

Module SHA256.
Local Open Scope N_scope.

Definition w32 : N := 4294967296.
Definition add32 (a b : N) : N := (a + b) mod w32.
Definition rotr (n x : N) : N := N.lor (N.shiftr x n) (N.shiftl x (32 - n) mod w32).
Definition not32 (x : N) : N := N.lxor x 4294967295.

Definition Ch (x y z : N) : N := N.lxor (N.land x y) (N.land (not32 x) z).
Definition Maj (x y z : N) : N :=
  N.lxor (N.lxor (N.land x y) (N.land x z)) (N.land y z).
Definition Sigma0 (x : N) : N := N.lxor (N.lxor (rotr 2 x) (rotr 13 x)) (rotr 22 x).
Definition Sigma1 (x : N) : N := N.lxor (N.lxor (rotr 6 x) (rotr 11 x)) (rotr 25 x).
Definition sigma0 (x : N) : N := N.lxor (N.lxor (rotr 7 x) (rotr 18 x)) (N.shiftr x 3).
Definition sigma1 (x : N) : N := N.lxor (N.lxor (rotr 17 x) (rotr 19 x)) (N.shiftr x 10).

Definition K : list N :=
  [
    1116352408; 1899447441; 3049323471; 3921009573; 961987163; 1508970993;
    2453635748; 2870763221; 3624381080; 310598401; 607225278; 1426881987;
    1925078388; 2162078206; 2614888103; 3248222580; 3835390401; 4022224774;
    264347078; 604807628; 770255983; 1249150122; 1555081692; 1996064986;
    2554220882; 2821834349; 2952996808; 3210313671; 3336571891; 3584528711;
    113926993; 338241895; 666307205; 773529912; 1294757372; 1396182291;
    1695183700; 1986661051; 2177026350; 2456956037; 2730485921; 2820302411;
    3259730800; 3345764771; 3516065817; 3600352804; 4094571909; 275423344;
    430227734; 506948616; 659060556; 883997877; 958139571; 1322822218;
    1537002063; 1747873779; 1955562222; 2024104815; 2227730452; 2361852424;
    2428436474; 2756734187; 3204031479; 3329325298 ].

Definition H0 : list N :=
  [
    1779033703; 3144134277; 1013904242; 2773480762;
    1359893119; 2600822924; 528734635; 1541459225 ].

(** The message followed by 0x80, zeros, and its bit length on 64 bits,
    a multiple of 64 bytes in all. *)
Definition be_bytes (width : nat) (x : N) : list N :=
  (λ i, x / 256 ^ N.of_nat i mod 256) <$> reverse (seq 0 width).

Definition padding (msg : list N) : list N :=
  let len := length msg in
  let zeros := ((64 - (len + 9) mod 64) mod 64)%nat in
  msg ++ [128] ++ replicate zeros 0 ++ be_bytes 8 (N.of_nat len * 8).

Fixpoint words (bytes : list N) : list N :=
  match bytes with
  | a :: b :: c :: d :: rest => ((a * 256 + b) * 256 + c) * 256 + d :: words rest
  | _ => []
  end.

(** The message schedule, most recent word first. *)
Fixpoint extend (n : nat) (w : list N) : list N :=
  match n with
  | O => w
  | S n' =>
      let new :=
        add32 (add32 (sigma1 (nth 1 w 0)) (nth 6 w 0))
              (add32 (sigma0 (nth 14 w 0)) (nth 15 w 0)) in
      extend n' (new :: w)
  end.

Definition schedule (block : list N) : list N :=
  reverse (extend 48 (reverse (words block))).

Definition round (s : list N) (kw : N * N) : list N :=
  match s with
  | [a; b; c; d; e; f; g; h] =>
      let t1 := add32 (add32 (add32 h (Sigma1 e)) (add32 (Ch e f g) kw.1)) kw.2 in
      let t2 := add32 (Sigma0 a) (Maj a b c) in
      [add32 t1 t2; a; b; c; add32 d t1; e; f; g]
  | _ => s
  end.

Definition compress (h : list N) (block : list N) : list N :=
  zip_with add32 h (foldl round h (zip K (schedule block))).

Fixpoint blocks (n : nat) (bytes : list N) : list (list N) :=
  match n with
  | O => []
  | S n' =>
      match bytes with
      | [] => []
      | _ => take 64 bytes :: blocks n' (drop 64 bytes)
      end
  end.

Definition sha256 (msg : list N) : list N :=
  let p := padding msg in
  foldl compress H0 (blocks (length p) p) ≫= be_bytes 4.

Definition hmac (key msg : list N) : list N :=
  let key := if decide (64 < length key)%nat then sha256 key else key in
  let key := key ++ replicate (64 - length key) 0 in
  sha256 (((λ b, N.lxor b 92) <$> key)
          ++ sha256 (((λ b, N.lxor b 54) <$> key) ++ msg)).

End SHA256.

(** ** [JSON.stringify] and [JSON.parse] *)

Module JSON.
Import Platform.
Local Open Scope N_scope.

Definition hex_digit (d : N) : N := nth (N.to_nat d) (str "0123456789abcdef") 0.

(** [\uXXXX] with four lower-case hexadecimal digits. *)
Definition unicode_escape (c : N) : jsstring :=
  [chr "\"; chr "u"; hex_digit (c / 4096 mod 16); hex_digit (c / 256 mod 16);
   hex_digit (c / 16 mod 16); hex_digit (c mod 16)].

Definition escape_unit (c : N) : jsstring :=
  if c =? 8 then str "\b"
  else if c =? 9 then str "\t"
  else if c =? 10 then str "\n"
  else if c =? 12 then str "\f"
  else if c =? 13 then str "\r"
  else if c =? 34 then [chr "\"; 34]
  else if c =? 92 then str "\\"
  else if c <? 32 then unicode_escape c
  else [c].

(** [QuoteJSONString] without the enclosing quotes: a surrogate pair is
    copied, an unpaired surrogate is escaped. *)
Fixpoint quote_body (s : jsstring) : jsstring :=
  match s with
  | [] => []
  | c :: s' =>
      if is_high_surrogate c then
        match s' with
        | d :: s'' =>
            if is_low_surrogate d then c :: d :: quote_body s''
            else unicode_escape c ++ quote_body s'
        | [] => unicode_escape c
        end
      else if is_low_surrogate c then unicode_escape c ++ quote_body s'
      else escape_unit c ++ quote_body s'
  end.

Definition quote (s : jsstring) : jsstring := [34] ++ quote_body s ++ [34].

(** Decimal notation of [m * 10^e]; engines switch to exponent notation
    from 1e21 on and below 1e-6. *)
Definition digits_of (n : N) : jsstring := str (NilZero.string_of_uint (N.to_uint n)).

Fixpoint strip_zeros_rev (fraction_rev : jsstring) : jsstring :=
  match fraction_rev with
  | c :: r => if c =? chr "0" then strip_zeros_rev r else fraction_rev
  | [] => []
  end.

Definition number_to_string (n : number) : jsstring :=
  match n with
  | Int z => String_of_Z z
  | Frac m k =>
      let ds := digits_of (Z.abs_N m) in
      let k := Pos.to_nat k in
      let ds := replicate (S k - length ds) (chr "0") ++ ds in
      let int_part := take (length ds - k) ds in
      let fraction := reverse (strip_zeros_rev (reverse (drop (length ds - k) ds))) in
      (if (m <? 0)%Z then str "-" else [])
      ++ int_part ++ (match fraction with [] => [] | _ => str "." ++ fraction end)
  end.

Fixpoint stringify (v : json) : jsstring :=
  match v with
  | JNull => str "null"
  | JBool true => str "true"
  | JBool false => str "false"
  | JNum n => number_to_string n
  | JStr s => quote s
  | JArr l =>
      str "[" ++ join (str ",") ((fix go (l : list json) : list jsstring :=
                                   match l with
                                   | [] => []
                                   | x :: l' => stringify x :: go l'
                                   end) l) ++ str "]"
  | JObj kv =>
      str "{" ++ join (str ",")
                   ((fix go (kv : list (jsstring * json)) : list jsstring :=
                       match kv with
                       | [] => []
                       | (k, x) :: kv' => (quote k ++ str ":" ++ stringify x) :: go kv'
                       end) kv) ++ str "}"
  end.

(** *** Parsing (ECMA-404 grammar) *)

Definition is_ws (c : N) : bool := bool_decide (c ∈ [9; 10; 13; 32]).

Fixpoint skip_ws (s : jsstring) : jsstring :=
  match s with
  | c :: s' => if is_ws c then skip_ws s' else s
  | [] => []
  end.

Definition hex_value (c : N) : option N :=
  if (48 <=? c) && (c <=? 57) then Some (c - 48)
  else if (97 <=? c) && (c <=? 102) then Some (c - 87)
  else if (65 <=? c) && (c <=? 70) then Some (c - 55)
  else None.

(** The characters of a string literal after its opening quote. *)
Fixpoint parse_string_body (s : jsstring) : option (jsstring * jsstring) :=
  match s with
  | [] => None
  | c :: r =>
      if c =? 34 then Some ([], r)
      else if c =? 92 then
        match r with
        | e :: r' =>
            let simple (x : N) :=
              match parse_string_body r' with
              | Some (t, rest) => Some (x :: t, rest)
              | None => None
              end in
            if e =? 34 then simple 34
            else if e =? 92 then simple 92
            else if e =? 47 then simple 47
            else if e =? chr "b" then simple 8
            else if e =? chr "f" then simple 12
            else if e =? chr "n" then simple 10
            else if e =? chr "r" then simple 13
            else if e =? chr "t" then simple 9
            else if e =? chr "u" then
              match r' with
              | h1 :: h2 :: h3 :: h4 :: r'' =>
                  match hex_value h1, hex_value h2, hex_value h3, hex_value h4 with
                  | Some a, Some b, Some c, Some d =>
                      match parse_string_body r'' with
                      | Some (t, rest) =>
                          Some (((a * 16 + b) * 16 + c) * 16 + d :: t, rest)
                      | None => None
                      end
                  | _, _, _, _ => None
                  end
              | _ => None
              end
            else None
        | [] => None
        end
      else if c <? 32 then None
      else
        match parse_string_body r with
        | Some (t, rest) => Some (c :: t, rest)
        | None => None
        end
  end.

Definition is_digit (c : N) : bool := (48 <=? c) && (c <=? 57).

(** The longest prefix of digits, as their values, and what follows. *)
Fixpoint take_digits (s : jsstring) : list N * jsstring :=
  match s with
  | c :: r =>
      if is_digit c then let '(ds, rest) := take_digits r in (c - 48 :: ds, rest)
      else ([], s)
  | [] => ([], [])
  end.

Definition digits_value (ds : list N) : N := foldl (λ acc d, acc * 10 + d) 0 ds.

(** [m * 10^e] as a [number]. *)
Fixpoint normalize (fuel : nat) (m : Z) (k : positive) : number :=
  match fuel with
  | O => Frac m k
  | S fuel' =>
      if (m mod 10 =? 0)%Z then
        match k with
        | 1%positive => Int (m / 10)
        | _ => normalize fuel' (m / 10) (Pos.pred k)
        end
      else Frac m k
  end.

Definition make_number (m e : Z) : number :=
  match e with
  | Z.neg k => if (m =? 0)%Z then Int 0 else normalize (Pos.to_nat k) m k
  | _ => Int (m * 10 ^ e)
  end.

(** An optional minus sign; an integer part without a leading zero unless
    it is the single digit zero; an optional fraction of at least one
    digit; an optional exponent. *)
Definition parse_number (s : jsstring) : option (number * jsstring) :=
  let '(negative, s) :=
    match s with
    | c :: r => if c =? chr "-" then (true, r) else (false, s)
    | [] => (false, s)
    end in
  let '(int_ds, s) := take_digits s in
  match int_ds with
  | [] => None
  | d :: ds =>
      if (d =? 0) && negb (bool_decide (ds = [])) then None
      else
        let fraction :=
          match s with
          | c :: r =>
              if c =? chr "." then
                let '(fs, rest) := take_digits r in
                match fs with [] => None | _ => Some (fs, rest) end
              else Some ([], s)
          | [] => Some ([], s)
          end in
        match fraction with
        | None => None
        | Some (fs, s) =>
            let exponent :=
              match s with
              | c :: r =>
                  if (c =? chr "e") || (c =? chr "E") then
                    let '(minus, r) :=
                      match r with
                      | g :: r' =>
                          if g =? chr "-" then (true, r')
                          else if g =? chr "+" then (false, r')
                          else (false, r)
                      | [] => (false, r)
                      end in
                    let '(es, rest) := take_digits r in
                    match es with
                    | [] => None
                    | _ =>
                        let e := Z.of_N (digits_value es) in
                        Some ((if minus then - e else e)%Z, rest)
                    end
                  else Some (0%Z, s)
              | [] => Some (0%Z, s)
              end in
            match exponent with
            | None => None
            | Some (e, rest) =>
                let m := Z.of_N (digits_value (int_ds ++ fs)) in
                let m := if negative then (- m)%Z else m in
                Some (make_number m (e - Z.of_nat (length fs)), rest)
            end
        end
  end.

(** [CreateDataProperty]: a repeated key keeps its place and takes the
    later value. *)
Fixpoint obj_set (k : jsstring) (v : json) (kv : list (jsstring * json))
    : list (jsstring * json) :=
  match kv with
  | [] => [(k, v)]
  | (k', v') :: kv' =>
      if bool_decide (k' = k) then (k, v) :: kv' else (k', v') :: obj_set k v kv'
  end.

Definition expect (c : N) (s : jsstring) : option jsstring :=
  match skip_ws s with
  | c' :: r => if c' =? c then Some r else None
  | [] => None
  end.

Definition literal (word : jsstring) (v : json) (s : jsstring) : option (json * jsstring) :=
  if startsWith s word then Some (v, drop (length word) s) else None.

Fixpoint parse_value (fuel : nat) (s : jsstring) : option (json * jsstring) :=
  match fuel with
  | O => None
  | S fuel' =>
      match skip_ws s with
      | [] => None
      | c :: r =>
          if c =? chr "{" then
            match skip_ws r with
            | c' :: r' =>
                if c' =? chr "}" then Some (JObj [], r')
                else parse_members fuel' [] r
            | [] => None
            end
          else if c =? chr "[" then
            match skip_ws r with
            | c' :: r' =>
                if c' =? chr "]" then Some (JArr [], r')
                else parse_elements fuel' [] r
            | [] => None
            end
          else if c =? 34 then
            match parse_string_body r with
            | Some (t, rest) => Some (JStr t, rest)
            | None => None
            end
          else if c =? chr "t" then literal (str "true") (JBool true) (c :: r)
          else if c =? chr "f" then literal (str "false") (JBool false) (c :: r)
          else if c =? chr "n" then literal (str "null") JNull (c :: r)
          else
            match parse_number (c :: r) with
            | Some (n, rest) => Some (JNum n, rest)
            | None => None
            end
      end
  end
with parse_elements (fuel : nat) (acc : list json) (s : jsstring)
    : option (json * jsstring) :=
  match fuel with
  | O => None
  | S fuel' =>
      match parse_value fuel' s with
      | None => None
      | Some (v, rest) =>
          match skip_ws rest with
          | c :: r =>
              if c =? chr "," then parse_elements fuel' (acc ++ [v]) r
              else if c =? chr "]" then Some (JArr (acc ++ [v]), r)
              else None
          | [] => None
          end
      end
  end
with parse_members (fuel : nat) (acc : list (jsstring * json)) (s : jsstring)
    : option (json * jsstring) :=
  match fuel with
  | O => None
  | S fuel' =>
      match expect 34 s with
      | None => None
      | Some r =>
          match parse_string_body r with
          | None => None
          | Some (k, r) =>
              match expect (chr ":") r with
              | None => None
              | Some r =>
                  match parse_value fuel' r with
                  | None => None
                  | Some (v, rest) =>
                      match skip_ws rest with
                      | c :: r =>
                          if c =? chr "," then parse_members fuel' (obj_set k v acc) r
                          else if c =? chr "}" then Some (JObj (obj_set k v acc), r)
                          else None
                      | [] => None
                      end
                  end
              end
          end
      end
  end.

(** [JSON.parse(text)]: throws [SyntaxError] unless the text is one JSON
    value, white space apart.  Every step of the recursion consumes a
    character, so the length of the text is fuel enough. *)
Definition parse (text : jsstring) : result json :=
  match parse_value (S (length text)) text with
  | Some (v, rest) =>
      match skip_ws rest with
      | [] => Val v
      | _ => Throw
      end
  | None => Throw
  end.

End JSON.

(** ** Abstract operations of ECMA-262 behind [payload.exp < now] *)

Module Coerce.
Import Platform.
Local Open Scope N_scope.

Inductive numeric :=
  | NaN
  | Finite (n : number)
  | PosInf
  | NegInf.

(** [WhiteSpace] and [LineTerminator]. *)
Definition is_space (c : N) : bool :=
  bool_decide (c ∈ [9; 10; 11; 12; 13; 32; 160; 5760; 8232; 8233; 8239; 8287;
                    12288; 65279])
  || ((8192 <=? c) && (c <=? 8202)).

Fixpoint trim_start (s : jsstring) : jsstring :=
  match s with
  | c :: s' => if is_space c then trim_start s' else s
  | [] => []
  end.

Definition trim (s : jsstring) : jsstring :=
  reverse (trim_start (reverse (trim_start s))).

Definition digit_in_base (base c : N) : option N :=
  match JSON.hex_value c with
  | Some d => if d <? base then Some d else None
  | None => None
  end.

Definition radix_literal (base : N) (s : jsstring) : numeric :=
  match s, mapM (digit_in_base base) s with
  | _ :: _, Some ds => Finite (Int (Z.of_N (foldl (λ acc d, acc * base + d) 0 ds)))
  | _, _ => NaN
  end.

(** [StrUnsignedDecimalLiteral] other than [Infinity]. *)
Definition unsigned_decimal (s : jsstring) : option number :=
  let '(ints, s) := JSON.take_digits s in
  let fraction :=
    match s with
    | c :: r =>
        if c =? chr "." then
          let '(fs, rest) := JSON.take_digits r in
          match ints, fs with
          | [], [] => None
          | _, _ => Some (fs, rest)
          end
        else match ints with [] => None | _ => Some ([], s) end
    | [] => match ints with [] => None | _ => Some ([], s) end
    end in
  match fraction with
  | None => None
  | Some (fs, s) =>
      let exponent :=
        match s with
        | [] => Some 0%Z
        | c :: r =>
            if (c =? chr "e") || (c =? chr "E") then
              let '(minus, r) :=
                match r with
                | g :: r' =>
                    if g =? chr "-" then (true, r')
                    else if g =? chr "+" then (false, r')
                    else (false, r)
                | [] => (false, r)
                end in
              match JSON.take_digits r with
              | (d :: ds, []) =>
                  let e := Z.of_N (JSON.digits_value (d :: ds)) in
                  Some (if minus then - e else e)%Z
              | _ => None
              end
            else None
        end in
      match exponent with
      | None => None
      | Some e =>
          Some (JSON.make_number (Z.of_N (JSON.digits_value (ints ++ fs)))
                                 (e - Z.of_nat (length fs)))
      end
  end.

Definition negate (n : number) : number :=
  match n with Int z => Int (- z) | Frac m k => Frac (- m) k end.

(** [StringToNumber] *)
Definition StringToNumber (s : jsstring) : numeric :=
  match trim s with
  | [] => Finite (Int 0)
  | c :: r =>
      let prefixed (letter : ascii) :=
        match r with
        | x :: ds =>
            (c =? chr "0") && ((x =? chr letter) || (x + 32 =? chr letter))
        | [] => false
        end in
      if prefixed "x"%char then radix_literal 16 (drop 1 r)
      else if prefixed "o"%char then radix_literal 8 (drop 1 r)
      else if prefixed "b"%char then radix_literal 2 (drop 1 r)
      else
        let '(negative, body) :=
          if c =? chr "-" then (true, r)
          else if c =? chr "+" then (false, r)
          else (false, c :: r) in
        if bool_decide (body = str "Infinity") then
          if negative then NegInf else PosInf
        else
          match unsigned_decimal body with
          | Some n => Finite (if negative then negate n else n)
          | None => NaN
          end
  end.

(** [ToString] of an object from [JSON.parse] throws [TypeError] exactly
    when a non-callable own [toString] hides the inherited one; arrays
    go through [join], which converts their elements. *)
Fixpoint conversion_throws (v : json) : bool :=
  match v with
  | JObj kv => bool_decide (str "toString" ∈ kv.*1)
  | JArr l =>
      (fix any (l : list json) : bool :=
         match l with
         | [] => false
         | x :: l' => conversion_throws x || any l'
         end) l
  | _ => false
  end.

(** [StringToNumber(ToString(v))] for an element [v] of an array: the
    join of two or more elements has a comma and is no number. *)
Fixpoint element_numeric (v : json) : numeric :=
  match v with
  | JNull => Finite (Int 0)
  | JBool _ => NaN
  | JNum n => Finite n
  | JStr s => StringToNumber s
  | JArr [] => Finite (Int 0)
  | JArr [x] => element_numeric x
  | JArr _ => NaN
  | JObj _ => NaN
  end.

(** [ToNumber(ToPrimitive(v, number))]; [None] is [undefined]. *)
Definition ToNumber (v : option json) : result numeric :=
  match v with
  | None => Val NaN
  | Some JNull => Val (Finite (Int 0))
  | Some (JBool b) => Val (Finite (Int (if b then 1 else 0)))
  | Some (JNum n) => Val (Finite n)
  | Some (JStr s) => Val (StringToNumber s)
  | Some (JArr l) =>
      if conversion_throws (JArr l) then Throw else Val (element_numeric (JArr l))
  | Some (JObj kv) =>
      if conversion_throws (JObj kv) then Throw else Val NaN
  end.

Definition number_ltb (n : number) (z : Z) : bool :=
  match n with
  | Int a => (a <? z)%Z
  | Frac m k => (m <? z * 10 ^ Z.pos k)%Z
  end.

(** [v < z] for an integer [z]. *)
Definition lt_number (v : option json) (z : Z) : result bool :=
  n ← ToNumber v;
  mret match n with
       | NaN => false
       | Finite n => number_ltb n z
       | PosInf => false
       | NegInf => true
       end.

(** [v.key] for a value from [JSON.parse] and a key that no prototype
    defines: [TypeError] on [null], [undefined] unless [v] is an object
    that has the key. *)
Definition get (v : json) (key : jsstring) : result (option json) :=
  match v with
  | JNull => Throw
  | JObj kv => Val ((λ found, found.2.2) <$> list_find (λ p, p.1 = key) kv)
  | _ => Val None
  end.

End Coerce.

(** ** The token helpers ([middleware/auth.ts]) *)

Module Token.
Import Platform.

Definition replace_all (from to : N) (s : jsstring) : jsstring :=
  (λ c, if bool_decide (c = from) then to else c) <$> s.

(** [s.replace(/=+$/, '')] *)
Fixpoint drop_pads (s : jsstring) : jsstring :=
  match s with
  | c :: r => if bool_decide (c = pad) then drop_pads r else s
  | [] => []
  end.

Definition strip_trailing_pad (s : jsstring) : jsstring :=
  reverse (drop_pads (reverse s)).

Definition base64UrlEncode (s : jsstring) : result jsstring :=
  base64 ← btoa s;
  mret (strip_trailing_pad
          (replace_all (chr "/") (chr "_") (replace_all (chr "+") (chr "-") base64))).

(** [while (base64.length % 4) base64 += '='] *)
Definition pad_to_four (s : jsstring) : jsstring :=
  s ++ replicate ((4 - length s mod 4) mod 4) pad.

Definition base64UrlDecode (s : jsstring) : result jsstring :=
  let base64 := replace_all (chr "_") (chr "/") (replace_all (chr "-") (chr "+") s) in
  atob (pad_to_four base64).

(** [crypto.subtle.importKey('raw', ...)] for HMAC rejects an empty key. *)
Definition importKey (raw : list N) : result (list N) :=
  match raw with
  | [] => Throw
  | _ => Val raw
  end.

Definition sign (message secret : jsstring) : result jsstring :=
  key ← importKey (utf8_encode secret);
  let signature := SHA256.hmac key (utf8_encode message) in
  base64UrlEncode signature.

Definition dot : jsstring := str ".".

Definition header_json : json :=
  JObj [(str "alg", JStr (str "HS256")); (str "typ", JStr (str "JWT"))].

Definition payload_json (sub : jsstring) (iat exp : Z) : json :=
  JObj [(str "sub", JStr sub); (str "iat", JNum (Int iat)); (str "exp", JNum (Int exp))].

(** [clock] is [Date.now()], in milliseconds. *)
Definition createToken (username secret : jsstring) (expiresIn : option Z) (clock : Z)
    : result jsstring :=
  let expiresIn := default 86400%Z expiresIn in
  let now := (clock / 1000)%Z in
  let payload := payload_json username now (now + expiresIn) in
  headerB64 ← base64UrlEncode (JSON.stringify header_json);
  payloadB64 ← base64UrlEncode (JSON.stringify payload);
  signature ← sign (headerB64 ++ dot ++ payloadB64) secret;
  mret (headerB64 ++ dot ++ payloadB64 ++ dot ++ signature).

(** [s.split('.')] *)
Fixpoint split (sep : N) (s : jsstring) : list jsstring :=
  match s with
  | [] => [[]]
  | c :: s' =>
      if bool_decide (c = sep) then [] :: split sep s'
      else
        match split sep s' with
        | part :: parts => (c :: part) :: parts
        | [] => [[c]]
        end
  end.

(** The body of the [try] block; [None] is [null]. *)
Definition verifyToken_try (token secret : jsstring) (clock : Z) : result (option json) :=
  match split (chr ".") token with
  | [headerB64; payloadB64; signatureB64] =>
      expectedSignature ← sign (headerB64 ++ dot ++ payloadB64) secret;
      if bool_decide (signatureB64 ≠ expectedSignature) then Val None
      else
        decoded ← base64UrlDecode payloadB64;
        payload ← JSON.parse decoded;
        let now := (clock / 1000)%Z in
        exp ← Coerce.get payload (str "exp");
        expired ← Coerce.lt_number exp now;
        if (expired : bool) then Val None else Val (Some payload)
  | _ => Val None
  end.

Definition verifyToken (token secret : jsstring) (clock : Z) : option json :=
  try_catch (verifyToken_try token secret clock) None.

End Token.

(** ** The authentication middleware ([middleware/auth.ts]) *)

Module Auth.

(** Truthiness of a value that [JSON.parse] returned. *)
Definition truthy (v : json) : bool :=
  match v with
  | JNull => false
  | JBool b => b
  | JNum (Int z) => negb (z =? 0)
  | JNum (Frac m _) => negb (m =? 0)
  | JStr s => negb (bool_decide (s = []))
  | JArr _ => true
  | JObj _ => true
  end.

(** [{ success: false, error }] *)
Definition failure (error : string) : json :=
  JObj [(str "success", JBool false); (str "error", JStr (str error))].

Definition unauthorized (error : string) : Res.t := Res.mk 401 (Json (failure error)).

(** [authHeader] is [c.req.header('Authorization')] and [clock] is
    [Date.now()]; [c.set('user', payload)] followed by [next()] hands the
    payload to the rest of the chain. *)
Definition authMiddleware (secret : jsstring) (clock : Z) (authHeader : option jsstring)
    (next : json → Handler) : Handler :=
  match authHeader with
  | Some (c :: h) =>
      let authHeader := c :: h in
      if startsWith authHeader (str "Bearer ") then
        let token := substring 7 authHeader in
        match Token.verifyToken token secret clock with
        | Some payload =>
            if truthy payload then next payload
            else ret (unauthorized "Invalid or expired token")
        | None => ret (unauthorized "Invalid or expired token")
        end
      else ret (unauthorized "Missing or invalid authorization header")
  | _ => ret (unauthorized "Missing or invalid authorization header")
  end.

(** [a === s] for a value [a] of a request body ([None] is [undefined])
    and a string [s]. *)
Definition strict_equals (a : option json) (s : jsstring) : bool :=
  match a with
  | Some (JStr t) => bool_decide (t = s)
  | _ => false
  end.

(** The parameters are declared as strings; the first two are whatever the
    request body holds. *)
Definition validateCredentials (username password : option json)
    (expectedUsername expectedPassword : jsstring) : bool :=
  strict_equals username expectedUsername && strict_equals password expectedPassword.

End Auth.

(** ** The session routes of the management API ([routes/admin.ts]) *)

Record Env := {
  ADMIN_USERNAME : jsstring;
  ADMIN_PASSWORD : jsstring;
  JWT_SECRET : jsstring
}.

Module Admin.

Definition login_succeeded (token : jsstring) : json :=
  JObj [(str "success", JBool true);
        (str "data", JObj [(str "token", JStr token); (str "expiresIn", JNum (Int 86400))])].

(** [POST /login].  [text] is the request body, which [c.req.json()]
    parses; [clock] is [Date.now()].  After [validateCredentials] the
    username is a string, the one it was compared with. *)
Definition login (env : Env) (clock : Z) (text : jsstring) : Res.t :=
  try_catch
    (body ← JSON.parse text;
     username ← Coerce.get body (str "username");
     password ← Coerce.get body (str "password");
     if negb (Auth.validateCredentials username password
                (ADMIN_USERNAME env) (ADMIN_PASSWORD env))
     then Val (Auth.unauthorized "Invalid credentials")
     else
       token ← match username with
               | Some (JStr username) =>
                   Token.createToken username (JWT_SECRET env) None clock
               | _ => Throw
               end;
       Val (Res.mk 200 (Json (login_succeeded token))))
    (Res.mk 400 (Json (Auth.failure "Invalid request body"))).

(** [user.sub] as [c.json] serialises it: a property that is [undefined]
    or a function is left out. *)
Definition sub_of (user : json) : option json :=
  match user with
  | JObj kv => (λ found, found.2.2) <$> list_find (λ p, p.1 = str "sub") kv
  | _ => None
  end.

(** [GET /auth/status], behind [authMiddleware]. *)
Definition status_body (user : json) : json :=
  JObj [(str "success", JBool true);
        (str "data", JObj (match sub_of user with
                           | Some v => [(str "username", v)]
                           | None => []
                           end))].

Definition authStatus (env : Env) (clock : Z) (authHeader : option jsstring) : Handler :=
  Auth.authMiddleware (JWT_SECRET env) clock authHeader
    (λ user, ret (Res.mk 200 (Json (status_body user)))).

End Admin.

(** ** The resolution rule in the specification's words

    Among the projects whose [basePath] is a prefix of the request path, the
    one with the longest [basePath], the earliest on a tie. *)

Fixpoint longest_prefix_project (requestPath : jsstring) (ps : list Project.t)
    : option Project.t :=
  match ps with
  | [] => None
  | p :: ps' =>
      let later := longest_prefix_project requestPath ps' in
      if startsWith requestPath (Project.basePath p) then
        match later with
        | Some q =>
            if (length (Project.basePath p) <? length (Project.basePath q))%nat
            then Some q else Some p
        | None => Some p
        end
      else later
  end.

Definition resolve_longest_prefix (requestPath requestMethod : jsstring) (d : StorageData)
    : option Endpoint.t :=
  match longest_prefix_project requestPath (projects d) with
  | None => None
  | Some project =>
      let relativePath :=
        or_default (Some (substring (length (Project.basePath project)) requestPath))
                   (str "/") in
      find_first (endpoint_matches project relativePath requestMethod) (endpoints d)
  end.

(** The path an endpoint of [p] must have to answer [fullPath]. *)
Definition relative_to (fullPath : jsstring) (p : Project.t) : jsstring :=
  or_default (Some (substring (length (Project.basePath p)) fullPath)) (str "/").

(** The context once the CORS headers for [allowedOrigin] are set. *)
Definition with_cors_headers (allowedOrigin methods headers maxAge : jsstring)
    (c : Context) : Context :=
  let hs :=
    <[ACMA := maxAge]> (<[ACAH := headers]> (<[ACAM := methods]>
      (<[ACAO := allowedOrigin]> (out_headers c)))) in
  {| out_headers :=
       if bool_decide (allowedOrigin = str "*") then hs else <[ACAC := str "true"]> hs;
     log := log c |}.

(** The origin the middleware works with: the header, or [*] without one. *)
Definition effective_origin (req : Request.t) : jsstring :=
  or_default (Request.origin req) (str "*").

Definition forbidden : Res.t := Res.mk 403 (Text (str "Origin not allowed")).
Definition preflight : Res.t := Res.mk 204 NoBody.

(** The six-bit groups of a byte string, without padding. *)
Fixpoint sextets (l : list N) : list N :=
  match l with
  | [] => []
  | [a] => [a / 4; a mod 4 * 16]%N
  | [a; b] => [a / 4; a mod 4 * 16 + b / 16; b mod 16 * 4]%N
  | a :: b :: c :: l' =>
      [a / 4; a mod 4 * 16 + b / 16; b mod 16 * 4 + c / 64; c mod 64]%N ++ sextets l'
  end.

(** The character of a six-bit group in the URL-safe alphabet. *)
Definition url_sextet (n : N) : N :=
  let c := Platform.enc_sextet n in
  if bool_decide (c = Platform.chr "+") then Platform.chr "-"
  else if bool_decide (c = Platform.chr "/") then Platform.chr "_"
  else c.

(** Reading a character [c] of a string literal and then the rest. *)
Definition then_read (c : N) (r : jsstring) : option (jsstring * jsstring) :=
  match JSON.parse_string_body r with
  | Some (t, rest) => Some (c :: t, rest)
  | None => None
  end.

(** A part of a token: a string without a dot. *)
Abbreviation dotless := (Forall (λ c : N, c ≠ Platform.chr ".")).

(** A string [btoa] accepts. *)
Definition latin1 (s : jsstring) : Prop := Forall (λ c, (c ≤ 255)%N) s.

(** The alphabet of [base64UrlEncode]. *)
Definition url_safe (c : N) : Prop :=
  c ∈ str "ABCDEFGHIJKLMNOPQRSTUVWXYZabcdefghijklmnopqrstuvwxyz0123456789-_".

(** The value of a base-36 digit, and of a numeral in base 36. *)
Definition value36 (c : N) : N := if (c <? 58)%N then (c - 48)%N else (c - 87)%N.

Definition of_radix36 (s : jsstring) : N := foldl (λ a c, a * 36 + value36 c)%N 0%N s.

(** ** Sample data used by the examples *)

Module Sample.

Definition project (id basePath : string) : Project.t :=
  Project.mk (str id) (str id) None (str basePath) 100 100.

Definition endpoint (id projectId path method : string) : Endpoint.t :=
  Endpoint.mk (str id) (str projectId) (str path) (str method)
    {| status := 200; headers := []; body := JObj [(str "ok", JBool true)]; delay := None |}
    true 100 100.

Definition api := project "p1" "/api".
Definition api_v1 := project "p2" "/api/v1".
Definition users := endpoint "e1" "p2" "/users" "GET".
Definition root := endpoint "e0" "p1" "/" "GET".

(** [/api] is stored before [/api/v1]. *)
Definition nested : StorageData :=
  {| projects := [api; api_v1]; endpoints := [users]; settings := DEFAULT_SETTINGS |}.

Definition with_root : StorageData :=
  {| projects := [api]; endpoints := [root]; settings := DEFAULT_SETTINGS |}.

Definition kv_with_root : KVData :=
  {| kv_projects := Some [api]; kv_endpoints := Some [root]; kv_settings := None |}.

(** A data file may hold a project whose [id] is the empty string. *)
Definition unnamed := project EmptyString "/x".

Definition with_unnamed : StorageData :=
  {| projects := [unnamed; api_v1]; endpoints := [users]; settings := DEFAULT_SETTINGS |}.

Definition only (origins : list jsstring) : GlobalSettings :=
  {| corsOrigins := origins;
     corsHeaders := corsHeaders DEFAULT_SETTINGS;
     corsMethods := corsMethods DEFAULT_SETTINGS;
     defaultHeaders := defaultHeaders DEFAULT_SETTINGS;
     authEnabled := true |}.

(** A store whose settings list [origins] and that serves [GET] and
    [OPTIONS] on [/api/v1/users]. *)
Definition store (origins : list jsstring) : StorageData :=
  {| projects := [api_v1];
     endpoints := [users; endpoint "e2" "p2" "/users" "OPTIONS"];
     settings := only origins |}.

Definition ok : Handler := ret (Res.mk 200 NoBody).

Definition get (path : string) (origin : option string) : Request.t :=
  Request.mk (str path) (str "GET") (str <$> origin).

Definition options (path : string) (origin : option string) : Request.t :=
  Request.mk (str path) (str "OPTIONS") (str <$> origin).

End Sample.

(** * Properties *)

(** The code unit of a character literal, evaluated. *)
Ltac eval_chars :=
  unfold Platform.chr;
  repeat match goal with
    | |- context [N_of_ascii (Ascii ?a ?b ?c ?d ?e ?f ?g ?h)] =>
        let v := eval vm_compute in (N_of_ascii (Ascii a b c d e f g h)) in
        change (N_of_ascii (Ascii a b c d e f g h)) with v
    end.

(** A decidable proposition, settled by evaluating its decision procedure. *)
Ltac vm_compute_decide :=
  match goal with
  | |- ?P => apply (bool_decide_eq_true_1 P); vm_compute; reflexivity
  end.

(** ** Strings and lists *)

Lemma str_String (c : ascii) (s : string) : str (String c s) = N_of_ascii c :: str s.
Proof. reflexivity. Qed.

Lemma startsWith_prefix (s p : jsstring) : startsWith s p = true ↔ p `prefix_of` s.
Proof.
  revert s. induction p as [|c p IH]; intros s; simpl.
  - split; [intros _; apply prefix_nil | done].
  - destruct s as [|d s].
    + split; [done | intros H; by apply prefix_nil_not in H].
    + rewrite andb_true_iff, bool_decide_eq_true, IH. split.
      * intros [-> H]. by apply prefix_cons.
      * intros H. split.
        -- by apply prefix_cons_inv_1 in H.
        -- by apply prefix_cons_inv_2 in H.
Qed.

Lemma startsWith_app (p r : jsstring) : startsWith (p ++ r) p = true.
Proof. apply startsWith_prefix. by apply prefix_app_r. Qed.

Lemma find_first_Some {A} (f : A → bool) (l : list A) (x : A) :
  find_first f l = Some x ↔
  ∃ before after, l = before ++ x :: after ∧ f x = true ∧ Forall (λ y, f y = false) before.
Proof.
  unfold find_first. split.
  - destruct (list_find _ l) as [[i y]|] eqn:E; [|done]. simpl. intros [= ->].
    apply list_find_Some in E as (Hi & Hx & Hbefore).
    exists (take i l), (drop (S i) l). split_and!.
    + by rewrite take_drop_middle.
    + done.
    + apply Forall_lookup. intros j y Hj.
      apply lookup_take_Some in Hj as [Hj Hlt].
      specialize (Hbefore j y Hj Hlt). by apply not_true_is_false.
  - intros (before & after & -> & Hx & Hbefore).
    assert (list_find (λ y, f y = true) (before ++ x :: after) = Some (length before, x)) as ->; [|done].
    apply list_find_Some. split_and!.
    + by rewrite list_lookup_middle.
    + done.
    + intros j y Hj Hlt. rewrite lookup_app_l in Hj by done.
      rewrite Forall_lookup in Hbefore. specialize (Hbefore j y Hj). congruence.
Qed.

Lemma find_first_None {A} (f : A → bool) (l : list A) :
  find_first f l = None ↔ Forall (λ y, f y = false) l.
Proof.
  unfold find_first. destruct (list_find _ l) as [[i y]|] eqn:E; simpl.
  - split; [done|]. intros H. apply list_find_Some in E as (Hi & Hx & _).
    rewrite Forall_lookup in H. specialize (H i y Hi). congruence.
  - split; [|done]. intros _. apply list_find_None in E.
    eapply Forall_impl; [exact E|]. intros x Hx. by apply not_true_is_false.
Qed.

Lemma find_first_middle {A} (f : A → bool) (before after : list A) (x : A) :
  Forall (λ y, f y = false) before → f x = true →
  find_first f (before ++ x :: after) = Some x.
Proof. intros. apply find_first_Some. by exists before, after. Qed.

Lemma list_find_middle {A} (P : A → Prop) `{!∀ x, Decision (P x)}
    (before after : list A) (x : A) :
  Forall (λ y, ¬ P y) before → P x →
  list_find P (before ++ x :: after) = Some (length before, x).
Proof.
  intros Hbefore Hx. apply list_find_Some. split_and!.
  - by rewrite list_lookup_middle.
  - done.
  - intros j y Hj Hlt. rewrite lookup_app_l in Hj by done.
    rewrite Forall_lookup in Hbefore. by apply (Hbefore j).
Qed.

Lemma findIndex_middle {A} (f : A → bool) (before after : list A) (x : A) :
  Forall (λ y, f y = false) before → f x = true →
  findIndex f (before ++ x :: after) = Some (length before).
Proof.
  intros Hbefore Hx. unfold findIndex.
  rewrite (list_find_middle (λ y, f y = true) before after x); [done| |done].
  eapply Forall_impl; [exact Hbefore|]. intros y Hy. congruence.
Qed.

Lemma findIndex_None {A} (f : A → bool) (l : list A) :
  Forall (λ y, f y = false) l → findIndex f l = None.
Proof.
  intros H. unfold findIndex.
  assert (list_find (λ y, f y = true) l = None) as ->; [|done].
  apply list_find_None. eapply Forall_impl; [exact H|]. intros y Hy. congruence.
Qed.

(** ** Resolution *)

Section Resolution.
Variables (fullPath method : jsstring).

Lemma relative_to_app (p : Project.t) (rest : jsstring) :
  fullPath = Project.basePath p ++ rest →
  relative_to fullPath p = match rest with [] => str "/" | _ => rest end.
Proof.
  intros H. unfold relative_to, substring. rewrite H, drop_app_length. by destruct rest.
Qed.

(** What [MemoryStorage.getEndpointByPath] returns once the project is
    known: the first stored endpoint of that project with the relative
    path, the method and [enabled]. *)
Lemma endpoint_matches_spec (p : Project.t) (rel : jsstring) (e : Endpoint.t) :
  endpoint_matches p rel method e = true ↔
  Endpoint.projectId e = Project.id p ∧ Endpoint.path e = rel
  ∧ Endpoint.method e = method ∧ Endpoint.enabled e = true.
Proof.
  unfold endpoint_matches. rewrite !andb_true_iff, !bool_decide_eq_true. tauto.
Qed.

Lemma MemoryStorage_no_project (d : StorageData) (sub : jsstring) :
  Forall (λ q, startsWith fullPath (Project.basePath q) = false) (projects d) →
  MemoryStorage.getEndpointByPath fullPath sub method d = None.
Proof.
  intros H. unfold MemoryStorage.getEndpointByPath.
  by apply find_first_None in H as ->.
Qed.

Lemma MemoryStorage_resolves (d : StorageData) (sub : jsstring)
    (before after : list Project.t) (p : Project.t) :
  projects d = before ++ p :: after →
  Forall (λ q, startsWith fullPath (Project.basePath q) = false) before →
  startsWith fullPath (Project.basePath p) = true →
  MemoryStorage.getEndpointByPath fullPath sub method d
  = find_first (endpoint_matches p (relative_to fullPath p) method) (endpoints d).
Proof.
  intros Hd Hbefore Hp. unfold MemoryStorage.getEndpointByPath.
  rewrite Hd, (find_first_middle _ before after p) by done. done.
Qed.

Lemma KVStorage_resolves (d : KVData) (sub : jsstring)
    (before after : list Project.t) (p : Project.t) :
  KVStorage.getProjects d = before ++ p :: after →
  Forall (λ q, startsWith fullPath (Project.basePath q) = false) before →
  startsWith fullPath (Project.basePath p) = true →
  KVStorage.getEndpointByPath fullPath sub method d
  = find_first
      (endpoint_matches p (substring (length (Project.basePath p)) fullPath ++ sub) method)
      (KVStorage.getEndpoints None d).
Proof.
  intros Hd Hbefore Hp. unfold KVStorage.getEndpointByPath.
  rewrite Hd, (find_first_middle _ before after p) by done. done.
Qed.

End Resolution.

(** C1, as stated, fails: with [/api] stored before [/api/v1], a request for
    [/api/v1/users] is resolved against [/api], whose endpoints do not
    include [/v1/users], although the longest matching base path is
    [/api/v1] and the longest-prefix rule would serve its endpoint. *)
Lemma longest_prefix_not_selected :
  find_first (λ p, startsWith (str "/api/v1/users") (Project.basePath p))
             (projects Sample.nested) = Some Sample.api
  ∧ longest_prefix_project (str "/api/v1/users") (projects Sample.nested)
    = Some Sample.api_v1
  ∧ MemoryStorage.getEndpointByPath (str "/api/v1/users") [] (str "GET") Sample.nested
    = None
  ∧ resolve_longest_prefix (str "/api/v1/users") (str "GET") Sample.nested
    = Some Sample.users.
Proof. by vm_compute. Qed.

(** C1 (amended): for every store and request path, resolution uses the
    first Project in storage order whose basePath is a string-prefix of the
    request path, whatever the lengths of the other matching basePaths; this
    holds for the in-memory store and for the key-value store. *)
Theorem first_prefix_project_selected
    (fullPath sub method : jsstring) (before after : list Project.t) (p : Project.t)
    (es : list Endpoint.t) (s : GlobalSettings) :
  Forall (λ q, startsWith fullPath (Project.basePath q) = false) before →
  startsWith fullPath (Project.basePath p) = true →
  MemoryStorage.getEndpointByPath fullPath sub method
    {| projects := before ++ p :: after; endpoints := es; settings := s |}
  = find_first (endpoint_matches p (relative_to fullPath p) method) es
  ∧ KVStorage.getEndpointByPath fullPath sub method
      {| kv_projects := Some (before ++ p :: after); kv_endpoints := Some es;
         kv_settings := Some s |}
    = find_first
        (endpoint_matches p (substring (length (Project.basePath p)) fullPath ++ sub) method)
        es.
Proof.
  intros Hbefore Hp. split.
  - exact (MemoryStorage_resolves fullPath method
             {| projects := before ++ p :: after; endpoints := es; settings := s |}
             sub before after p eq_refl Hbefore Hp).
  - exact (KVStorage_resolves fullPath method
             {| kv_projects := Some (before ++ p :: after); kv_endpoints := Some es;
                kv_settings := Some s |}
             sub before after p eq_refl Hbefore Hp).
Qed.

Lemma first_prefix_project_selected_witness :
  MemoryStorage.getEndpointByPath (str "/api/v1/users") [] (str "GET") Sample.nested
  = find_first
      (endpoint_matches Sample.api (relative_to (str "/api/v1/users") Sample.api) (str "GET"))
      [Sample.users].
Proof.
  apply (first_prefix_project_selected (str "/api/v1/users") [] (str "GET")
           [] [Sample.api_v1] Sample.api [Sample.users] DEFAULT_SETTINGS).
  - constructor.
  - reflexivity.
Defined.

(** The in-memory store does what C2 says. *)
Lemma MemoryStorage_getEndpointByPath_spec
    (fullPath sub method : jsstring) (d : StorageData) (e : Endpoint.t) :
  MemoryStorage.getEndpointByPath fullPath sub method d = Some e ↔
  ∃ p rest earlier later,
    find_first (λ p, startsWith fullPath (Project.basePath p)) (projects d) = Some p
    ∧ fullPath = Project.basePath p ++ rest
    ∧ endpoints d = earlier ++ e :: later
    ∧ Endpoint.projectId e = Project.id p
    ∧ Endpoint.path e = match rest with [] => str "/" | _ => rest end
    ∧ Endpoint.method e = method
    ∧ Endpoint.enabled e = true
    ∧ Forall (λ e', endpoint_matches p (Endpoint.path e) method e' = false) earlier.
Proof.
  unfold MemoryStorage.getEndpointByPath.
  destruct (find_first _ (projects d)) as [p|] eqn:Hp.
  - pose proof Hp as Hp'.
    apply find_first_Some in Hp' as (before & after & _ & Hpre & _).
    apply startsWith_prefix in Hpre as [rest Hrest].
    cbv zeta.
    change (or_default _ (str "/")) with (relative_to fullPath p).
    rewrite (relative_to_app _ _ rest Hrest).
    rewrite find_first_Some. split.
    + intros (earlier & later & Hes & Hm & Hearlier).
      apply endpoint_matches_spec in Hm as (? & Hpath & ? & ?).
      exists p, rest, earlier, later. rewrite Hpath. split_and!; done.
    + intros (p' & rest' & earlier & later & [= <-] & Hrest' & Hes & ? & Hpath & ? & ? & Hearlier).
      assert (rest' = rest) as -> by (rewrite Hrest in Hrest'; by apply app_inv_head in Hrest').
      exists earlier, later. rewrite <- Hpath. split_and!; [done| |done].
      apply endpoint_matches_spec. done.
  - split; [done|]. by intros (p & ? & ? & ? & [=] & _).
Qed.

(** The key-value store resolves like the in-memory store whenever
    something is left of the path after the base path. *)
Lemma KVStorage_agrees_on_nonempty_remainder
    (fullPath method : jsstring) (ps : list Project.t) (es : list Endpoint.t)
    (s : GlobalSettings) :
  (∀ p, p ∈ ps → fullPath ≠ Project.basePath p) →
  KVStorage.getEndpointByPath fullPath [] method
    {| kv_projects := Some ps; kv_endpoints := Some es; kv_settings := Some s |}
  = MemoryStorage.getEndpointByPath fullPath [] method
      {| projects := ps; endpoints := es; settings := s |}.
Proof.
  intros Hne. unfold KVStorage.getEndpointByPath, MemoryStorage.getEndpointByPath.
  unfold KVStorage.getProjects, KVStorage.getEndpoints. cbn [kv_projects kv_endpoints
    projects endpoints default from_option]. cbv zeta. unfold id.
  destruct (find_first _ ps) as [p|] eqn:Hp; [|done].
  apply find_first_Some in Hp as (before & after & -> & Hpre & _).
  apply startsWith_prefix in Hpre as [rest Hrest].
  rewrite app_nil_r. unfold or_default, substring. rewrite Hrest, drop_app_length.
  destruct rest as [|c rest]; [|done].
  exfalso. apply (Hne p); [set_solver|]. by rewrite app_nil_r in Hrest.
Qed.

(** C2 fails on the key-value store: a request whose path is exactly the
    base path leaves the empty string, which [KVStorage.getEndpointByPath]
    does not turn into [/]; the in-memory store serves the endpoint [/] for
    the same projects and endpoints. *)
Theorem KVStorage_empty_remainder_unresolved :
  KVStorage.getEndpointByPath (str "/api") [] (str "GET") Sample.kv_with_root = None
  ∧ MemoryStorage.getEndpointByPath (str "/api") [] (str "GET") Sample.with_root
    = Some Sample.root.
Proof. by vm_compute. Qed.

(** ** Deleting a project *)

Lemma first_with_id {A} (f : A → jsstring) (id : jsstring) (l : list A) :
  id ∈ f <$> l →
  ∃ before x after,
    l = before ++ x :: after ∧ f x = id ∧ Forall (λ y, f y ≠ id) before.
Proof.
  intros Hin. apply list_elem_of_fmap in Hin as (x & Hx & Hin).
  destruct (list_find_elem_of (λ y, f y = id) l x Hin (eq_sym Hx)) as [[i y] Hfind].
  apply list_find_Some in Hfind as (Hi & Hy & Hbefore).
  exists (take i l), y, (drop (S i) l). split_and!.
  - by rewrite take_drop_middle.
  - done.
  - apply Forall_lookup. intros j z Hj.
    apply lookup_take_Some in Hj as [Hj Hlt]. by apply (Hbefore j).
Qed.

Lemma deleteProject_first (id : jsstring) (before after : list Project.t) (p : Project.t)
    (es : list Endpoint.t) (s : GlobalSettings) :
  Forall (λ q, Project.id q ≠ id) before → Project.id p = id →
  MemoryStorage.deleteProject id
    {| projects := before ++ p :: after; endpoints := es; settings := s |}
  = (true, {| projects := before ++ after;
              endpoints := filter (λ e, Endpoint.projectId e ≠ id) es;
              settings := s |}).
Proof.
  intros Hbefore Hp. unfold MemoryStorage.deleteProject. cbn [projects].
  rewrite (findIndex_middle _ before after p).
  - cbn. by rewrite delete_middle.
  - eapply Forall_impl; [exact Hbefore|]. intros q Hq. by apply bool_decide_eq_false.
  - by apply bool_decide_eq_true.
Qed.

Lemma deleteProject_absent (id : jsstring) (d : StorageData) :
  id ∉ Project.id <$> projects d → MemoryStorage.deleteProject id d = (false, d).
Proof.
  intros Hnot. unfold MemoryStorage.deleteProject. rewrite findIndex_None; [done|].
  apply Forall_forall. intros q Hq. apply bool_decide_eq_false. intros Heq.
  apply Hnot. apply list_elem_of_fmap. by exists q.
Qed.

Lemma getEndpoints_after_cascade (id : jsstring) (ps : list Project.t)
    (es : list Endpoint.t) (s : GlobalSettings) :
  id ≠ [] →
  MemoryStorage.getEndpoints (Some id)
    {| projects := ps; endpoints := filter (λ e, Endpoint.projectId e ≠ id) es;
       settings := s |} = [].
Proof.
  intros Hid. destruct id as [|c id]; [done|]. unfold MemoryStorage.getEndpoints.
  cbn [endpoints]. rewrite list_filter_filter.
  induction es as [|e es IH]; [done|].
  rewrite filter_cons_False; [done|]. tauto.
Qed.

(** C8, as stated, fails for the empty id: [getEndpoints('')] applies no
    filter, so after deleting the project whose id is the empty string it
    still returns the endpoints of the other projects. *)
Lemma getEndpoints_of_empty_id_after_delete :
  [] ∈ Project.id <$> projects Sample.with_unnamed
  ∧ (MemoryStorage.deleteProject [] Sample.with_unnamed).1 = true
  ∧ MemoryStorage.getEndpoints (Some [])
      (MemoryStorage.deleteProject [] Sample.with_unnamed).2 = [Sample.users].
Proof. split; [by vm_compute_decide | by vm_compute]. Qed.

(** C8 (amended): for every store and id of a stored Project,
    [deleteProject(id)] returns true and removes exactly the Endpoints whose
    projectId equals id, so that [getEndpoints(id)] is empty afterwards when
    id is not the empty string; for an id that no Project has it returns
    false and leaves the store unchanged. *)
Theorem deleteProject_cascades (id : jsstring) (d : StorageData) :
  (id ∈ Project.id <$> projects d →
   ∃ d',
     MemoryStorage.deleteProject id d = (true, d')
     ∧ endpoints d' = filter (λ e, Endpoint.projectId e ≠ id) (endpoints d)
     ∧ (∀ e, e ∈ endpoints d' ↔ e ∈ endpoints d ∧ Endpoint.projectId e ≠ id)
     ∧ (id ≠ [] → MemoryStorage.getEndpoints (Some id) d' = [])
     ∧ settings d' = settings d)
  ∧ (id ∉ Project.id <$> projects d → MemoryStorage.deleteProject id d = (false, d)).
Proof.
  split; [|apply deleteProject_absent].
  intros Hin. destruct d as [ps es s]. cbn [projects] in Hin.
  apply first_with_id in Hin as (before & p & after & -> & Hp & Hbefore).
  eexists. split; [by apply deleteProject_first|]. cbn [endpoints settings].
  split_and!; [done| |by apply getEndpoints_after_cascade|done].
  intros e. rewrite list_elem_of_filter. tauto.
Qed.

Lemma deleteProject_cascades_witness :
  (∃ d',
     MemoryStorage.deleteProject (str "p2") Sample.nested = (true, d')
     ∧ endpoints d'
       = filter (λ e, Endpoint.projectId e ≠ str "p2") (endpoints Sample.nested)
     ∧ (∀ e, e ∈ endpoints d'
             ↔ e ∈ endpoints Sample.nested ∧ Endpoint.projectId e ≠ str "p2")
     ∧ (str "p2" ≠ [] → MemoryStorage.getEndpoints (Some (str "p2")) d' = [])
     ∧ settings d' = settings Sample.nested)
  ∧ MemoryStorage.deleteProject (str "p9") Sample.nested = (false, Sample.nested).
Proof.
  split.
  - apply (deleteProject_cascades (str "p2") Sample.nested). by vm_compute_decide.
  - apply (deleteProject_cascades (str "p9") Sample.nested). by vm_compute_decide.
Defined.

(** ** Updating a record *)

Lemma updateProject_first (now : Z) (id : jsstring) (data : ProjectPatch.t)
    (before after : list Project.t) (old : Project.t)
    (es : list Endpoint.t) (s : GlobalSettings) :
  Forall (λ q, Project.id q ≠ id) before → Project.id old = id →
  let new :=
    Project.mk id
      (default (Project.name old) (ProjectPatch.name data))
      (match ProjectPatch.description data with
       | Some t => Some t
       | None => Project.description old
       end)
      (default (Project.basePath old) (ProjectPatch.basePath data))
      (default (Project.createdAt old) (ProjectPatch.createdAt data))
      now in
  MemoryStorage.updateProject now id data
    {| projects := before ++ old :: after; endpoints := es; settings := s |}
  = (Some new, {| projects := before ++ new :: after; endpoints := es; settings := s |}).
Proof.
  intros Hbefore Hold new. unfold MemoryStorage.updateProject. cbn [projects].
  rewrite (list_find_middle _ before after old) by done.
  cbn [endpoints settings]. unfold over. fold new.
  replace (length before) with (length before + 0)%nat by lia.
  by rewrite insert_app_r.
Qed.

Lemma updateEndpoint_first (now : Z) (id : jsstring) (data : EndpointPatch.t)
    (before after : list Endpoint.t) (old : Endpoint.t)
    (ps : list Project.t) (s : GlobalSettings) :
  Forall (λ q, Endpoint.id q ≠ id) before → Endpoint.id old = id →
  let new :=
    Endpoint.mk id
      (default (Endpoint.projectId old) (EndpointPatch.projectId data))
      (default (Endpoint.path old) (EndpointPatch.path data))
      (default (Endpoint.method old) (EndpointPatch.method data))
      (default (Endpoint.response old) (EndpointPatch.response data))
      (default (Endpoint.enabled old) (EndpointPatch.enabled data))
      (default (Endpoint.createdAt old) (EndpointPatch.createdAt data))
      now in
  MemoryStorage.updateEndpoint now id data
    {| projects := ps; endpoints := before ++ old :: after; settings := s |}
  = (Some new, {| projects := ps; endpoints := before ++ new :: after; settings := s |}).
Proof.
  intros Hbefore Hold new. unfold MemoryStorage.updateEndpoint. cbn [endpoints].
  rewrite (list_find_middle _ before after old) by done.
  cbn [projects settings]. unfold over. fold new.
  replace (length before) with (length before + 0)%nat by lia.
  by rewrite insert_app_r.
Qed.




(** ** CORS *)

Lemma includes_true (l : list jsstring) (x : jsstring) : includes l x = true ↔ x ∈ l.
Proof. apply bool_decide_eq_true. Qed.

Lemma includes_false (l : list jsstring) (x : jsstring) : includes l x = false ↔ x ∉ l.
Proof. apply bool_decide_eq_false. Qed.

Lemma effective_origin_cases (req : Request.t) :
  (effective_origin req = str "*"
   ∧ (Request.origin req = None ∨ Request.origin req = Some []))
  ∨ Request.origin req = Some (effective_origin req).
Proof.
  unfold effective_origin. destruct (Request.origin req) as [[|c o]|]; simpl; auto.
Qed.

Lemma header_names_distinct :
  ACAO ≠ ACAM ∧ ACAO ≠ ACAH ∧ ACAO ≠ ACMA ∧ ACAO ≠ ACAC
  ∧ ACAC ≠ ACAM ∧ ACAC ≠ ACAH ∧ ACAC ≠ ACMA.
Proof. split_and!; by vm_compute_decide. Qed.

Lemma with_cors_headers_origin (ao ms hs ma : jsstring) (c : Context) :
  out_headers (with_cors_headers ao ms hs ma c) !! ACAO = Some ao.
Proof.
  destruct header_names_distinct as (? & ? & ? & ? & _).
  unfold with_cors_headers. cbn [out_headers].
  case_bool_decide; by simplify_map_eq.
Qed.

Lemma with_cors_headers_credentials (ao ms hs ma : jsstring) (c : Context) :
  out_headers (with_cors_headers ao ms hs ma c) !! ACAC
  = if bool_decide (ao = str "*") then out_headers c !! ACAC else Some (str "true").
Proof.
  destruct header_names_distinct as (? & ? & ? & ? & ? & ? & ?).
  unfold with_cors_headers. cbn [out_headers].
  case_bool_decide; by simplify_map_eq.
Qed.

(** Dynamic mode, unfolded: reject, or set the headers and then answer the
    preflight or hand over to [next]. *)
Lemma corsMiddleware_unfold (settings : GlobalSettings) (req : Request.t)
    (next : Handler) (c : Context) :
  corsMiddleware settings req next c
  = if includes (corsOrigins settings) (str "*")
       || includes (corsOrigins settings) (effective_origin req)
    then
      let c' :=
        with_cors_headers
          (if includes (corsOrigins settings) (str "*") then str "*"
           else effective_origin req)
          (join (str ", ") (corsMethods settings))
          (join (str ", ") (corsHeaders settings))
          (str "86400") c in
      if bool_decide (Request.method req = str "OPTIONS") then (preflight, c')
      else next c'
    else (forbidden, c).
Proof.
  unfold corsMiddleware, effective_origin.
  destruct (includes (corsOrigins settings) (str "*") || _); [|done].
  cbn [negb]. unfold mbind, Hono_bind, bind, header, when, with_cors_headers.
  cbn [out_headers log].
  destruct (bool_decide (_ = str "*")); cbn [negb];
    by destruct (bool_decide (Request.method req = _)).
Qed.

(** Static mode, unfolded. *)
Lemma staticCorsMiddleware_unfold (options : CORSOptions) (req : Request.t)
    (next : Handler) (c : Context) :
  let allowed := default [str "*"] (origins options) in
  let c' :=
    if includes allowed (str "*") || includes allowed (effective_origin req) then
      with_cors_headers
        (if includes allowed (str "*") then str "*" else effective_origin req)
        (join (str ", ")
           (default [str "GET"; str "POST"; str "PUT"; str "DELETE"; str "OPTIONS"]
                    (methods options)))
        (join (str ", ")
           (default [str "Content-Type"; str "Authorization"] (opt_headers options)))
        (String_of_Z (default 86400 (maxAge options))) c
    else c in
  staticCorsMiddleware options req next c
  = if bool_decide (Request.method req = str "OPTIONS") then (preflight, c')
    else next c'.
Proof.
  intros allowed c'. subst c'. unfold staticCorsMiddleware. fold allowed.
  unfold mbind, Hono_bind, bind, effective_origin.
  destruct (includes allowed (str "*")) eqn:Hstar; cbn [orb].
  - unfold header, when, with_cors_headers. cbn.
    by destruct (bool_decide (Request.method req = _)), c.
  - destruct (includes allowed (or_default (Request.origin req) (str "*"))) eqn:Horigin.
    + assert (∃ x o, or_default (Request.origin req) (str "*") = x :: o) as (x & o & Ho).
      { destruct (Request.origin req) as [[|x o]|]; simpl; eauto. }
      rewrite Ho. unfold header, when, with_cors_headers.
      cbn [out_headers log negb].
      unfold ret. repeat case_bool_decide; cbn [negb]; done.
    + unfold ret. cbn beta iota zeta. by destruct (bool_decide (Request.method req = _)).
Qed.

Lemma corsMiddleware_rejects (settings : GlobalSettings) (req : Request.t)
    (next : Handler) (c : Context) :
  str "*" ∉ corsOrigins settings →
  (∀ o, Request.origin req = Some o → o ∉ corsOrigins settings) →
  corsMiddleware settings req next c = (forbidden, c).
Proof.
  intros Hstar Horigin. rewrite corsMiddleware_unfold.
  apply includes_false in Hstar as Hstar'. rewrite Hstar'. cbn [orb].
  assert (includes (corsOrigins settings) (effective_origin req) = false) as ->; [|done].
  apply includes_false.
  destruct (effective_origin_cases req) as [[-> _]|Ho]; [done|by apply Horigin].
Qed.

(** C5: in dynamic mode, with the settings read from the store for this
    request, a request whose Origin is not covered (the list has neither [*]
    nor the Origin) is answered 403 and the context is left as it was:
    whatever follows the middleware, and the mock responder in both entry
    points in particular, is not run (no endpoint is resolved, no header is
    set, the answer does not depend on it). *)
Theorem dynamic_cors_rejects_uncovered_origin {St} `{!IStorage St}
    (d : St) (req : Request.t) (c : Context) :
  str "*" ∉ corsOrigins (getSettings d) →
  (∀ o, Request.origin req = Some o → o ∉ corsOrigins (getSettings d)) →
  (∀ next, corsMiddleware (getSettings d) req next c = (forbidden, c))
  ∧ nodeMockTraffic d req c = (forbidden, c)
  ∧ workerMockTraffic d req c = (forbidden, c)
  ∧ Res.status forbidden = 403.
Proof.
  intros Hstar Horigin. split_and!; [| | |done].
  - intros next. by apply corsMiddleware_rejects.
  - by apply corsMiddleware_rejects.
  - by apply corsMiddleware_rejects.
Qed.

Lemma dynamic_cors_rejects_uncovered_origin_witness :
  nodeMockTraffic (Sample.store [str "https://a.com"])
    (Sample.get "/api/v1/users" (Some "https://b.com")) fresh
  = (forbidden, fresh).
Proof.
  apply (dynamic_cors_rejects_uncovered_origin
           (Sample.store [str "https://a.com"])
           (Sample.get "/api/v1/users" (Some "https://b.com")) fresh).
  - by vm_compute_decide.
  - intros o [= <-]. by vm_compute_decide.
Defined.

(** The catch-all of the Workers entry point applies the dynamic policy
    inline and does not reject: the same request is resolved and served
    there, without CORS headers. *)
Lemma workerCatchAll_serves_uncovered_origin :
  let '(res, c) :=
    workerCatchAll (Sample.store [str "https://a.com"])
      (Sample.get "/api/v1/users" (Some "https://b.com")) fresh in
  Res.status res = 200
  ∧ log c = [Resolved (str "/api/v1/users") (str "GET") (Some Sample.users)]
  ∧ out_headers c !! ACAO = None.
Proof. by vm_compute. Qed.



(** The store of the witness has an enabled endpoint with method OPTIONS
    on the requested path; resolution would find it. *)
Lemma stored_OPTIONS_endpoint_is_shadowed :
  MemoryStorage.getEndpointByPath (str "/api/v1/users") [] (str "OPTIONS")
    (Sample.store [str "*"])
  = Some (Sample.endpoint "e2" "p2" "/users" "OPTIONS")
  ∧ nodeMockTraffic (Sample.store [str "*"])
      (Sample.options "/api/v1/users" None) fresh
    = (preflight,
       with_cors_headers (str "*") (str "GET, POST, PUT, DELETE, PATCH, OPTIONS")
         (str "Content-Type, Authorization, X-Requested-With") (str "86400") fresh).
Proof. split; [by vm_compute|]. unfold nodeMockTraffic. by rewrite corsMiddleware_unfold. Qed.

(** C7, as stated, fails when the list has both [*] and the request's
    Origin: the allowed origin is [*], not the listed Origin, and no
    credentials header is emitted. *)
Lemma wildcard_precedes_listed_origin :
  let options :=
    Build_CORSOptions (Some [str "*"; str "https://a.com"]) None None None None in
  let c :=
    (staticCorsMiddleware options (Sample.get "/api/admin/projects" (Some "https://a.com"))
       Sample.ok fresh).2 in
  str "https://a.com" ∈ [str "*"; str "https://a.com"]
  ∧ out_headers c !! ACAO = Some (str "*")
  ∧ out_headers c !! ACAC = None.
Proof.
  split_and!; [by vm_compute_decide | by vm_compute | by vm_compute].
Qed.

(** C7 (amended): in static mode, for every request, if [*] is listed the
    allowed origin is [*]; else if the request's Origin is listed the
    allowed origin is that Origin and [Access-Control-Allow-Credentials:
    true] is emitted as well; else no CORS header is emitted.  In every
    case the request goes on to the handler, unless it is a preflight,
    which is answered 204: the middleware never answers 403. *)
Theorem static_cors_decision (options : CORSOptions) (req : Request.t)
    (next : Handler) (c : Context) :
  let listed := default [str "*"] (origins options) in
  ∃ c',
    staticCorsMiddleware options req next c
    = (if bool_decide (Request.method req = str "OPTIONS") then (preflight, c')
       else next c')
    ∧ log c' = log c
    ∧ (str "*" ∈ listed →
       out_headers c' !! ACAO = Some (str "*")
       ∧ out_headers c' !! ACAC = out_headers c !! ACAC)
    ∧ (str "*" ∉ listed → effective_origin req ∈ listed →
       out_headers c' !! ACAO = Some (effective_origin req)
       ∧ out_headers c' !! ACAC = Some (str "true"))
    ∧ (str "*" ∉ listed → effective_origin req ∉ listed → c' = c).
Proof.
  intros listed. eexists. split; [apply staticCorsMiddleware_unfold|].
  fold listed. split_and!.
  - by destruct (_ || _).
  - intros Hstar. apply includes_true in Hstar. rewrite Hstar. cbn [orb].
    by rewrite with_cors_headers_origin, with_cors_headers_credentials.
  - intros Hstar Horigin. apply includes_false in Hstar. apply includes_true in Horigin.
    rewrite Hstar, Horigin. cbn [orb].
    rewrite with_cors_headers_origin, with_cors_headers_credentials.
    apply includes_false in Hstar. rewrite bool_decide_eq_false_2; [done|].
    intros Heq. apply Hstar. rewrite <- Heq. by apply includes_true.
  - intros Hstar Horigin. apply includes_false in Hstar, Horigin.
    by rewrite Hstar, Horigin.
Qed.

Lemma static_cors_decision_witness :
  let options := Build_CORSOptions (Some [str "https://a.com"]) None None None None in
  ∃ c',
    staticCorsMiddleware options (Sample.get "/api/admin/projects" (Some "https://a.com"))
      Sample.ok fresh = Sample.ok c'
    ∧ out_headers c' !! ACAO = Some (str "https://a.com")
    ∧ out_headers c' !! ACAC = Some (str "true").
Proof.
  destruct (static_cors_decision
              (Build_CORSOptions (Some [str "https://a.com"]) None None None None)
              (Sample.get "/api/admin/projects" (Some "https://a.com")) Sample.ok fresh)
    as (c' & Hrun & _ & _ & Hlisted & _).
  exists c'. split; [exact Hrun|]. apply Hlisted; by vm_compute_decide.
Defined.

(** C10: without an Origin header the dynamic middleware works with [*] as
    the origin.  If the stored list lacks [*] the request is answered 403
    and nothing after the middleware runs; if the list has [*] the request
    is not rejected, [Access-Control-Allow-Origin] is [*] and
    [Access-Control-Allow-Credentials] is not set. *)
Theorem originless_request_in_dynamic_mode (settings : GlobalSettings)
    (req : Request.t) (next : Handler) (c : Context) :
  Request.origin req = None →
  effective_origin req = str "*"
  ∧ (str "*" ∉ corsOrigins settings →
     corsMiddleware settings req next c = (forbidden, c))
  ∧ (str "*" ∈ corsOrigins settings →
     ∃ c',
       corsMiddleware settings req next c
       = (if bool_decide (Request.method req = str "OPTIONS") then (preflight, c')
          else next c')
       ∧ log c' = log c
       ∧ out_headers c' !! ACAO = Some (str "*")
       ∧ out_headers c' !! ACAC = out_headers c !! ACAC).
Proof.
  intros Hnone.
  assert (effective_origin req = str "*") as Heff.
  { unfold effective_origin. by rewrite Hnone. }
  split_and!; [done| |].
  - intros Hstar. apply corsMiddleware_rejects; [done|]. intros o. by rewrite Hnone.
  - intros Hstar. apply includes_true in Hstar. eexists. split.
    + rewrite corsMiddleware_unfold, Hstar. cbn [orb]. reflexivity.
    + by rewrite with_cors_headers_origin, with_cors_headers_credentials.
Qed.

Lemma originless_request_in_dynamic_mode_witness :
  corsMiddleware (Sample.only [str "https://a.com"]) (Sample.get "/api/v1/users" None)
    Sample.ok fresh = (forbidden, fresh)
  ∧ ∃ c',
      corsMiddleware DEFAULT_SETTINGS (Sample.get "/api/v1/users" None) Sample.ok fresh
      = Sample.ok c'
      ∧ out_headers c' !! ACAO = Some (str "*")
      ∧ out_headers c' !! ACAC = None.
Proof.
  split.
  - apply (originless_request_in_dynamic_mode (Sample.only [str "https://a.com"])
             (Sample.get "/api/v1/users" None) Sample.ok fresh eq_refl).
    by vm_compute_decide.
  - destruct (originless_request_in_dynamic_mode DEFAULT_SETTINGS
                (Sample.get "/api/v1/users" None) Sample.ok fresh eq_refl)
      as (_ & _ & Hstar).
    destruct Hstar as (c' & Hrun & _ & Horigin & Hcred); [by vm_compute_decide|].
    exists c'. split_and!; [exact Hrun|exact Horigin|exact Hcred].
Defined.

(** ** Base64 *)

Section Base64.
Import Platform.
Local Open Scope N_scope.

Lemma list_ind3 {A} (P : list A → Prop) :
  P [] → (∀ a, P [a]) → (∀ a b, P [a; b]) →
  (∀ a b c l, P l → P (a :: b :: c :: l)) →
  ∀ l, P l.
Proof.
  intros H0 H1 H2 H3 l.
  cut (P l ∧ (∀ a, P (a :: l)) ∧ (∀ a b, P (a :: b :: l))); [tauto|].
  induction l as [|x l (IH0 & IH1 & IH2)]; [by auto|].
  split_and!; [apply IH1 | intros a; apply IH2 | intros a b; by apply H3].
Qed.

(** Every six-bit group has a character, which decodes to the group and is
    neither padding, white space, a dot nor one of the two characters that
    the URL-safe variant introduces. *)
Lemma sextet_table (n : N) :
  n < 64 →
  dec_sextet (enc_sextet n) = Some n
  ∧ enc_sextet n ≠ pad
  ∧ ascii_whitespace (enc_sextet n) = false
  ∧ enc_sextet n ≠ chr "-" ∧ enc_sextet n ≠ chr "_"
  ∧ url_sextet n ≠ pad ∧ url_sextet n ≠ chr "." ∧ url_sextet n ≤ 255
  ∧ (λ c, if bool_decide (c = chr "_") then chr "/" else c)
      ((λ c, if bool_decide (c = chr "-") then chr "+" else c) (url_sextet n))
    = enc_sextet n.
Proof.
  intros Hn.
  assert (Forall (λ n,
            dec_sextet (enc_sextet n) = Some n
            ∧ enc_sextet n ≠ pad
            ∧ ascii_whitespace (enc_sextet n) = false
            ∧ enc_sextet n ≠ chr "-" ∧ enc_sextet n ≠ chr "_"
            ∧ url_sextet n ≠ pad ∧ url_sextet n ≠ chr "." ∧ url_sextet n ≤ 255
            ∧ (λ c, if bool_decide (c = chr "_") then chr "/" else c)
                ((λ c, if bool_decide (c = chr "-") then chr "+" else c) (url_sextet n))
              = enc_sextet n)
            (N.of_nat <$> seq 0 64)) as Hall.
  { by vm_compute_decide. }
  rewrite Forall_forall in Hall. apply Hall.
  apply list_elem_of_fmap. exists (N.to_nat n). split; [lia|].
  apply list_elem_of_In, in_seq. lia.
Qed.

Lemma b64_encode_sextets (l : list N) :
  ∃ k : nat,
    b64_encode l = (enc_sextet <$> sextets l) ++ replicate k pad
    ∧ ((length (sextets l) + k) mod 4 = 0)%nat
    ∧ (k ≤ 2)%nat
    ∧ (sextets l = [] → k = 0%nat).
Proof.
  induction l as [|a|a b|a b c l (k & IH & Hlen & Hk & Hnil)] using list_ind3.
  - exists 0%nat. split_and!; (reflexivity || lia || done).
  - exists 2%nat. split_and!; (reflexivity || lia || done).
  - exists 1%nat. split_and!; (reflexivity || lia || done).
  - exists k. cbn [b64_encode sextets]. rewrite IH. split_and!; [done| |done|done].
    rewrite length_app. cbn [length].
    replace (4 + length (sextets l) + k)%nat with (length (sextets l) + k + 1 * 4)%nat by lia.
    by rewrite Nat.Div0.mod_add.
Qed.

Lemma sextets_bound (l : list N) :
  Forall (λ c, c ≤ 255) l → Forall (λ n, n < 64) (sextets l).
Proof.
  induction l as [|a|a b|a b c l IH] using list_ind3; intros H.
  - constructor.
  - apply Forall_cons in H as [Ha _]. cbn.
    repeat constructor; zify; Z.to_euclidean_division_equations; lia.
  - apply Forall_cons in H as [Ha H]. apply Forall_cons in H as [Hb _]. cbn.
    repeat constructor; zify; Z.to_euclidean_division_equations; lia.
  - apply Forall_cons in H as [Ha H]. apply Forall_cons in H as [Hb H].
    apply Forall_cons in H as [Hc H]. cbn [sextets]. apply Forall_app. split; [|by apply IH].
    repeat constructor; zify; Z.to_euclidean_division_equations; lia.
Qed.

Lemma b64_decode_sextets (l : list N) :
  Forall (λ c, c ≤ 255) l → b64_decode (sextets l) = l.
Proof.
  induction l as [|a|a b|a b c l IH] using list_ind3; intros H.
  - done.
  - apply Forall_cons in H as [Ha _]. cbn. f_equal.
    zify; Z.to_euclidean_division_equations; lia.
  - apply Forall_cons in H as [Ha H]. apply Forall_cons in H as [Hb _]. cbn.
    f_equal; [|f_equal]; zify; Z.to_euclidean_division_equations; lia.
  - apply Forall_cons in H as [Ha H]. apply Forall_cons in H as [Hb H].
    apply Forall_cons in H as [Hc H]. cbn [sextets app b64_decode].
    rewrite IH by done.
    f_equal; [|f_equal; [|f_equal]]; zify; Z.to_euclidean_division_equations; lia.
Qed.

End Base64.

Section Base64Url.
Import Platform.
Local Open Scope N_scope.

Lemma latin1_forallb (s : jsstring) : latin1 s → forallb (λ c, c <=? 255) s = true.
Proof.
  unfold latin1. intros H. apply forallb_forall. intros c Hc. apply N.leb_le.
  rewrite Forall_forall in H. apply H. by apply list_elem_of_In.
Qed.

Lemma drop_pads_replicate (k : nat) (r : jsstring) :
  Token.drop_pads (replicate k pad ++ r) = Token.drop_pads r.
Proof. induction k as [|k IH]; [done|]. cbn. by rewrite bool_decide_eq_true_2. Qed.

Lemma drop_pads_no_pad (r : jsstring) :
  Forall (λ c, c ≠ pad) r → Token.drop_pads r = r.
Proof. intros [|c r' Hc _]; [done|]. cbn. by rewrite bool_decide_eq_false_2. Qed.

Lemma strip_trailing_pad_app (body : jsstring) (k : nat) :
  Forall (λ c, c ≠ pad) body →
  Token.strip_trailing_pad (body ++ replicate k pad) = body.
Proof.
  intros Hbody. unfold Token.strip_trailing_pad.
  rewrite reverse_app, reverse_replicate, drop_pads_replicate.
  rewrite drop_pads_no_pad by (by apply Forall_reverse).
  apply reverse_involutive.
Qed.

Lemma url_sextets_spec (l : list N) :
  Forall (λ n, n < 64) l →
  Forall (λ c, c ≠ pad ∧ c ≠ chr "." ∧ c ≤ 255) (url_sextet <$> l)
  ∧ Forall (λ c, c ≠ pad ∧ ascii_whitespace c = false) (enc_sextet <$> l)
  ∧ Token.replace_all (chr "_") (chr "/")
      (Token.replace_all (chr "-") (chr "+") (url_sextet <$> l)) = enc_sextet <$> l
  ∧ mapM dec_sextet (enc_sextet <$> l) = Some l.
Proof.
  induction 1 as [|n l Hn _ (IH1 & IH2 & IH3 & IH4)]; [by repeat constructor|].
  destruct (sextet_table n Hn) as (Hdec & Hpad & Hws & _ & _ & Hupad & Hdot & Hle & Hinv).
  rewrite !fmap_cons. split_and!.
  - by constructor.
  - by constructor.
  - unfold Token.replace_all in *. rewrite !fmap_cons. by f_equal.
  - cbn -[dec_sextet enc_sextet]. rewrite Hdec. cbn -[dec_sextet enc_sextet].
    by rewrite IH4.
Qed.

Lemma base64UrlEncode_latin1 (s : jsstring) :
  latin1 s → Token.base64UrlEncode s = Val (url_sextet <$> sextets s).
Proof.
  intros Hs. unfold Token.base64UrlEncode, btoa. rewrite latin1_forallb by done.
  cbn [mbind result_bind mret result_ret]. f_equal.
  destruct (b64_encode_sextets s) as (k & -> & _).
  unfold Token.replace_all. rewrite !fmap_app, !fmap_replicate, <- !list_fmap_compose.
  assert (url_sextet <$> sextets s
          = ((λ c, if bool_decide (c = chr "/") then chr "_" else c)
             ∘ (λ c, if bool_decide (c = chr "+") then chr "-" else c)
             ∘ enc_sextet) <$> sextets s) as <-.
  { apply list_fmap_ext. intros _ n _. unfold url_sextet, compose.
    repeat case_bool_decide; done. }
  change (replicate k _) with (replicate k pad).
  apply strip_trailing_pad_app.
  destruct (url_sextets_spec (sextets s) (sextets_bound s Hs)) as (H & _).
  eapply Forall_impl; [exact H|]. by intros c (? & _).
Qed.

Lemma filter_all {A} (P : A → Prop) `{!∀ x, Decision (P x)} (l : list A) :
  Forall P l → filter P l = l.
Proof.
  induction 1 as [|x l Hx _ IH]; [done|]. by rewrite filter_cons_True, IH.
Qed.

Lemma strip_padding_app (body : jsstring) (k : nat) :
  Forall (λ c, c ≠ pad) body →
  ((length body + k) mod 4 = 0)%nat → (k ≤ 2)%nat → (body = [] → k = 0%nat) →
  strip_padding (body ++ replicate k pad) = body
  ∧ (length body mod 4 ≠ 1)%nat.
Proof.
  intros Hbody Hlen Hk Hnil. split.
  2: { pose proof (Nat.div_mod_eq (length body + k) 4).
       pose proof (Nat.div_mod_eq (length body) 4).
       pose proof (Nat.mod_upper_bound (length body) 4). lia. }
  unfold strip_padding. rewrite length_app, length_replicate.
  rewrite decide_True by done.
  rewrite reverse_app, reverse_replicate.
  apply Forall_reverse in Hbody.
  destruct k as [|[|[|k]]]; [| | |lia]; cbn [replicate app].
  - rewrite app_nil_r.
    destruct (reverse body) as [|p1 [|p2 r]] eqn:Hrev; [done| |].
    + apply Forall_cons in Hbody as [Hp1 _]. by rewrite bool_decide_eq_false_2.
    + apply Forall_cons in Hbody as [Hp1 _]. by rewrite bool_decide_eq_false_2.
  - destruct (reverse body) as [|p2 r] eqn:Hrev.
    + apply (f_equal reverse) in Hrev. rewrite reverse_involutive in Hrev.
      specialize (Hnil Hrev). lia.
    + apply Forall_cons in Hbody as [Hp2 _].
      rewrite bool_decide_eq_true_2, bool_decide_eq_false_2 by done.
      by rewrite <- Hrev, reverse_involutive.
  - rewrite !bool_decide_eq_true_2 by done.
    destruct (reverse body) as [|p2 r] eqn:Hrev.
    + apply (f_equal reverse) in Hrev. rewrite reverse_involutive in Hrev.
      specialize (Hnil Hrev). lia.
    + by rewrite <- Hrev, reverse_involutive.
Qed.

Lemma base64UrlDecode_url_sextets (s : jsstring) :
  latin1 s → Token.base64UrlDecode (url_sextet <$> sextets s) = Val s.
Proof.
  intros Hs. unfold Token.base64UrlDecode.
  destruct (url_sextets_spec (sextets s) (sextets_bound s Hs)) as (_ & Henc & -> & Hdec).
  destruct (b64_encode_sextets s) as (k & _ & Hlen & Hk & Hnil).
  assert (Token.pad_to_four (enc_sextet <$> sextets s)
          = (enc_sextet <$> sextets s) ++ replicate k pad) as ->.
  { unfold Token.pad_to_four. rewrite length_fmap. do 2 f_equal.
    pose proof (Nat.div_mod_eq (length (sextets s) + k) 4).
    pose proof (Nat.div_mod_eq (length (sextets s)) 4).
    pose proof (Nat.mod_upper_bound (length (sextets s)) 4 ltac:(lia)).
    destruct (length (sextets s) mod 4)%nat as [|[|[|[|]]]]; cbn; lia. }
  unfold atob.
  assert (filter (λ c, ascii_whitespace c = false)
            ((enc_sextet <$> sextets s) ++ replicate k pad)
          = (enc_sextet <$> sextets s) ++ replicate k pad) as ->.
  { apply filter_all, Forall_app. split.
    - eapply Forall_impl; [exact Henc|]. by intros c (_ & ?).
    - by apply Forall_replicate. }
  destruct (strip_padding_app (enc_sextet <$> sextets s) k) as [-> Hmod].
  - eapply Forall_impl; [exact Henc|]. by intros c (? & _).
  - by rewrite length_fmap.
  - done.
  - intros Hempty. apply Hnil. by apply fmap_nil_inv in Hempty.
  - rewrite decide_False by done. rewrite Hdec. by rewrite b64_decode_sextets.
Qed.

(** What [base64UrlEncode] produces is free of dots and padding, and
    [base64UrlDecode] recovers the input from it. *)
Lemma base64Url_roundtrip (s : jsstring) :
  latin1 s →
  ∃ e, Token.base64UrlEncode s = Val e
       ∧ Token.base64UrlDecode e = Val s
       ∧ Forall (λ c, c ≠ chr ".") e
       ∧ latin1 e.
Proof.
  intros Hs. exists (url_sextet <$> sextets s).
  destruct (url_sextets_spec (sextets s) (sextets_bound s Hs)) as (H & _).
  split_and!.
  - by apply base64UrlEncode_latin1.
  - by apply base64UrlDecode_url_sextets.
  - eapply Forall_impl; [exact H|]. by intros c (_ & ? & _).
  - eapply Forall_impl; [exact H|]. by intros c (_ & _ & ?).
Qed.

End Base64Url.

(** ** Splitting a token at its dots *)

Section Split.

Lemma split_nonempty (sep : N) (s : jsstring) : Token.split sep s ≠ [].
Proof.
  destruct s as [|c s]; [done|]. cbn.
  case_bool_decide; [done|]. by destruct (Token.split sep s).
Qed.

Lemma split_no_sep (sep : N) (a : jsstring) :
  Forall (λ c, c ≠ sep) a → Token.split sep a = [a].
Proof.
  induction 1 as [|c a Hc _ IH]; [done|]. cbn.
  by rewrite bool_decide_eq_false_2, IH.
Qed.

Lemma split_app (sep : N) (a r : jsstring) :
  Forall (λ c, c ≠ sep) a →
  Token.split sep (a ++ sep :: r) = a :: Token.split sep r.
Proof.
  induction 1 as [|c a Hc _ IH]; cbn.
  - by rewrite bool_decide_eq_true_2.
  - by rewrite bool_decide_eq_false_2, IH.
Qed.

Lemma join_split (sep : N) (s : jsstring) : join [sep] (Token.split sep s) = s.
Proof.
  induction s as [|c s IH]; [done|]. cbn [Token.split].
  pose proof (split_nonempty sep s) as Hne.
  case_bool_decide as Hc.
  - subst c. destruct (Token.split sep s) as [|part parts]; [done|].
    change (join [sep] ([] :: part :: parts))
      with ([] ++ [sep] ++ join [sep] (part :: parts)).
    by rewrite IH.
  - destruct (Token.split sep s) as [|part parts]; [done|].
    destruct parts as [|part' parts].
    + cbn in *. by rewrite IH.
    + change (join [sep] ((c :: part) :: part' :: parts))
        with (c :: (part ++ [sep] ++ join [sep] (part' :: parts))).
      change (join [sep] (part :: part' :: parts))
        with (part ++ [sep] ++ join [sep] (part' :: parts)) in IH.
      by rewrite IH.
Qed.

Lemma split_three (h p s : jsstring) :
  Forall (λ c, c ≠ Platform.chr ".") h →
  Forall (λ c, c ≠ Platform.chr ".") p →
  Forall (λ c, c ≠ Platform.chr ".") s →
  Token.split (Platform.chr ".") (h ++ Token.dot ++ p ++ Token.dot ++ s) = [h; p; s].
Proof.
  intros Hh Hp Hs. change Token.dot with [Platform.chr "."]. cbn [app].
  by rewrite !split_app, split_no_sep.
Qed.

Lemma split_three_inv (token h p s : jsstring) :
  Token.split (Platform.chr ".") token = [h; p; s] →
  token = (h ++ Token.dot ++ p) ++ Token.dot ++ s.
Proof.
  intros H. rewrite <- (join_split (Platform.chr ".") token), H.
  cbn [join]. by rewrite <- !app_assoc.
Qed.

End Split.

(** ** Decimal numerals *)

Section Numerals.
Import Platform JSON.
Local Open Scope N_scope.

Lemma to_uint_no_leading_zero (p : positive) (u : Decimal.uint) :
  Pos.to_uint p ≠ Decimal.D0 u.
Proof.
  intros H.
  assert (Decimal.unorm (Pos.to_uint p) = Pos.to_uint p) as Hnorm.
  { rewrite <- DecimalPos.Unsigned.to_of, DecimalPos.Unsigned.of_to. done. }
  unfold Decimal.unorm in Hnorm.
  destruct (Decimal.nzhead (Pos.to_uint p)) eqn:Hhead;
    rewrite H in Hnorm; try discriminate.
  - injection Hnorm as <-. by apply (DecimalPos.Unsigned.to_uint_nonzero p).
  - by apply DecimalFacts.nzhead_nonzero in Hhead.
Qed.

Lemma take_digits_uint (d : Decimal.uint) (rest : jsstring) :
  match rest with c :: _ => is_digit c = false | [] => True end →
  take_digits (str (NilEmpty.string_of_uint d) ++ rest)
  = ((λ c, c - 48) <$> str (NilEmpty.string_of_uint d), rest).
Proof.
  intros Hrest.
  induction d; cbn [NilEmpty.string_of_uint]; rewrite ?str_String; eval_chars;
    try (cbn [app take_digits fmap list_fmap]; rewrite IHd; reflexivity).
  destruct rest as [|c rest]; [done|]. cbn. by rewrite Hrest.
Qed.

Lemma digits_value_acc (d : Decimal.uint) (acc : positive) :
  foldl (λ a x, a * 10 + x) (N.pos acc) ((λ c, c - 48) <$> str (NilEmpty.string_of_uint d))
  = N.pos (Pos.of_uint_acc d acc).
Proof.
  revert acc.
  induction d; intros acc; cbn [NilEmpty.string_of_uint]; [done|..];
    (rewrite str_String; eval_chars; cbn [fmap list_fmap foldl Pos.of_uint_acc];
     rewrite <- IHd; f_equal; lia).
Qed.

Lemma digits_value_uint (d : Decimal.uint) :
  digits_value ((λ c, c - 48) <$> str (NilEmpty.string_of_uint d)) = Pos.of_uint d.
Proof.
  unfold digits_value.
  induction d; cbn [NilEmpty.string_of_uint Pos.of_uint]; [done|..];
    rewrite str_String; eval_chars; cbn [fmap list_fmap foldl].
  - exact IHd.
  - apply (digits_value_acc d 1).
  - apply (digits_value_acc d 2).
  - apply (digits_value_acc d 3).
  - apply (digits_value_acc d 4).
  - apply (digits_value_acc d 5).
  - apply (digits_value_acc d 6).
  - apply (digits_value_acc d 7).
  - apply (digits_value_acc d 8).
  - apply (digits_value_acc d 9).
Qed.

End Numerals.

Section NumberLiterals.
Import Platform JSON.
Local Open Scope N_scope.

Lemma uint_first_digit (d : Decimal.uint) :
  d ≠ Decimal.Nil →
  ∃ x xs, str (NilEmpty.string_of_uint d) = x :: xs
          ∧ is_digit x = true
          ∧ (x = 48 → ∃ u, d = Decimal.D0 u).
Proof.
  intros Hd. destruct d; [done|..]; cbn [NilEmpty.string_of_uint]; rewrite str_String;
    eval_chars; eexists _, _; (split_and!; [reflexivity|reflexivity|]);
    intros H; try discriminate H. by eexists.
Qed.

Lemma make_number_integer (m : Z) : make_number m (0 - Z.of_nat 0) = Int m.
Proof. unfold make_number. cbn [Z.of_nat Z.sub Z.add Z.opp]. f_equal. lia. Qed.

(** A numeral without sign and without leading zero, followed by a
    character that cannot continue a number, is read as its value. *)
Lemma parse_number_uint (negative : bool) (d : Decimal.uint) (c : N) (rest : jsstring) :
  d ≠ Decimal.Nil → (∀ u, d = Decimal.D0 u → u = Decimal.Nil) →
  is_digit c = false → c ≠ chr "." → c ≠ chr "e" → c ≠ chr "E" →
  parse_number ((if negative then [chr "-"] else [])
                ++ str (NilEmpty.string_of_uint d) ++ c :: rest)
  = Some (Int (if negative then - Z.of_N (Pos.of_uint d) else Z.of_N (Pos.of_uint d))%Z,
          c :: rest).
Proof.
  intros Hd Hzero Hc Hdot He HE.
  destruct (uint_first_digit d Hd) as (x & xs & Hx & Hdigit & Hx0).
  assert ((x =? chr "-") = false) as Hminus.
  { apply N.eqb_neq. intros ->. discriminate Hdigit. }
  assert (take_digits (str (NilEmpty.string_of_uint d) ++ c :: rest)
          = ((x - 48) :: ((λ c, c - 48) <$> xs), c :: rest)) as Htake.
  { rewrite take_digits_uint by done. by rewrite Hx. }
  assert (digits_value (((x - 48) :: ((λ c, c - 48) <$> xs)) ++ []) = Pos.of_uint d)
    as Hvalue.
  { rewrite app_nil_r, <- digits_value_uint, Hx. done. }
  assert (((x - 48 =? 0) && negb (bool_decide ((λ c, c - 48) <$> xs = []))) = false)
    as Hlead.
  { destruct (x - 48 =? 0) eqn:E; [|done]. cbn [andb].
    apply N.eqb_eq in E.
    assert (x = 48) as Hx48.
    { unfold is_digit in Hdigit. apply andb_true_iff in Hdigit as [H1 H2].
      apply N.leb_le in H1. lia. }
    destruct (Hx0 Hx48) as [u ->]. rewrite (Hzero u eq_refl) in Hx.
    injection Hx as _ <-. done. }
  assert ((c =? chr ".") = false) as Hdot' by (by apply N.eqb_neq).
  assert ((c =? chr "e") = false) as He' by (by apply N.eqb_neq).
  assert ((c =? chr "E") = false) as HE' by (by apply N.eqb_neq).
  unfold parse_number. destruct negative; cbn [app].
  - rewrite N.eqb_refl, Htake, Hlead, Hdot', He', HE'. cbn [orb length].
    by rewrite Hvalue, make_number_integer.
  - rewrite Hx. cbn [app]. rewrite Hminus.
    change (x :: xs ++ c :: rest) with ((x :: xs) ++ c :: rest). rewrite <- Hx.
    rewrite Htake, Hlead, Hdot', He', HE'. cbn [orb length].
    by rewrite Hvalue, make_number_integer.
Qed.

Lemma parse_number_Z (z : Z) (c : N) (rest : jsstring) :
  is_digit c = false → c ≠ chr "." → c ≠ chr "e" → c ≠ chr "E" →
  parse_number (String_of_Z z ++ c :: rest) = Some (Int z, c :: rest).
Proof.
  intros Hc Hdot He HE. unfold String_of_Z, Z.to_int, NilZero.string_of_int.
  destruct z as [|p|p].
  - apply (parse_number_uint false (Decimal.D0 Decimal.Nil)); try done.
    by intros u [= <-].
  - pose proof (DecimalPos.Unsigned.to_uint_nonnil p) as Hnil.
    pose proof (to_uint_no_leading_zero p) as Hlead.
    replace (NilZero.string_of_uint (Pos.to_uint p))
      with (NilEmpty.string_of_uint (Pos.to_uint p)) by (by destruct (Pos.to_uint p)).
    etrans; [apply (parse_number_uint false (Pos.to_uint p) c rest); try done|].
    + intros u Hu. by apply Hlead in Hu.
    + by rewrite DecimalPos.Unsigned.of_to.
  - pose proof (DecimalPos.Unsigned.to_uint_nonnil p) as Hnil.
    pose proof (to_uint_no_leading_zero p) as Hlead.
    replace (NilZero.string_of_uint (Pos.to_uint p))
      with (NilEmpty.string_of_uint (Pos.to_uint p)) by (by destruct (Pos.to_uint p)).
    rewrite str_String.
    etrans; [apply (parse_number_uint true (Pos.to_uint p) c rest); try done|].
    + intros u Hu. by apply Hlead in Hu.
    + by rewrite DecimalPos.Unsigned.of_to.
Qed.

End NumberLiterals.

(** ** String literals *)

Section StringLiterals.
Import Platform JSON.
Local Open Scope N_scope.

Lemma hex_roundtrip (d : N) : d < 16 → hex_value (hex_digit d) = Some d.
Proof.
  intros Hd.
  assert (Forall (λ d, hex_value (hex_digit d) = Some d) (N.of_nat <$> seq 0 16)) as Hall.
  { by vm_compute_decide. }
  rewrite Forall_forall in Hall. apply Hall.
  apply list_elem_of_fmap. exists (N.to_nat d). split; [lia|].
  apply list_elem_of_In, in_seq. lia.
Qed.

Lemma parse_unicode_escape (c : N) (r : jsstring) :
  c < 65536 → parse_string_body (unicode_escape c ++ r) = then_read c r.
Proof.
  intros Hc. unfold unicode_escape, then_read. cbn [app].
  eval_chars. cbn -[hex_value hex_digit N.div N.modulo N.mul N.add].
  rewrite !hex_roundtrip by (apply N.mod_lt; lia).
  replace ((((c / 4096) mod 16 * 16 + (c / 256) mod 16) * 16 + (c / 16) mod 16) * 16
           + c mod 16) with c; [done|].
  zify. Z.to_euclidean_division_equations. lia.
Qed.

Lemma parse_plain (c : N) (r : jsstring) :
  32 ≤ c → c ≠ 34 → c ≠ 92 → parse_string_body (c :: r) = then_read c r.
Proof.
  intros H32 H34 H92. unfold then_read. cbn [parse_string_body].
  apply N.eqb_neq in H34, H92. rewrite H34, H92.
  assert ((c <? 32) = false) as -> by (apply N.ltb_ge; lia). done.
Qed.

Lemma parse_escape_unit (c : N) (r : jsstring) :
  parse_string_body (escape_unit c ++ r) = then_read c r.
Proof.
  unfold escape_unit.
  destruct (c =? 8) eqn:E8; [apply N.eqb_eq in E8 as ->; reflexivity|].
  destruct (c =? 9) eqn:E9; [apply N.eqb_eq in E9 as ->; reflexivity|].
  destruct (c =? 10) eqn:E10; [apply N.eqb_eq in E10 as ->; reflexivity|].
  destruct (c =? 12) eqn:E12; [apply N.eqb_eq in E12 as ->; reflexivity|].
  destruct (c =? 13) eqn:E13; [apply N.eqb_eq in E13 as ->; reflexivity|].
  destruct (c =? 34) eqn:E34; [apply N.eqb_eq in E34 as ->; reflexivity|].
  destruct (c =? 92) eqn:E92; [apply N.eqb_eq in E92 as ->; reflexivity|].
  destruct (c <? 32) eqn:E32.
  - apply N.ltb_lt in E32. apply parse_unicode_escape. lia.
  - apply N.ltb_ge in E32. apply N.eqb_neq in E34, E92. by apply parse_plain.
Qed.

Lemma surrogate_is_plain (c : N) :
  is_high_surrogate c || is_low_surrogate c = true →
  32 ≤ c ∧ c ≠ 34 ∧ c ≠ 92 ∧ c < 65536.
Proof.
  unfold is_high_surrogate, is_low_surrogate.
  rewrite orb_true_iff, !andb_true_iff, !N.leb_le. lia.
Qed.

(** [JSON.parse] reads back what [QuoteJSONString] writes. *)
Lemma parse_quote_body (s rest : jsstring) :
  parse_string_body (quote_body s ++ 34 :: rest) = Some (s, rest).
Proof.
  remember (length s) as n eqn:Hn. revert s Hn.
  induction n as [n IH] using lt_wf_ind. intros s Hn.
  destruct s as [|c s']; [reflexivity|].
  cbn [quote_body].
  destruct (is_high_surrogate c) eqn:Hhigh.
  - destruct (surrogate_is_plain c) as (? & ? & ? & ?); [by rewrite Hhigh|].
    destruct s' as [|d s''].
    + rewrite parse_unicode_escape by done. reflexivity.
    + destruct (is_low_surrogate d) eqn:Hlow.
      * destruct (surrogate_is_plain d) as (? & ? & ? & _); [by rewrite Hlow, orb_true_r|].
        cbn [app]. rewrite parse_plain by done. unfold then_read.
        rewrite parse_plain by done. unfold then_read.
        rewrite (IH (length s'')) by (cbn in Hn; (lia || done)). done.
      * rewrite <- app_assoc, parse_unicode_escape by done. unfold then_read.
        rewrite (IH (length (d :: s''))) by (cbn in *; (lia || done)). done.
  - destruct (is_low_surrogate c) eqn:Hlow.
    + destruct (surrogate_is_plain c) as (? & ? & ? & ?); [by rewrite Hlow, orb_true_r|].
      rewrite <- app_assoc, parse_unicode_escape by done. unfold then_read.
      rewrite (IH (length s')) by (cbn in *; (lia || done)). done.
    + rewrite <- app_assoc, parse_escape_unit. unfold then_read.
      rewrite (IH (length s')) by (cbn in *; (lia || done)). done.
Qed.

End StringLiterals.

(** ** The payload through [JSON.stringify] and [JSON.parse] *)

Section Payload.
Import Platform JSON.
Local Open Scope N_scope.

Lemma stringify_payload (sub : jsstring) (iat exp : Z) :
  stringify (Token.payload_json sub iat exp)
  = str "{" ++ quote (str "sub") ++ str ":" ++ quote sub ++ str ","
    ++ quote (str "iat") ++ str ":" ++ String_of_Z iat ++ str ","
    ++ quote (str "exp") ++ str ":" ++ String_of_Z exp ++ str "}".
Proof.
  unfold Token.payload_json. cbn [stringify join number_to_string].
  by rewrite <- !app_assoc.
Qed.

Lemma String_of_Z_first (z : Z) :
  ∃ x xs, String_of_Z z = x :: xs ∧ (x = 45 ∨ is_digit x = true).
Proof.
  unfold String_of_Z, Z.to_int, NilZero.string_of_int. destruct z as [|p|p].
  - by eexists _, _; split; [reflexivity|right].
  - pose proof (DecimalPos.Unsigned.to_uint_nonnil p) as Hnil.
    replace (NilZero.string_of_uint (Pos.to_uint p))
      with (NilEmpty.string_of_uint (Pos.to_uint p)) by (by destruct (Pos.to_uint p)).
    destruct (uint_first_digit _ Hnil) as (x & xs & -> & Hx & _). eauto.
  - rewrite str_String. eexists _, _. split; [reflexivity|by left].
Qed.

Lemma is_ws_false (c : N) : c ≠ 9 → c ≠ 10 → c ≠ 13 → c ≠ 32 → is_ws c = false.
Proof.
  intros. apply bool_decide_eq_false. rewrite !elem_of_cons, elem_of_nil. tauto.
Qed.

Lemma parse_value_number (fuel : nat) (x : N) (r : jsstring) :
  x = 45 ∨ is_digit x = true →
  parse_value (S fuel) (x :: r)
  = match parse_number (x :: r) with
    | Some (n, rest) => Some (JNum n, rest)
    | None => None
    end.
Proof.
  intros Hx.
  assert (x = 45 ∨ 48 ≤ x ≤ 57) as Hrange.
  { destruct Hx as [->|Hx]; [by left|right]. unfold is_digit in Hx.
    apply andb_true_iff in Hx as [H1 H2]. apply N.leb_le in H1, H2. lia. }
  cbn [parse_value skip_ws]. rewrite is_ws_false by lia. eval_chars.
  assert ((x =? 123) = false) as -> by (apply N.eqb_neq; lia).
  assert ((x =? 91) = false) as -> by (apply N.eqb_neq; lia).
  assert ((x =? 34) = false) as -> by (apply N.eqb_neq; lia).
  assert ((x =? 116) = false) as -> by (apply N.eqb_neq; lia).
  assert ((x =? 102) = false) as -> by (apply N.eqb_neq; lia).
  assert ((x =? 110) = false) as -> by (apply N.eqb_neq; lia).
  done.
Qed.

Lemma parse_value_integer (fuel : nat) (z : Z) (c : N) (rest : jsstring) :
  is_digit c = false → c ≠ chr "." → c ≠ chr "e" → c ≠ chr "E" →
  parse_value (S fuel) (String_of_Z z ++ c :: rest) = Some (JNum (Int z), c :: rest).
Proof.
  intros Hc Hdot He HE.
  destruct (String_of_Z_first z) as (x & xs & Hz & Hx).
  pose proof (parse_number_Z z c rest Hc Hdot He HE) as Hparse.
  rewrite Hz in *. cbn [app] in *. rewrite parse_value_number by done.
  by rewrite Hparse.
Qed.

Lemma parse_value_string (fuel : nat) (s rest : jsstring) :
  parse_value (S fuel) ([34] ++ quote_body s ++ [34] ++ rest) = Some (JStr s, rest).
Proof.
  cbn [app parse_value skip_ws]. rewrite is_ws_false by lia. eval_chars.
  cbn [N.eqb Pos.eqb]. by rewrite parse_quote_body.
Qed.

Lemma parse_value_object (fuel : nat) (rest : jsstring) :
  parse_value (S fuel) (str "{" ++ [34] ++ rest) = parse_members fuel [] ([34] ++ rest).
Proof. reflexivity. Qed.

Lemma parse_members_step (fuel : nat) (acc : list (jsstring * json))
    (k rest : jsstring) :
  parse_members (S fuel) acc ([34] ++ quote_body k ++ [34] ++ str ":" ++ rest)
  = match parse_value fuel rest with
    | None => None
    | Some (v, rest) =>
        match skip_ws rest with
        | c :: r =>
            if c =? chr "," then parse_members fuel (obj_set k v acc) r
            else if c =? chr "}" then Some (JObj (obj_set k v acc), r)
            else None
        | [] => None
        end
    end.
Proof.
  cbn [parse_members]. unfold expect at 1. cbn [app skip_ws].
  rewrite is_ws_false by lia. rewrite N.eqb_refl.
  rewrite parse_quote_body. reflexivity.
Qed.

Lemma parse_members_more (fuel : nat) (acc : list (jsstring * json))
    (k rest r : jsstring) (v : json) :
  parse_value fuel rest = Some (v, str "," ++ r) →
  parse_members (S fuel) acc ([34] ++ quote_body k ++ [34] ++ str ":" ++ rest)
  = parse_members fuel (obj_set k v acc) r.
Proof. intros H. by rewrite parse_members_step, H. Qed.

Lemma parse_members_last (fuel : nat) (acc : list (jsstring * json))
    (k rest r : jsstring) (v : json) :
  parse_value fuel rest = Some (v, str "}" ++ r) →
  parse_members (S fuel) acc ([34] ++ quote_body k ++ [34] ++ str ":" ++ rest)
  = Some (JObj (obj_set k v acc), r).
Proof. intros H. by rewrite parse_members_step, H. Qed.

Lemma parse_value_payload (fuel : nat) (sub : jsstring) (iat exp : Z) :
  (5 ≤ fuel)%nat →
  parse_value fuel (stringify (Token.payload_json sub iat exp))
  = Some (Token.payload_json sub iat exp, []).
Proof.
  intros Hfuel. rewrite stringify_payload.
  do 5 (destruct fuel as [|fuel]; [lia|]). clear Hfuel.
  unfold quote. rewrite <- !app_assoc.
  rewrite parse_value_object.
  erewrite parse_members_more; [|apply parse_value_string].
  erewrite parse_members_more; [|by apply (parse_value_integer _ iat 44)].
  erewrite parse_members_last; [|by apply (parse_value_integer _ exp 125)].
  reflexivity.
Qed.

(** [JSON.parse(JSON.stringify(payload))] is the payload. *)
Lemma parse_stringify_payload (sub : jsstring) (iat exp : Z) :
  parse (stringify (Token.payload_json sub iat exp))
  = Val (Token.payload_json sub iat exp).
Proof.
  unfold parse. rewrite parse_value_payload; [done|].
  rewrite stringify_payload, !length_app. cbn [length str fmap list_fmap
    list_ascii_of_string]. unfold quote. rewrite !length_app. cbn [length]. lia.
Qed.

End Payload.

(** ** Verifying a token *)

Section Verify.
Import Platform.
Variables (token secret : jsstring) (clock : Z).

(** When [verifyToken] returns a payload: exactly when every step of the
    [try] block went through. *)
Lemma verifyToken_Some (v : json) :
  Token.verifyToken token secret clock = Some v ↔
  ∃ h p s d e,
    Token.split (chr ".") token = [h; p; s]
    ∧ Token.sign (h ++ Token.dot ++ p) secret = Val s
    ∧ Token.base64UrlDecode p = Val d
    ∧ JSON.parse d = Val v
    ∧ Coerce.get v (str "exp") = Val e
    ∧ Coerce.lt_number e (clock / 1000) = Val false.
Proof.
  unfold Token.verifyToken, Token.verifyToken_try, try_catch.
  destruct (Token.split (chr ".") token) as [|h [|p [|s [|extra parts]]]];
    try (split; [done|by intros (? & ? & ? & ? & ? & [=] & _)]).
  unfold mbind, result_bind.
  destruct (Token.sign (h ++ Token.dot ++ p) secret) as [expected|] eqn:Hsign.
  2: { split; [done|]. intros (? & ? & ? & ? & ? & [= <- <- <-] & Hs & _).
       by rewrite Hsign in Hs. }
  case_bool_decide as Hsig.
  { split; [done|]. intros (? & ? & ? & ? & ? & [= <- <- <-] & Hs & _).
    rewrite Hsign in Hs. by injection Hs as ->. }
  subst expected.
  destruct (Token.base64UrlDecode p) as [d|] eqn:Hdecode.
  2: { split; [done|]. intros (? & ? & ? & ? & ? & [= <- <- <-] & _ & Hd & _).
       by rewrite Hdecode in Hd. }
  destruct (JSON.parse d) as [payload|] eqn:Hparse.
  2: { split; [done|]. intros (? & ? & ? & d' & ? & [= <- <- <-] & _ & Hd & Hp & _).
       rewrite Hdecode in Hd. injection Hd as <-. by rewrite Hparse in Hp. }
  destruct (Coerce.get payload (str "exp")) as [e|] eqn:Hget.
  2: { split; [done|].
       intros (? & ? & ? & d' & ? & [= <- <- <-] & _ & Hd & Hp & Hg & _).
       rewrite Hdecode in Hd. injection Hd as <-. rewrite Hparse in Hp.
       injection Hp as <-. by rewrite Hget in Hg. }
  destruct (Coerce.lt_number e (clock / 1000)) as [[|]|] eqn:Hlt.
  - split; [done|].
    intros (? & ? & ? & d' & e' & [= <- <- <-] & _ & Hd & Hp & Hg & Hl).
    rewrite Hdecode in Hd. injection Hd as <-. rewrite Hparse in Hp.
    injection Hp as <-. rewrite Hget in Hg. injection Hg as <-.
    by rewrite Hlt in Hl.
  - split.
    + intros [= <-]. by exists h, p, s, d, e.
    + intros (? & ? & ? & d' & e' & [= <- <- <-] & _ & Hd & Hp & _).
      rewrite Hdecode in Hd. injection Hd as <-. rewrite Hparse in Hp.
      by injection Hp as <-.
  - split; [done|].
    intros (? & ? & ? & d' & e' & [= <- <- <-] & _ & Hd & Hp & Hg & Hl).
    rewrite Hdecode in Hd. injection Hd as <-. rewrite Hparse in Hp.
    injection Hp as <-. rewrite Hget in Hg. injection Hg as <-.
    by rewrite Hlt in Hl.
Qed.

Lemma verifyToken_None_or_payload :
  Token.verifyToken token secret clock = None
  ∨ ∃ v, Token.verifyToken token secret clock = Some v.
Proof. destruct (Token.verifyToken token secret clock); eauto. Qed.

End Verify.


(** ** Issuing a token *)

Section Issue.
Import Platform.
Local Open Scope N_scope.

Lemma str_latin1 (s : string) : latin1 (str s).
Proof.
  induction s as [|a s IH]; [by constructor|]. rewrite str_String. constructor; [|done].
  pose proof (N_ascii_bounded a). lia.
Qed.

Lemma hex_digit_latin1 (d : N) : JSON.hex_digit d ≤ 255.
Proof.
  unfold JSON.hex_digit.
  destruct (nth_in_or_default (N.to_nat d) (str "0123456789abcdef") 0) as [Hin| ->]; [|lia].
  assert (latin1 (str "0123456789abcdef")) as Hall by apply str_latin1.
  unfold latin1 in Hall. rewrite Forall_forall in Hall. apply Hall.
  by apply list_elem_of_In.
Qed.

Lemma escape_unit_latin1 (c : N) : c ≤ 255 → latin1 (JSON.escape_unit c).
Proof.
  intros Hc. unfold JSON.escape_unit.
  destruct (c =? 8); [apply str_latin1|].
  destruct (c =? 9); [apply str_latin1|].
  destruct (c =? 10); [apply str_latin1|].
  destruct (c =? 12); [apply str_latin1|].
  destruct (c =? 13); [apply str_latin1|].
  destruct (c =? 34); [eval_chars; repeat constructor; lia|].
  destruct (c =? 92); [apply str_latin1|].
  destruct (c <? 32).
  - unfold JSON.unicode_escape. eval_chars.
    repeat constructor; try lia; apply hex_digit_latin1.
  - by repeat constructor.
Qed.

Lemma quote_body_latin1 (s : jsstring) : latin1 s → latin1 (JSON.quote_body s).
Proof.
  induction 1 as [|c s Hc Hs IH]; [constructor|]. cbn [JSON.quote_body].
  assert (is_high_surrogate c = false) as ->.
  { unfold is_high_surrogate. apply andb_false_iff. left. apply N.leb_gt. lia. }
  assert (is_low_surrogate c = false) as ->.
  { unfold is_low_surrogate. apply andb_false_iff. left. apply N.leb_gt. lia. }
  apply Forall_app. split; [by apply escape_unit_latin1|done].
Qed.

Lemma stringify_payload_latin1 (sub : jsstring) (iat exp : Z) :
  latin1 (JSON.stringify (Token.payload_json sub iat exp))
  ↔ latin1 (JSON.quote_body sub).
Proof.
  rewrite stringify_payload. unfold JSON.quote, String_of_Z, latin1.
  rewrite !Forall_app. split; [tauto|]. intros Hsub.
  split_and!;
    first [ exact Hsub
          | apply str_latin1
          | apply quote_body_latin1; apply str_latin1
          | repeat constructor; lia ].
Qed.

Lemma btoa_throws (s : jsstring) : btoa s = Throw ↔ ¬ latin1 s.
Proof.
  unfold btoa. destruct (forallb _ s) eqn:E.
  - split; [done|]. intros H. exfalso. apply H.
    rewrite forallb_forall in E. apply Forall_forall. intros c Hc.
    apply N.leb_le, E. by apply list_elem_of_In.
  - split; [|done]. intros _ H. apply latin1_forallb in H. congruence.
Qed.

Lemma sha256_latin1 (msg : list N) : latin1 (SHA256.sha256 msg).
Proof.
  unfold SHA256.sha256, latin1. apply Forall_bind, Forall_forall. intros x _.
  unfold SHA256.be_bytes. apply Forall_fmap, Forall_forall. intros i _. cbn.
  pose proof (N.mod_lt (x / 256 ^ N.of_nat i) 256). lia.
Qed.

Lemma utf8_of_code_point_nonempty (p : N) : utf8_of_code_point p ≠ [].
Proof. unfold utf8_of_code_point. by repeat destruct (_ <? _). Qed.

Lemma utf8_encode_nonempty (s : jsstring) : s ≠ [] → utf8_encode s ≠ [].
Proof.
  destruct s as [|c s]; [done|]. intros _. cbn [utf8_encode].
  pose proof utf8_of_code_point_nonempty as Hne.
  destruct (is_high_surrogate c).
  - destruct s as [|d s]; [apply Hne|].
    destruct (is_low_surrogate d); intros H; apply app_eq_nil in H as [H _];
      by apply Hne in H.
  - destruct (is_low_surrogate c); intros H; apply app_eq_nil in H as [H _];
      by apply Hne in H.
Qed.

(** With a non-empty secret [sign] returns a tag, which has no dot. *)
Lemma sign_returns (message secret : jsstring) :
  secret ≠ [] →
  ∃ tag, Token.sign message secret = Val tag ∧ Forall (λ c, c ≠ chr ".") tag.
Proof.
  intros Hsecret. unfold Token.sign, Token.importKey.
  pose proof (utf8_encode_nonempty secret Hsecret) as Hkey.
  destruct (utf8_encode secret) as [|k key] eqn:Hk; [done|].
  cbn [mbind result_bind].
  destruct (base64Url_roundtrip (SHA256.hmac (k :: key) (utf8_encode message)))
    as (tag & Htag & _ & Hdots & _); [apply sha256_latin1|]. eauto.
Qed.

(** What [createToken] returns for a subject whose JSON form is Latin-1
    and a non-empty secret: header, payload and tag, free of dots, joined
    by dots. *)
Lemma createToken_returns (sub secret : jsstring) (expiresIn : option Z) (clock : Z) :
  latin1 (JSON.quote_body sub) → secret ≠ [] →
  let now := (clock / 1000)%Z in
  let exp := (now + default 86400 expiresIn)%Z in
  ∃ h p tag,
    Token.createToken sub secret expiresIn clock
    = Val (h ++ Token.dot ++ p ++ Token.dot ++ tag)
    ∧ Token.sign (h ++ Token.dot ++ p) secret = Val tag
    ∧ Token.base64UrlDecode p = Val (JSON.stringify (Token.payload_json sub now exp))
    ∧ Forall (λ c, c ≠ chr ".") h
    ∧ Forall (λ c, c ≠ chr ".") p
    ∧ Forall (λ c, c ≠ chr ".") tag.
Proof.
  intros Hsub Hsecret now exp. unfold Token.createToken. fold now. fold exp.
  destruct (base64Url_roundtrip (JSON.stringify Token.header_json))
    as (h & Hh & _ & Hhdots & _); [apply str_latin1 || by vm_compute_decide|].
  destruct (base64Url_roundtrip (JSON.stringify (Token.payload_json sub now exp)))
    as (p & Hp & Hdecode & Hpdots & _); [by apply stringify_payload_latin1|].
  destruct (sign_returns (h ++ Token.dot ++ p) secret Hsecret) as (tag & Htag & Htdots).
  exists h, p, tag. rewrite Hh. cbn [mbind result_bind]. rewrite Hp.
  cbn [mbind result_bind]. rewrite Htag. by cbn.
Qed.

(** [createToken] throws exactly when [btoa] meets a character above
    U+00FF in the payload or [importKey] meets the empty secret. *)
Lemma createToken_throws (sub secret : jsstring) (expiresIn : option Z) (clock : Z) :
  Token.createToken sub secret expiresIn clock = Throw
  ↔ ¬ latin1 (JSON.quote_body sub) ∨ secret = [].
Proof.
  split.
  - intros Hthrow. destruct (decide (latin1 (JSON.quote_body sub))) as [Hsub|]; [|by left].
    destruct secret as [|k secret'] eqn:Hsecret; [by right|].
    destruct (createToken_returns sub (k :: secret') expiresIn clock Hsub)
      as (h & p & tag & Hcreate & _); [done|]. congruence.
  - intros Hbad. unfold Token.createToken.
    destruct (base64Url_roundtrip (JSON.stringify Token.header_json))
      as (h & -> & _); [by vm_compute_decide|]. cbn [mbind result_bind].
    destruct (decide (latin1 (JSON.quote_body sub))) as [Hsub|Hsub].
    + destruct Hbad as [Hbad|Hbad]; [done|subst secret].
      destruct (base64Url_roundtrip
                  (JSON.stringify
                     (Token.payload_json sub (clock / 1000)%Z
                        (clock / 1000 + default 86400 expiresIn)%Z)))
        as (p & -> & _); [by apply stringify_payload_latin1|]. done.
    + unfold Token.base64UrlEncode at 1.
      assert (btoa (JSON.stringify
                      (Token.payload_json sub (clock / 1000)%Z
                         (clock / 1000 + default 86400 expiresIn)%Z)) = Throw) as ->; [|done].
      apply btoa_throws. by rewrite stringify_payload_latin1.
Qed.

End Issue.

(** ** Altering one character of a token *)

Section Alter.
Import Platform.

(** One character of a dot-free part altered: the part stays dot-free and
    changes, or it falls into two dot-free parts. *)
Lemma alter_part (a : jsstring) (i : nat) (c : N) :
  dotless a → (i < length a)%nat → a !! i ≠ Some c →
  (dotless (<[i:=c]> a) ∧ <[i:=c]> a ≠ a)
  ∨ (∃ a1 a2, <[i:=c]> a = a1 ++ chr "." :: a2 ∧ dotless a1 ∧ dotless a2).
Proof.
  intros Ha Hi Hc. destruct (decide (c = chr ".")) as [->|Hdot].
  - right. exists (take i a), (drop (S i) a). split_and!.
    + by rewrite insert_take_drop.
    + by apply Forall_take.
    + by apply Forall_drop.
  - left. split; [by apply Forall_insert|].
    intros Heq. apply Hc. rewrite <- Heq. by apply list_lookup_insert_eq.
Qed.

Lemma length_split_two (a b : jsstring) :
  dotless a → dotless b → length (Token.split (chr ".") (a ++ chr "." :: b)) = 2%nat.
Proof. intros Ha Hb. by rewrite split_app, split_no_sep. Qed.

Lemma length_split_four (a b c d : jsstring) :
  dotless a → dotless b → dotless c → dotless d →
  length (Token.split (chr ".") (a ++ chr "." :: b ++ chr "." :: c ++ chr "." :: d))
  = 4%nat.
Proof. intros Ha Hb Hc Hd. by rewrite !split_app, split_no_sep. Qed.

(** The three ways in which altering one character changes a token
    [h.p.tag]: the tag changes, or the signed text [h.p] changes and the
    tag stays, or the number of parts changes. *)
Lemma altered_token_cases (h p tag : jsstring) (i : nat) (c : N) :
  dotless h → dotless p → dotless tag →
  let token := h ++ Token.dot ++ p ++ Token.dot ++ tag in
  (i < length token)%nat → token !! i ≠ Some c →
  (∃ tag', tag' ≠ tag ∧ Token.split (chr ".") (<[i:=c]> token) = [h; p; tag'])
  ∨ (∃ h' p', (i < length (h ++ Token.dot ++ p))%nat
              ∧ h' ++ Token.dot ++ p' = <[i:=c]> (h ++ Token.dot ++ p)
              ∧ h' ++ Token.dot ++ p' ≠ h ++ Token.dot ++ p
              ∧ Token.split (chr ".") (<[i:=c]> token) = [h'; p'; tag])
  ∨ length (Token.split (chr ".") (<[i:=c]> token)) ≠ 3%nat.
Proof.
  intros Hh Hp Htag token Hi Hc. subst token.
  change Token.dot with [chr "."] in *. cbn [app] in *.
  destruct (decide (i < length h)%nat) as [Hih|Hih].
  { rewrite insert_app_l by done. rewrite lookup_app_l in Hc by done.
    destruct (alter_part h i c Hh Hih Hc) as [[Hh' Hne]|(a1 & a2 & -> & Ha1 & Ha2)].
    - right; left. exists (<[i:=c]> h), p. split_and!.
      + rewrite length_app. lia.
      + by rewrite insert_app_l.
      + intros Heq. by apply app_inv_tail in Heq.
      + by rewrite !split_app, split_no_sep.
    - right; right. rewrite <- app_assoc. cbn [app].
      rewrite (length_split_four a1 a2 p tag) by done. lia. }
  rewrite insert_app_r_alt by lia. rewrite lookup_app_r in Hc by lia.
  rewrite length_app in Hi. cbn [length] in Hi. rewrite length_app in Hi. cbn [length] in Hi.
  destruct (i - length h)%nat as [|j] eqn:Hj.
  { change ((chr "." :: p ++ chr "." :: tag) !! 0%nat) with (Some (chr ".")) in Hc.
    change (<[0%nat:=c]> (chr "." :: p ++ chr "." :: tag)) with (c :: p ++ chr "." :: tag).
    assert (c ≠ chr ".") as Hdot by congruence.
    right; right.
    change (h ++ c :: p ++ chr "." :: tag) with (h ++ (c :: p) ++ chr "." :: tag).
    rewrite app_assoc, length_split_two; [lia| |done].
    apply Forall_app. split; [done|by constructor]. }
  change ((chr "." :: p ++ chr "." :: tag) !! S j) with ((p ++ chr "." :: tag) !! j) in Hc.
  change (<[S j:=c]> (chr "." :: p ++ chr "." :: tag))
    with (chr "." :: <[j:=c]> (p ++ chr "." :: tag)).
  destruct (decide (j < length p)%nat) as [Hjp|Hjp].
  { rewrite insert_app_l by done. rewrite lookup_app_l in Hc by done.
    destruct (alter_part p j c Hp Hjp Hc) as [[Hp' Hne]|(a1 & a2 & -> & Ha1 & Ha2)].
    - right; left. exists h, (<[j:=c]> p). split_and!.
      + rewrite length_app. cbn [length]. lia.
      + rewrite insert_app_r_alt by lia. by rewrite Hj.
      + intros Heq. apply app_inv_head in Heq. by injection Heq.
      + by rewrite !split_app, split_no_sep.
    - right; right. rewrite <- app_assoc. cbn [app].
      rewrite (length_split_four h a1 a2 tag) by done. lia. }
  rewrite insert_app_r_alt by lia. rewrite lookup_app_r in Hc by lia.
  destruct (j - length p)%nat as [|k] eqn:Hk.
  { change ((chr "." :: tag) !! 0%nat) with (Some (chr ".")) in Hc.
    change (<[0%nat:=c]> (chr "." :: tag)) with (c :: tag).
    assert (c ≠ chr ".") as Hdot by congruence.
    right; right.
    rewrite length_split_two; [lia|done|].
    apply Forall_app. split; [done|by constructor]. }
  change ((chr "." :: tag) !! S k) with (tag !! k) in Hc.
  change (<[S k:=c]> (chr "." :: tag)) with (chr "." :: <[k:=c]> tag).
  assert (k < length tag)%nat as Hkt by lia.
  destruct (alter_part tag k c Htag Hkt Hc) as [[Ht' Hne]|(a1 & a2 & -> & Ha1 & Ha2)].
  - left. exists (<[k:=c]> tag). split; [done|].
    by rewrite !split_app, split_no_sep.
  - right; right.
    rewrite (length_split_four h p a1 a2) by done. lia.
Qed.

End Alter.

(** ** Issue, then verify *)

Section RoundTrip.
Import Platform.

(** Verifying a well-formed token whose payload is [payload_json sub iat exp]. *)
Lemma verifyToken_issued (h p tag secret sub : jsstring) (iat exp later : Z) :
  dotless h → dotless p → dotless tag →
  Token.sign (h ++ Token.dot ++ p) secret = Val tag →
  Token.base64UrlDecode p = Val (JSON.stringify (Token.payload_json sub iat exp)) →
  Token.verifyToken (h ++ Token.dot ++ p ++ Token.dot ++ tag) secret later
  = if (exp <? later / 1000)%Z then None else Some (Token.payload_json sub iat exp).
Proof.
  intros Hh Hp Htag Hsign Hdecode.
  unfold Token.verifyToken, Token.verifyToken_try.
  rewrite split_three by done. rewrite Hsign. cbn [mbind result_bind].
  rewrite bool_decide_eq_false_2 by (by intros H; apply H).
  rewrite Hdecode. cbn [mbind result_bind].
  rewrite parse_stringify_payload. cbn [mbind result_bind].
  change (Coerce.get (Token.payload_json sub iat exp) (str "exp"))
    with (Val (Some (JNum (Int exp)))).
  cbn [mbind result_bind mret result_ret Coerce.lt_number Coerce.ToNumber
       Coerce.number_ltb try_catch].
  by destruct (exp <? later / 1000)%Z.
Qed.

End RoundTrip.




(** * Further properties of the stores *)

Lemma find_first_app {A} (f : A → bool) (l k : list A) :
  find_first f (l ++ k)
  = match find_first f l with Some x => Some x | None => find_first f k end.
Proof.
  destruct (find_first f l) as [x|] eqn:El.
  - apply find_first_Some in El as (before & after & -> & Hx & Hbefore).
    rewrite <- app_assoc. cbn [app]. by apply find_first_middle.
  - apply find_first_None in El.
    destruct (find_first f k) as [y|] eqn:Ek.
    + apply find_first_Some in Ek as (before & after & -> & Hy & Hbefore).
      rewrite app_assoc. apply find_first_middle; [|done]. by apply Forall_app.
    + apply find_first_None in Ek. apply find_first_None. by apply Forall_app.
Qed.

Lemma find_first_singleton {A} (f : A → bool) (x : A) :
  find_first f [x] = if f x then Some x else None.
Proof.
  destruct (f x) eqn:E.
  - by apply (find_first_middle f [] [] x).
  - apply find_first_None. by repeat constructor.
Qed.

(** X1: Looking up after [createProject]: every id that had a project keeps
    it; the new id, if no project had it, now has the new project, which
    carries the supplied fields and the current time as both timestamps; the
    list grows by one at its end and nothing else in the store changes. *)
Theorem createProject_then_getProject (now : Z) (id : jsstring) (data : ProjectData.t)
    (d : StorageData) :
  let new := (MemoryStorage.createProject now id data d).1 in
  let d' := (MemoryStorage.createProject now id data d).2 in
  new = Project.mk id (ProjectData.name data) (ProjectData.description data)
          (ProjectData.basePath data) now now
  ∧ MemoryStorage.getProjects d' = MemoryStorage.getProjects d ++ [new]
  ∧ endpoints d' = endpoints d
  ∧ settings d' = settings d
  ∧ ∀ id',
      MemoryStorage.getProject id' d'
      = match MemoryStorage.getProject id' d with
        | Some p => Some p
        | None => if bool_decide (id' = id) then Some new else None
        end.
Proof.
  intros new d'. split_and!; try done.
  intros id'. unfold MemoryStorage.getProject. subst d'.
  cbn [MemoryStorage.createProject snd projects].
  rewrite find_first_app, find_first_singleton. cbn [Project.id].
  destruct (find_first _ (projects d)); [done|].
  by destruct (decide (id = id')) as [->|]; repeat case_bool_decide.
Qed.

(** X2: Looking up after [createEndpoint]: by id as for projects; by project,
    the new endpoint comes last in the list of its project and in the list
    of all endpoints, and in no other project's list. *)
Theorem createEndpoint_then_getEndpoint (now : Z) (id : jsstring) (data : EndpointData.t)
    (d : StorageData) :
  let new := (MemoryStorage.createEndpoint now id data d).1 in
  let d' := (MemoryStorage.createEndpoint now id data d).2 in
  new = Endpoint.mk id (EndpointData.projectId data) (EndpointData.path data)
          (EndpointData.method data) (EndpointData.response data)
          (EndpointData.enabled data) now now
  ∧ projects d' = projects d
  ∧ settings d' = settings d
  ∧ (∀ id',
       MemoryStorage.getEndpoint id' d'
       = match MemoryStorage.getEndpoint id' d with
         | Some e => Some e
         | None => if bool_decide (id' = id) then Some new else None
         end)
  ∧ (∀ projectId,
       MemoryStorage.getEndpoints projectId d'
       = MemoryStorage.getEndpoints projectId d
         ++ if match projectId with
               | Some (c :: s) => bool_decide (EndpointData.projectId data = c :: s)
               | _ => true
               end
            then [new] else []).
Proof.
  intros new d'. split_and!; try done.
  - intros id'. unfold MemoryStorage.getEndpoint. subst d'.
    cbn [MemoryStorage.createEndpoint snd endpoints].
    rewrite find_first_app, find_first_singleton. cbn [Endpoint.id].
    destruct (find_first _ (endpoints d)); [done|].
    by destruct (decide (id = id')) as [->|]; repeat case_bool_decide.
  - intros [[|c s]|]; [done| |done]. unfold MemoryStorage.getEndpoints. subst d'.
    cbn [MemoryStorage.createEndpoint snd endpoints]. rewrite filter_app. f_equal.
    case_bool_decide as Hp.
    + by rewrite filter_cons_True.
    + by rewrite filter_cons_False.
Qed.

(** The response of [mockResponder], whatever the context. *)
Lemma mockResponder_response {St} `{!IStorage St} (d : St) (req : Request.t) (c : Context) :
  (mockResponder d req c).1
  = match getEndpointByPath (Request.path req) [] (Request.method req) d with
    | None => Res.mk 404 (Json (not_found_body (Request.method req) (Request.path req)))
    | Some e => Res.mk (status (Endpoint.response e)) (Json (body (Endpoint.response e)))
    end.
Proof.
  unfold mockResponder, mbind, Hono_bind, bind.
  destruct (emit _ c) as [[] c1].
  destruct (getEndpointByPath _ _ _ d) as [e|].
  - destruct (apply_headers _ c1) as [[] c2]. by destruct (apply_headers _ c2) as [[] c3].
  - by destruct (apply_headers _ c1) as [[] c2].
Qed.



(** ** Deleting an endpoint *)

Lemma deleteEndpoint_first (id : jsstring) (before after : list Endpoint.t) (e : Endpoint.t)
    (ps : list Project.t) (s : GlobalSettings) :
  Forall (λ q, Endpoint.id q ≠ id) before → Endpoint.id e = id →
  MemoryStorage.deleteEndpoint id
    {| projects := ps; endpoints := before ++ e :: after; settings := s |}
  = (true, {| projects := ps; endpoints := before ++ after; settings := s |}).
Proof.
  intros Hbefore He. unfold MemoryStorage.deleteEndpoint. cbn [endpoints].
  rewrite (findIndex_middle _ before after e).
  - cbn. by rewrite delete_middle.
  - eapply Forall_impl; [exact Hbefore|]. intros q Hq. by apply bool_decide_eq_false.
  - by apply bool_decide_eq_true.
Qed.

Lemma deleteEndpoint_absent (id : jsstring) (d : StorageData) :
  id ∉ Endpoint.id <$> endpoints d → MemoryStorage.deleteEndpoint id d = (false, d).
Proof.
  intros Hnot. unfold MemoryStorage.deleteEndpoint. rewrite findIndex_None; [done|].
  apply Forall_forall. intros q Hq. apply bool_decide_eq_false. intros Heq.
  apply Hnot. apply list_elem_of_fmap. by exists q.
Qed.

Lemma find_first_id_None {A} (f : A → jsstring) (id : jsstring) (l : list A) :
  find_first (λ x, bool_decide (f x = id)) l = None ↔ id ∉ f <$> l.
Proof.
  rewrite find_first_None, Forall_forall. split.
  - intros H Hin. apply list_elem_of_fmap in Hin as (x & -> & Hx).
    specialize (H x Hx). by apply bool_decide_eq_false in H.
  - intros H x Hx. apply bool_decide_eq_false. intros <-. apply H.
    apply list_elem_of_fmap. by exists x.
Qed.

(** X4: [deleteEndpoint] removes the first endpoint that has the id and
    nothing else, and reports whether there was one: [true] exactly when
    [getEndpoint] finds the id; with [false] the store is unchanged.  What
    [getEndpoint] found before is what goes. *)
Theorem deleteEndpoint_removes_first_match (id : jsstring) (d : StorageData) :
  let d' := (MemoryStorage.deleteEndpoint id d).2 in
  projects d' = projects d
  ∧ settings d' = settings d
  ∧ match MemoryStorage.getEndpoint id d with
    | Some e =>
        (MemoryStorage.deleteEndpoint id d).1 = true
        ∧ Endpoint.id e = id
        ∧ ∃ before after,
            endpoints d = before ++ e :: after
            ∧ endpoints d' = before ++ after
            ∧ Forall (λ q, Endpoint.id q ≠ id) before
    | None => MemoryStorage.deleteEndpoint id d = (false, d)
    end.
Proof.
  intros d'. subst d'. destruct d as [ps es s].
  destruct (MemoryStorage.getEndpoint id _) as [e|] eqn:Hget.
  - unfold MemoryStorage.getEndpoint in Hget. cbn [endpoints] in Hget.
    apply find_first_Some in Hget as (before & after & -> & He & Hbefore).
    apply bool_decide_eq_true in He.
    assert (Forall (λ q, Endpoint.id q ≠ id) before) as Hbefore'.
    { eapply Forall_impl; [exact Hbefore|]. intros q Hq. by apply bool_decide_eq_false in Hq. }
    rewrite (deleteEndpoint_first id before after e ps s Hbefore' He).
    split_and!; try done. by exists before, after.
  - apply find_first_id_None in Hget. by rewrite deleteEndpoint_absent.
Qed.

(** ** Updating keeps the ids *)

Lemma insert_found_keeps {A B} (f : A → B) (P : A → Prop) `{!∀ x, Decision (P x)}
    (l : list A) (i : nat) (old new : A) :
  list_find P l = Some (i, old) → f new = f old →
  f <$> <[i:=new]> l = f <$> l ∧ length (<[i:=new]> l) = length l.
Proof.
  intros Hfind Hf. apply list_find_Some in Hfind as (Hi & _ & _).
  split; [|by rewrite length_insert].
  rewrite list_fmap_insert, Hf. apply list_insert_id. by rewrite list_lookup_fmap, Hi.
Qed.

Lemma list_find_id_None {A} (f : A → jsstring) (id : jsstring) (l : list A) :
  list_find (λ x, f x = id) l = None ↔ id ∉ f <$> l.
Proof.
  rewrite list_find_None, Forall_forall. split.
  - intros H Hin. apply list_elem_of_fmap in Hin as (x & -> & Hx). by apply (H x).
  - intros H x Hx <-. apply H. apply list_elem_of_fmap. by exists x.
Qed.

Lemma updateProject_frame (now : Z) (id : jsstring) (pp : ProjectPatch.t) (d : StorageData) :
  let dp := (MemoryStorage.updateProject now id pp d).2 in
  Project.id <$> projects dp = Project.id <$> projects d
  ∧ endpoints dp = endpoints d ∧ settings dp = settings d
  ∧ ((MemoryStorage.updateProject now id pp d).1 = None ↔ id ∉ Project.id <$> projects d)
  ∧ ((MemoryStorage.updateProject now id pp d).1 = None → dp = d).
Proof.
  intros dp. subst dp. unfold MemoryStorage.updateProject.
  destruct (list_find _ (projects d)) as [[i old]|] eqn:Hfind.
  - cbn [fst snd projects endpoints settings].
    pose proof Hfind as Hfound. apply list_find_Some in Hfound as (Hi & Hid & _).
    split_and!; try done.
    + eapply insert_found_keeps; [exact Hfind|]. by cbn.
    + split; [done|]. intros Hnot. exfalso. apply Hnot.
      apply list_elem_of_fmap. exists old. split; [done|]. by eapply list_elem_of_lookup_2.
  - cbn [fst snd]. split_and!; try done. split; [|done].
    intros _. by apply list_find_id_None.
Qed.

Lemma updateEndpoint_frame (now : Z) (id : jsstring) (ep : EndpointPatch.t)
    (d : StorageData) :
  let de := (MemoryStorage.updateEndpoint now id ep d).2 in
  Endpoint.id <$> endpoints de = Endpoint.id <$> endpoints d
  ∧ projects de = projects d ∧ settings de = settings d
  ∧ ((MemoryStorage.updateEndpoint now id ep d).1 = None ↔ id ∉ Endpoint.id <$> endpoints d)
  ∧ ((MemoryStorage.updateEndpoint now id ep d).1 = None → de = d).
Proof.
  intros de. subst de. unfold MemoryStorage.updateEndpoint.
  destruct (list_find _ (endpoints d)) as [[i old]|] eqn:Hfind.
  - cbn [fst snd projects endpoints settings].
    pose proof Hfind as Hfound. apply list_find_Some in Hfound as (Hi & Hid & _).
    split_and!; try done.
    + eapply insert_found_keeps; [exact Hfind|]. by cbn.
    + split; [done|]. intros Hnot. exfalso. apply Hnot.
      apply list_elem_of_fmap. exists old. split; [done|]. by eapply list_elem_of_lookup_2.
  - cbn [fst snd]. split_and!; try done. split; [|done].
    intros _. by apply list_find_id_None.
Qed.

(** X5: [updateProject] and [updateEndpoint] return [null] exactly for an id
    that no record has, and then leave the store as it is; otherwise they
    replace one record in place: the sequence of ids, and so the number and
    the order of the records, is what it was, and the other list and the
    settings are untouched. *)
Theorem update_keeps_ids (now : Z) (id : jsstring) (pp : ProjectPatch.t)
    (ep : EndpointPatch.t) (d : StorageData) :
  let dp := (MemoryStorage.updateProject now id pp d).2 in
  let de := (MemoryStorage.updateEndpoint now id ep d).2 in
  (Project.id <$> projects dp = Project.id <$> projects d
   ∧ endpoints dp = endpoints d ∧ settings dp = settings d
   ∧ ((MemoryStorage.updateProject now id pp d).1 = None ↔ id ∉ Project.id <$> projects d)
   ∧ ((MemoryStorage.updateProject now id pp d).1 = None → dp = d))
  ∧ (Endpoint.id <$> endpoints de = Endpoint.id <$> endpoints d
     ∧ projects de = projects d ∧ settings de = settings d
     ∧ ((MemoryStorage.updateEndpoint now id ep d).1 = None
        ↔ id ∉ Endpoint.id <$> endpoints d)
     ∧ ((MemoryStorage.updateEndpoint now id ep d).1 = None → de = d)).
Proof. split; [apply updateProject_frame|apply updateEndpoint_frame]. Qed.

(** ** Deleting the endpoints of a project *)

Lemma length_filter_complement {A} (P : A → Prop) `{!∀ x, Decision (P x)} (l : list A) :
  (length (filter P l) + length (filter (λ x, ¬ P x) l) = length l)%nat.
Proof.
  induction l as [|x l IH]; [done|].
  destruct (decide (P x)).
  - rewrite filter_cons_True, (filter_cons_False (λ x, ¬ P x)) by tauto. cbn. lia.
  - rewrite filter_cons_False, (filter_cons_True (λ x, ¬ P x)) by tauto. cbn. lia.
Qed.

(** X6: [deleteEndpointsByProject] returns how many endpoints the project had,
    removes those and keeps the others in their order; run again, it
    returns 0 and changes nothing. *)
Theorem deleteEndpointsByProject_counts (projectId : jsstring) (d : StorageData) :
  let n := (MemoryStorage.deleteEndpointsByProject projectId d).1 in
  let d' := (MemoryStorage.deleteEndpointsByProject projectId d).2 in
  n = length (filter (λ e, Endpoint.projectId e = projectId) (endpoints d))
  ∧ (n + length (endpoints d') = length (endpoints d))%nat
  ∧ endpoints d' = filter (λ e, Endpoint.projectId e ≠ projectId) (endpoints d)
  ∧ projects d' = projects d ∧ settings d' = settings d
  ∧ MemoryStorage.deleteEndpointsByProject projectId d' = (0%nat, d').
Proof.
  intros n d'. subst n d'. unfold MemoryStorage.deleteEndpointsByProject.
  cbn [fst snd endpoints projects settings].
  pose proof (length_filter_complement (λ e, Endpoint.projectId e = projectId) (endpoints d))
    as Hlen.
  split_and!; try done; try lia.
  rewrite list_filter_filter.
  assert (filter (λ e, Endpoint.projectId e ≠ projectId ∧ Endpoint.projectId e ≠ projectId)
            (endpoints d)
          = filter (λ e, Endpoint.projectId e ≠ projectId) (endpoints d)) as ->.
  { apply list_filter_iff. tauto. }
  by rewrite Nat.sub_diag.
Qed.

(** ** What is served after a change *)

Lemma deleteProject_endpoints (id : jsstring) (d : StorageData) :
  (MemoryStorage.deleteProject id d).1 = true →
  endpoints (MemoryStorage.deleteProject id d).2
  = filter (λ e, Endpoint.projectId e ≠ id) (endpoints d).
Proof.
  intros Htrue. destruct (decide (id ∈ Project.id <$> projects d)) as [Hin|Hnot].
  - destruct d as [ps es s]. cbn [projects] in Hin.
    apply first_with_id in Hin as (before & p & after & -> & Hp & Hbefore).
    by rewrite deleteProject_first.
  - by rewrite deleteProject_absent in Htrue.
Qed.

Lemma getEndpointByPath_stored (fullPath sub method : jsstring) (d : StorageData)
    (e : Endpoint.t) :
  MemoryStorage.getEndpointByPath fullPath sub method d = Some e →
  e ∈ endpoints d ∧ Endpoint.enabled e = true.
Proof.
  unfold MemoryStorage.getEndpointByPath.
  destruct (find_first _ (projects d)) as [p|]; [|done]. cbv zeta.
  intros Hfound. apply find_first_Some in Hfound as (before & after & -> & Hm & _).
  apply endpoint_matches_spec in Hm as (_ & _ & _ & Henabled).
  split; [|done]. apply elem_of_app. right. by left.
Qed.

(** X7: Once [deleteProject] has returned [true] for an id, no request is
    answered by an endpoint of that project, whatever the path and the
    method, and whether or not another project has the same id. *)
Theorem deleted_project_is_not_served (id : jsstring) (d : StorageData)
    (fullPath sub method : jsstring) (e : Endpoint.t) :
  (MemoryStorage.deleteProject id d).1 = true →
  MemoryStorage.getEndpointByPath fullPath sub method (MemoryStorage.deleteProject id d).2
  = Some e →
  Endpoint.projectId e ≠ id ∧ e ∈ endpoints d.
Proof.
  intros Htrue Hserved. apply getEndpointByPath_stored in Hserved as [Hin _].
  rewrite (deleteProject_endpoints id d Htrue) in Hin.
  apply list_elem_of_filter in Hin. tauto.
Qed.

Lemma deleted_project_is_not_served_witness :
  Endpoint.projectId Sample.root ≠ str "p2" ∧ Sample.root ∈ [Sample.root; Sample.users].
Proof.
  apply (deleted_project_is_not_served (str "p2")
           {| projects := [Sample.api_v1; Sample.api];
              endpoints := [Sample.root; Sample.users];
              settings := DEFAULT_SETTINGS |}
           (str "/api") [] (str "GET") Sample.root); reflexivity.
Defined.

(** X8: With ids that are unique, an endpoint that [updateEndpoint] has
    disabled answers no request. *)
Theorem disabled_endpoint_is_not_served (now : Z) (id : jsstring) (patch : EndpointPatch.t)
    (d : StorageData) (fullPath sub method : jsstring) (e : Endpoint.t) :
  NoDup (Endpoint.id <$> endpoints d) →
  EndpointPatch.enabled patch = Some false →
  MemoryStorage.getEndpointByPath fullPath sub method
    (MemoryStorage.updateEndpoint now id patch d).2 = Some e →
  Endpoint.id e ≠ id.
Proof.
  intros Hnodup Hpatch Hserved.
  apply getEndpointByPath_stored in Hserved as [Hin Henabled].
  unfold MemoryStorage.updateEndpoint in Hin.
  destruct (list_find _ (endpoints d)) as [[i old]|] eqn:Hfind.
  - cbn [snd endpoints] in Hin.
    apply list_find_Some in Hfind as (Hi & Hold & _).
    apply list_elem_of_lookup in Hin as [j Hj].
    destruct (decide (j = i)) as [->|Hne].
    + rewrite list_lookup_insert_eq in Hj by (by eapply lookup_lt_Some).
      injection Hj as <-. cbn in Henabled. rewrite Hpatch in Henabled. done.
    + rewrite list_lookup_insert_ne in Hj by done.
      intros Heq. apply Hne.
      eapply (NoDup_lookup _ j i id Hnodup); rewrite list_lookup_fmap.
      * by rewrite Hj; cbn; rewrite Heq.
      * by rewrite Hi; cbn; rewrite Hold.
  - cbn [snd] in Hin. intros Heq.
    apply list_find_id_None in Hfind. apply Hfind.
    apply list_elem_of_fmap. by exists e.
Qed.

Lemma disabled_endpoint_is_not_served_witness :
  Endpoint.id Sample.users ≠ str "e2".
Proof.
  apply (disabled_endpoint_is_not_served 300 (str "e2")
           (EndpointPatch.mk None None None None None (Some false) None None)
           (Sample.store [str "*"]) (str "/api/v1/users") [] (str "GET") Sample.users).
  - by vm_compute_decide.
  - reflexivity.
  - reflexivity.
Defined.

(** ** Unique ids *)

Lemma NoDup_fmap_delete {A B} (f : A → B) (l : list A) (i : nat) :
  NoDup (f <$> l) → NoDup (f <$> delete i l).
Proof.
  intros H. eapply sublist_NoDup; [exact H|apply fmap_sublist, sublist_delete].
Qed.

Lemma NoDup_fmap_filter {A B} (f : A → B) (P : A → Prop) `{!∀ x, Decision (P x)}
    (l : list A) :
  NoDup (f <$> l) → NoDup (f <$> filter P l).
Proof.
  intros Hl. eapply sublist_NoDup; [exact Hl|apply fmap_sublist, sublist_filter].
Qed.

(** X9: If no two projects share an id and no two endpoints share an id, this
    is still so after every operation of the store, provided the id handed
    to [createProject] or [createEndpoint] is not in use. *)
Theorem unique_ids_are_kept (d : StorageData) :
  NoDup (Project.id <$> projects d) → NoDup (Endpoint.id <$> endpoints d) →
  let unique (d' : StorageData) :=
    NoDup (Project.id <$> projects d') ∧ NoDup (Endpoint.id <$> endpoints d') in
  (∀ now id data, id ∉ Project.id <$> projects d →
                  unique (MemoryStorage.createProject now id data d).2)
  ∧ (∀ now id data, id ∉ Endpoint.id <$> endpoints d →
                    unique (MemoryStorage.createEndpoint now id data d).2)
  ∧ (∀ now id patch, unique (MemoryStorage.updateProject now id patch d).2)
  ∧ (∀ now id patch, unique (MemoryStorage.updateEndpoint now id patch d).2)
  ∧ (∀ id, unique (MemoryStorage.deleteProject id d).2)
  ∧ (∀ id, unique (MemoryStorage.deleteEndpoint id d).2)
  ∧ (∀ projectId, unique (MemoryStorage.deleteEndpointsByProject projectId d).2)
  ∧ (∀ patch, unique (MemoryStorage.updateSettings patch d).2).
Proof.
  intros Hps Hes unique. subst unique. cbv beta. split_and!.
  - intros now id data Hfresh. cbn. rewrite fmap_app. cbn. split; [|done].
    apply NoDup_app. split_and!; [done| |by apply NoDup_singleton].
    intros x Hx Hx'. apply list_elem_of_singleton in Hx' as ->. done.
  - intros now id data Hfresh. cbn. rewrite fmap_app. cbn. split; [done|].
    apply NoDup_app. split_and!; [done| |by apply NoDup_singleton].
    intros x Hx Hx'. apply list_elem_of_singleton in Hx' as ->. done.
  - intros now id patch.
    destruct (updateProject_frame now id patch d) as (-> & -> & _). done.
  - intros now id patch.
    destruct (updateEndpoint_frame now id patch d) as (-> & -> & _). done.
  - intros id. unfold MemoryStorage.deleteProject.
    destruct (findIndex _ (projects d)) as [i|]; [|done].
    cbn. split; [by apply NoDup_fmap_delete|by apply NoDup_fmap_filter].
  - intros id. unfold MemoryStorage.deleteEndpoint.
    destruct (findIndex _ (endpoints d)) as [i|]; [|done].
    cbn. split; [done|by apply NoDup_fmap_delete].
  - intros projectId. cbn. split; [done|by apply NoDup_fmap_filter].
  - intros patch. done.
Qed.

Lemma unique_ids_are_kept_witness :
  NoDup (Project.id <$> projects (MemoryStorage.deleteProject (str "p1") Sample.nested).2)
  ∧ NoDup (Endpoint.id <$> endpoints (MemoryStorage.deleteProject (str "p1") Sample.nested).2).
Proof.
  destruct (unique_ids_are_kept Sample.nested) as (_ & _ & _ & _ & Hdelete & _).
  - by vm_compute_decide.
  - by vm_compute_decide.
  - exact (Hdelete (str "p1")).
Defined.

(** ** Settings *)

(** X10: A change of the allowed origins made with [updateSettings] governs the
    next request: the settings returned are the settings stored, and mock
    traffic of the Node entry point is then judged by the new list, rejected
    with 403 when the list covers neither [*] nor the origin, and given the
    CORS headers for the new list otherwise.  A patch without [corsOrigins]
    leaves the list as it was; projects and endpoints are untouched. *)
Theorem updateSettings_governs_cors (patch : SettingsPatch.t) (d : StorageData)
    (req : Request.t) (c : Context) :
  let updated := (MemoryStorage.updateSettings patch d).1 in
  let d' := (MemoryStorage.updateSettings patch d).2 in
  let listed := default (corsOrigins (settings d)) (SettingsPatch.corsOrigins patch) in
  MemoryStorage.getSettings d' = updated
  ∧ corsOrigins updated = listed
  ∧ projects d' = projects d ∧ endpoints d' = endpoints d
  ∧ MemoryStorage.updateSettings patch d' = (updated, d')
  ∧ (str "*" ∉ listed → effective_origin req ∉ listed →
     nodeMockTraffic d' req c = (forbidden, c))
  ∧ (str "*" ∈ listed ∨ effective_origin req ∈ listed →
     ∃ c',
       nodeMockTraffic d' req c
       = (if bool_decide (Request.method req = str "OPTIONS") then (preflight, c')
          else nodeCatchAll d' req c')
       ∧ out_headers c' !! ACAO
         = Some (if bool_decide (str "*" ∈ listed) then str "*" else effective_origin req)).
Proof.
  intros updated d' listed.
  assert (corsOrigins (getSettings d') = listed) as Hlisted by done.
  split_and!; try done.
  - subst updated d'. unfold MemoryStorage.updateSettings, merge_settings, over.
    cbn [fst snd settings projects endpoints corsOrigins corsHeaders corsMethods
         defaultHeaders authEnabled].
    by destruct patch as [[?|] [?|] [?|] [?|] [?|]].
  - intros Hstar Horigin. unfold nodeMockTraffic. rewrite corsMiddleware_unfold, Hlisted.
    apply includes_false in Hstar, Horigin. by rewrite Hstar, Horigin.
  - intros Hcovered. eexists. unfold nodeMockTraffic.
    rewrite corsMiddleware_unfold, Hlisted.
    assert (includes listed (str "*") || includes listed (effective_origin req) = true)
      as ->.
    { apply orb_true_iff. by rewrite !includes_true. }
    split; [reflexivity|]. apply with_cors_headers_origin.
Qed.

Lemma updateSettings_governs_cors_witness :
  nodeMockTraffic
    (MemoryStorage.updateSettings
       (SettingsPatch.mk (Some [str "https://a.com"]) None None None None)
       (Sample.store [str "*"])).2
    (Sample.get "/api/v1/users" (Some "https://b.com")) fresh
  = (forbidden, fresh).
Proof.
  destruct (updateSettings_governs_cors
              (SettingsPatch.mk (Some [str "https://a.com"]) None None None None)
              (Sample.store [str "*"])
              (Sample.get "/api/v1/users" (Some "https://b.com")) fresh)
    as (_ & _ & _ & _ & _ & Hrejects & _).
  apply Hrejects; by vm_compute_decide.
Defined.

(** * The key-value store against the in-memory store *)

Lemma length_filter_all {A} (P : A → Prop) `{!∀ x, Decision (P x)} (l : list A) :
  length (filter P l) = length l ↔ Forall P l.
Proof.
  split; [|by intros Hall; rewrite filter_all].
  induction l as [|x l IH]; [by constructor|].
  destruct (decide (P x)).
  - rewrite filter_cons_True by done. cbn. intros [= Hlen]. constructor; auto.
  - rewrite filter_cons_False by done. cbn. intros Hlen.
    pose proof (length_filter P l). lia.
Qed.

Lemma filter_unique {A} (f : A → jsstring) (id : jsstring) (before after : list A) (x : A) :
  NoDup (f <$> (before ++ x :: after)) → f x = id →
  filter (λ y, f y ≠ id) (before ++ x :: after) = before ++ after
  ∧ Forall (λ y, f y ≠ id) before.
Proof.
  intros Hnodup Hx. rewrite fmap_app, fmap_cons in Hnodup.
  apply NoDup_app in Hnodup as (_ & Hdisjoint & Hrest).
  apply NoDup_cons in Hrest as [Hafter _].
  assert (Forall (λ y, f y ≠ id) before) as Hbefore.
  { apply Forall_forall. intros y Hy Heq. apply (Hdisjoint (f y)).
    - apply list_elem_of_fmap. by exists y.
    - rewrite Heq, <- Hx. by left. }
  assert (Forall (λ y, f y ≠ id) after) as Hafter'.
  { apply Forall_forall. intros y Hy Heq. apply Hafter. rewrite Hx, <- Heq.
    apply list_elem_of_fmap. by exists y. }
  split; [|done].
  rewrite filter_app, filter_cons_False by (by intros H; apply H).
  by rewrite !filter_all.
Qed.

(** X11: The key-value store is the in-memory store behind another
    representation: reading goes through [contents], and every reading and
    every writing method other than the two deletions by id and
    [getEndpointByPath] gives the result of the in-memory method on the
    contents and leaves the contents that the in-memory method leaves.
    [initialize] does not change the contents. *)
Theorem KVStorage_simulates_MemoryStorage (d : KVData) :
  let m := KVStorage.contents d in
  let same {A} (kv : A * KVData) (mem : A * StorageData) :=
    kv.1 = mem.1 ∧ KVStorage.contents kv.2 = mem.2 in
  (∀ id, KVStorage.getProject id d = MemoryStorage.getProject id m)
  ∧ (∀ id, KVStorage.getEndpoint id d = MemoryStorage.getEndpoint id m)
  ∧ (∀ projectId, KVStorage.getEndpoints projectId d = MemoryStorage.getEndpoints projectId m)
  ∧ KVStorage.getSettings d = MemoryStorage.getSettings m
  ∧ (∀ now id data,
       same (KVStorage.createProject now id data d) (MemoryStorage.createProject now id data m))
  ∧ (∀ now id data,
       same (KVStorage.createEndpoint now id data d)
            (MemoryStorage.createEndpoint now id data m))
  ∧ (∀ now id patch,
       same (KVStorage.updateProject now id patch d)
            (MemoryStorage.updateProject now id patch m))
  ∧ (∀ now id patch,
       same (KVStorage.updateEndpoint now id patch d)
            (MemoryStorage.updateEndpoint now id patch m))
  ∧ (∀ projectId,
       same (KVStorage.deleteEndpointsByProject projectId d)
            (MemoryStorage.deleteEndpointsByProject projectId m))
  ∧ (∀ patch,
       same (KVStorage.updateSettings patch d) (MemoryStorage.updateSettings patch m))
  ∧ KVStorage.contents (KVStorage.initialize d) = m.
Proof.
  intros m same. subst m same. cbv beta. destruct d as [ps es s].
  split_and!; try done.
  - intros now id patch. unfold KVStorage.updateProject, MemoryStorage.updateProject.
    cbn [KVStorage.contents projects KVStorage.getProjects kv_projects].
    by match goal with
       | |- context [list_find ?P ?l] => destruct (list_find P l) as [[i old]|]
       end.
  - intros now id patch. unfold KVStorage.updateEndpoint, MemoryStorage.updateEndpoint.
    cbn [KVStorage.contents endpoints KVStorage.getEndpoints kv_endpoints].
    by match goal with
       | |- context [list_find ?P ?l] => destruct (list_find P l) as [[i old]|]
       end.
  - by destruct s.
Qed.

(** X12: When no two projects share an id and no two endpoints share an id,
    [deleteProject] and [deleteEndpoint] of the key-value store return what
    those of the in-memory store return on the same contents, and leave the
    same contents. *)
Theorem KVStorage_deletes_like_MemoryStorage (d : KVData) (id : jsstring) :
  NoDup (Project.id <$> KVStorage.getProjects d) →
  NoDup (Endpoint.id <$> KVStorage.getEndpoints None d) →
  let m := KVStorage.contents d in
  ((KVStorage.deleteProject id d).1 = (MemoryStorage.deleteProject id m).1
   ∧ KVStorage.contents (KVStorage.deleteProject id d).2 = (MemoryStorage.deleteProject id m).2)
  ∧ ((KVStorage.deleteEndpoint id d).1 = (MemoryStorage.deleteEndpoint id m).1
     ∧ KVStorage.contents (KVStorage.deleteEndpoint id d).2
       = (MemoryStorage.deleteEndpoint id m).2).
Proof.
  destruct d as [ps es s]. unfold KVStorage.getProjects, KVStorage.getEndpoints.
  cbn [kv_projects kv_endpoints]. intros Hps Hes. cbv zeta. split.
  - unfold KVStorage.deleteProject, KVStorage.getProjects. cbn [kv_projects].
    destruct (decide (id ∈ Project.id <$> default [] ps)) as [Hin|Hnot].
    + apply first_with_id in Hin as (before & p & after & Heq & Hp & _).
      rewrite Heq in Hps. destruct (filter_unique _ id before after p Hps Hp) as [Hf Hbefore].
      rewrite Heq, Hf. rewrite decide_False by (rewrite !length_app; cbn; lia).
      change (KVStorage.contents {| kv_projects := ps; kv_endpoints := es; kv_settings := s |})
        with {| projects := default [] ps; endpoints := default [] es;
                settings := default DEFAULT_SETTINGS s |}.
      rewrite Heq, deleteProject_first by done. done.
    + rewrite (deleteProject_absent id (KVStorage.contents _)) by done.
      rewrite decide_True; [done|]. apply length_filter_all, Forall_forall.
      intros p Hp Heq. apply Hnot. apply list_elem_of_fmap. by exists p.
  - unfold KVStorage.deleteEndpoint, KVStorage.getEndpoints. cbn [kv_endpoints].
    destruct (decide (id ∈ Endpoint.id <$> default [] es)) as [Hin|Hnot].
    + apply first_with_id in Hin as (before & e & after & Heq & He & _).
      rewrite Heq in Hes. destruct (filter_unique _ id before after e Hes He) as [Hf Hbefore].
      rewrite Heq, Hf. rewrite decide_False by (rewrite !length_app; cbn; lia).
      change (KVStorage.contents {| kv_projects := ps; kv_endpoints := es; kv_settings := s |})
        with {| projects := default [] ps; endpoints := default [] es;
                settings := default DEFAULT_SETTINGS s |}.
      rewrite Heq, deleteEndpoint_first by done. done.
    + rewrite (deleteEndpoint_absent id (KVStorage.contents _)) by done.
      rewrite decide_True; [done|]. apply length_filter_all, Forall_forall.
      intros e He Heq. apply Hnot. apply list_elem_of_fmap. by exists e.
Qed.

Lemma KVStorage_deletes_like_MemoryStorage_witness :
  (KVStorage.deleteProject (str "p1") Sample.kv_with_root).1
  = (MemoryStorage.deleteProject (str "p1") (KVStorage.contents Sample.kv_with_root)).1
  ∧ KVStorage.contents (KVStorage.deleteProject (str "p1") Sample.kv_with_root).2
    = (MemoryStorage.deleteProject (str "p1") (KVStorage.contents Sample.kv_with_root)).2.
Proof.
  destruct (KVStorage_deletes_like_MemoryStorage Sample.kv_with_root (str "p1"))
    as [Hproject _].
  - by vm_compute_decide.
  - by vm_compute_decide.
  - exact Hproject.
Defined.

Lemma filter_id_spec {A} (f : A → jsstring) (id : jsstring) (l : list A) :
  (length (filter (λ x, f x ≠ id) l) = length l ↔ id ∉ f <$> l)
  ∧ find_first (λ x, bool_decide (f x = id)) (filter (λ x, f x ≠ id) l) = None.
Proof.
  split.
  - rewrite length_filter_all, Forall_forall. split.
    + intros H Hin. apply list_elem_of_fmap in Hin as (x & -> & Hx). by apply (H x).
    + intros H x Hx Heq. apply H. apply list_elem_of_fmap. by exists x.
  - apply find_first_id_None. intros Hin.
    apply list_elem_of_fmap in Hin as (x & -> & Hx).
    apply list_elem_of_filter in Hx as [Hx _]. done.
Qed.

(** X13: In the key-value store a deletion by id removes every record that has
    the id, not only the first: it returns [true] exactly when there was
    one, afterwards [getProject] (or [getEndpoint]) finds nothing under the
    id, the other records keep their order, and deleting a project removes
    the endpoints of that id as well; with [false] nothing is written. *)
Theorem KVStorage_delete_removes_every_match (id : jsstring) (d : KVData) :
  let dp := KVStorage.deleteProject id d in
  let de := KVStorage.deleteEndpoint id d in
  (dp.1 = bool_decide (id ∈ Project.id <$> KVStorage.getProjects d)
   ∧ KVStorage.getProjects dp.2
     = filter (λ p, Project.id p ≠ id) (KVStorage.getProjects d)
   ∧ KVStorage.getProject id dp.2 = None
   ∧ KVStorage.getEndpoints None dp.2
     = (if dp.1 then filter (λ e, Endpoint.projectId e ≠ id) (KVStorage.getEndpoints None d)
        else KVStorage.getEndpoints None d)
   ∧ (if dp.1 then True else dp.2 = d))
  ∧ (de.1 = bool_decide (id ∈ Endpoint.id <$> KVStorage.getEndpoints None d)
     ∧ KVStorage.getEndpoints None de.2
       = filter (λ e, Endpoint.id e ≠ id) (KVStorage.getEndpoints None d)
     ∧ KVStorage.getEndpoint id de.2 = None
     ∧ KVStorage.getProjects de.2 = KVStorage.getProjects d
     ∧ (if de.1 then True else de.2 = d)).
Proof.
  intros dp de. subst dp de. split.
  - unfold KVStorage.deleteProject, KVStorage.getProject.
    destruct (filter_id_spec Project.id id (KVStorage.getProjects d)) as [Hlen Hfind].
    destruct (decide (length _ = length _)) as [Heq|Hne].
    + cbn [fst snd]. pose proof (proj1 Hlen Heq) as Hnot.
      rewrite bool_decide_eq_false_2 by done.
      assert (filter (λ p, Project.id p ≠ id) (KVStorage.getProjects d)
              = KVStorage.getProjects d) as Hsame.
      { apply filter_all. exact (proj1 (length_filter_all _ _) Heq). }
      rewrite Hsame in *. done.
    + cbn [fst snd]. rewrite bool_decide_eq_true_2; [done|].
      apply dec_stable. intros Hnot. by apply Hne, Hlen.
  - unfold KVStorage.deleteEndpoint, KVStorage.getEndpoint.
    destruct (filter_id_spec Endpoint.id id (KVStorage.getEndpoints None d)) as [Hlen Hfind].
    destruct (decide (length _ = length _)) as [Heq|Hne].
    + cbn [fst snd]. pose proof (proj1 Hlen Heq) as Hnot.
      rewrite bool_decide_eq_false_2 by done.
      assert (filter (λ e, Endpoint.id e ≠ id) (KVStorage.getEndpoints None d)
              = KVStorage.getEndpoints None d) as Hsame.
      { apply filter_all. exact (proj1 (length_filter_all _ _) Heq). }
      rewrite Hsame in *. done.
    + cbn [fst snd]. rewrite bool_decide_eq_true_2; [done|].
      apply dec_stable. intros Hnot. by apply Hne, Hlen.
Qed.

(** * Further properties of the token helpers *)

Section TokenShape.
Import Platform.
Local Open Scope N_scope.

Lemma url_sextet_safe (n : N) : n < 64 → url_safe (url_sextet n).
Proof.
  intros Hn.
  assert (Forall (λ n, url_safe (url_sextet n)) (N.of_nat <$> seq 0 64)) as Hall.
  { by vm_compute_decide. }
  rewrite Forall_forall in Hall. apply Hall.
  apply list_elem_of_fmap. exists (N.to_nat n). split; [lia|].
  apply list_elem_of_In, in_seq. lia.
Qed.

Lemma length_sextets (l : list N) : length (sextets l) = ((4 * length l + 2) / 3)%nat.
Proof.
  induction l as [|a|a b|a b c l IH] using list_ind3; [done..|].
  cbn [sextets length app]. rewrite IH.
  replace (4 * S (S (S (length l))) + 2)%nat with ((4 * length l + 2) + 4 * 3)%nat by lia.
  rewrite Nat.div_add by done. lia.
Qed.

(** X14: [base64UrlEncode] throws exactly on a string with a character above
    U+00FF.  On every other string it returns [(4 n + 2) / 3] characters for
    [n] characters, all of them letters, digits, [-] or [_] (no padding, no
    dot), and [base64UrlDecode] of that is the string. *)
Theorem base64Url_decode_encode (s : jsstring) :
  (Token.base64UrlEncode s = Throw ↔ ¬ latin1 s)
  ∧ (latin1 s →
     ∃ e, Token.base64UrlEncode s = Val e
          ∧ Token.base64UrlDecode e = Val s
          ∧ Forall url_safe e
          ∧ length e = ((4 * length s + 2) / 3)%nat).
Proof.
  split.
  - unfold Token.base64UrlEncode. rewrite <- btoa_throws.
    by destruct (btoa s).
  - intros Hs. exists (url_sextet <$> sextets s). split_and!.
    + by apply base64UrlEncode_latin1.
    + by apply base64UrlDecode_url_sextets.
    + apply Forall_fmap. eapply Forall_impl; [by apply sextets_bound|].
      intros n Hn. by apply url_sextet_safe.
    + by rewrite length_fmap, length_sextets.
Qed.

Lemma length_round (s : list N) (kw : N * N) : length (SHA256.round s kw) = length s.
Proof. unfold SHA256.round. by destruct s as [|a [|b [|c [|d [|e [|f [|g [|h [|]]]]]]]]]. Qed.

Lemma length_compress (h block : list N) : length (SHA256.compress h block) = length h.
Proof.
  unfold SHA256.compress. rewrite length_zip_with.
  assert (∀ l s, length (foldl SHA256.round s l) = length s) as Hfold.
  { induction l as [|kw l IH]; intros s; [done|]. cbn. by rewrite IH, length_round. }
  rewrite Hfold. lia.
Qed.

Lemma length_sha256 (msg : list N) : length (SHA256.sha256 msg) = 32%nat.
Proof.
  unfold SHA256.sha256.
  assert (∀ l h, length (foldl SHA256.compress h l) = length h) as Hfold.
  { induction l as [|b l IH]; intros h; [done|]. cbn. by rewrite IH, length_compress. }
  specialize (Hfold (SHA256.blocks (length (SHA256.padding msg)) (SHA256.padding msg))
                SHA256.H0).
  destruct (foldl _ _ _) as [|a [|b [|c [|d [|e [|f [|g [|h [|]]]]]]]]]; try discriminate Hfold.
  reflexivity.
Qed.

Lemma sign_returns_43 (message secret : jsstring) :
  secret ≠ [] →
  ∃ tag, Token.sign message secret = Val tag
         ∧ length tag = 43%nat
         ∧ Forall url_safe tag.
Proof.
  intros Hsecret. unfold Token.sign, Token.importKey.
  pose proof (utf8_encode_nonempty secret Hsecret) as Hkey.
  destruct (utf8_encode secret) as [|k key] eqn:Hk; [done|].
  cbn [mbind result_bind].
  set (mac := SHA256.hmac (k :: key) (utf8_encode message)).
  assert (latin1 mac) as Hmac by apply sha256_latin1.
  assert (length mac = 32%nat) as Hlen by apply length_sha256.
  exists (url_sextet <$> sextets mac). split_and!.
  - by apply base64UrlEncode_latin1.
  - by rewrite length_fmap, length_sextets, Hlen.
  - apply Forall_fmap. eapply Forall_impl; [by apply sextets_bound|].
    intros n Hn. by apply url_sextet_safe.
Qed.

(** X15: [sign] throws for the empty secret, whatever the message.  For every
    other secret it returns 43 characters, all of them letters, digits, [-]
    or [_]. *)
Theorem sign_tag_shape (message secret : jsstring) :
  (secret = [] → Token.sign message secret = Throw)
  ∧ (secret ≠ [] →
     ∃ tag, Token.sign message secret = Val tag
            ∧ length tag = 43%nat
            ∧ Forall url_safe tag).
Proof. split; [by intros ->|apply sign_returns_43]. Qed.

End TokenShape.

Section Secrets.
Import Platform.
Local Open Scope N_scope.

Lemma utf8_encode_app_NUL (s : jsstring) : utf8_encode (s ++ [0]) = utf8_encode s ++ [0].
Proof.
  remember (length s) as n eqn:Hn. revert s Hn.
  induction n as [n IH] using lt_wf_ind. intros s Hn.
  destruct s as [|c s']; [reflexivity|].
  cbn [app utf8_encode].
  destruct (is_high_surrogate c).
  - destruct s' as [|d s'']; [reflexivity|]. cbn [app].
    destruct (is_low_surrogate d).
    + rewrite (IH (length s'')) by (cbn in Hn; (lia || done)). by rewrite app_assoc.
    + change (d :: s'' ++ [0]) with ((d :: s'') ++ [0]).
      rewrite (IH (length (d :: s''))) by (cbn in *; (lia || done)). by rewrite app_assoc.
  - destruct (is_low_surrogate c);
      rewrite (IH (length s')) by (cbn in *; (lia || done)); by rewrite app_assoc.
Qed.

Lemma hmac_key_NUL (key msg : list N) :
  (length key < 64)%nat → SHA256.hmac (key ++ [0]) msg = SHA256.hmac key msg.
Proof.
  intros Hlen. unfold SHA256.hmac. cbv zeta.
  rewrite !decide_False by (rewrite ?length_app; cbn [length]; lia).
  rewrite length_app. cbn [length].
  assert ((key ++ [0]) ++ replicate (64 - (length key + 1)) 0
          = key ++ replicate (64 - length key) 0) as ->; [|done].
  rewrite <- app_assoc. f_equal.
  replace (64 - length key)%nat with (S (64 - (length key + 1))) by lia. done.
Qed.

(** X16: A secret and the same secret followed by U+0000 sign alike, and so
    verify alike, as long as the secret is not empty and its UTF-8 form is
    shorter than the 64 bytes of an HMAC block. *)
Theorem sign_ignores_trailing_NUL (secret : jsstring) :
  secret ≠ [] → (length (utf8_encode secret) < 64)%nat →
  (∀ message, Token.sign message (secret ++ [0]) = Token.sign message secret)
  ∧ (∀ token clock,
       Token.verifyToken token (secret ++ [0]) clock = Token.verifyToken token secret clock).
Proof.
  intros Hsecret Hlen.
  assert (∀ message, Token.sign message (secret ++ [0]) = Token.sign message secret) as Hsign.
  { intros message. unfold Token.sign. rewrite utf8_encode_app_NUL.
    pose proof (utf8_encode_nonempty secret Hsecret) as Hkey.
    destruct (utf8_encode secret) as [|k key] eqn:Hk; [done|].
    cbn [app Token.importKey mbind result_bind].
    change (k :: key ++ [0]) with ((k :: key) ++ [0]). by rewrite hmac_key_NUL. }
  split; [exact Hsign|]. intros token clock.
  unfold Token.verifyToken, Token.verifyToken_try.
  destruct (Token.split _ token) as [|h [|p [|s [|]]]]; try done.
  by rewrite Hsign.
Qed.

Lemma sign_ignores_trailing_NUL_witness :
  Token.sign (str "a.b") (str "s3" ++ [0]) = Token.sign (str "a.b") (str "s3").
Proof.
  destruct (sign_ignores_trailing_NUL (str "s3")) as [Hsign _].
  - discriminate.
  - vm_compute. lia.
  - exact (Hsign (str "a.b")).
Defined.

End Secrets.

Section Expiry.
Import Platform.

Lemma header_encoded :
  Token.base64UrlEncode (JSON.stringify Token.header_json)
  = Val (str "eyJhbGciOiJIUzI1NiIsInR5cCI6IkpXVCJ9")
  ∧ dotless (str "eyJhbGciOiJIUzI1NiIsInR5cCI6IkpXVCJ9").
Proof. split; [by vm_compute|by vm_compute_decide]. Qed.



(** X18: A token whose payload is an object without [exp] never expires: if
    its signature is right, [verifyToken] returns the payload at every
    time. *)
Theorem token_without_exp_never_expires (h p tag secret decoded : jsstring)
    (kv : list (jsstring * json)) (clock : Z) :
  dotless h → dotless p → dotless tag →
  Token.sign (h ++ Token.dot ++ p) secret = Val tag →
  Token.base64UrlDecode p = Val decoded →
  JSON.parse decoded = Val (JObj kv) →
  str "exp" ∉ kv.*1 →
  Token.verifyToken (h ++ Token.dot ++ p ++ Token.dot ++ tag) secret clock = Some (JObj kv).
Proof.
  intros Hh Hp Htag Hsign Hdecode Hparse Hexp.
  apply verifyToken_Some. exists h, p, tag, decoded, None. split_and!; try done.
  - by apply split_three.
  - unfold Coerce.get.
    assert (list_find (λ q : jsstring * json, q.1 = str "exp") kv = None) as ->; [|done].
    apply list_find_None, Forall_forall. intros [k v] Hin Hk. apply Hexp.
    apply list_elem_of_fmap. by exists (k, v).
Qed.

Lemma token_without_exp_never_expires_witness :
  Token.verifyToken
    (str "eyJhbGciOiJIUzI1NiIsInR5cCI6IkpXVCJ9" ++ Token.dot ++ str "eyJzdWIiOiJhZG1pbiJ9"
     ++ Token.dot ++ str "LjjMfb1HQekXhBH2JjuSDWmMAs2fXWQtwWC-eh9DLkY")
    (str "s3") 4102444800000
  = Some (JObj [(str "sub", JStr (str "admin"))]).
Proof.
  apply (token_without_exp_never_expires
           (str "eyJhbGciOiJIUzI1NiIsInR5cCI6IkpXVCJ9") (str "eyJzdWIiOiJhZG1pbiJ9")
           (str "LjjMfb1HQekXhBH2JjuSDWmMAs2fXWQtwWC-eh9DLkY") (str "s3")
           (JSON.stringify (JObj [(str "sub", JStr (str "admin"))]))).
  - by vm_compute_decide.
  - by vm_compute_decide.
  - by vm_compute_decide.
  - by vm_compute.
  - by vm_compute.
  - by vm_compute.
  - by vm_compute_decide.
Defined.

Lemma number_ltb_antitone (n : number) (z z' : Z) :
  z' ≤ z → Coerce.number_ltb n z = false → Coerce.number_ltb n z' = false.
Proof.
  intros Hle. destruct n as [a|m k]; cbn [Coerce.number_ltb]; rewrite !Z.ltb_ge; [lia|].
  intros H. etrans; [|exact H]. apply Z.mul_le_mono_nonneg_r; [|done].
  apply Z.pow_nonneg. lia.
Qed.

Lemma lt_number_antitone (e : option json) (z z' : Z) :
  z' ≤ z → Coerce.lt_number e z = Val false → Coerce.lt_number e z' = Val false.
Proof.
  intros Hle. unfold Coerce.lt_number.
  destruct (Coerce.ToNumber e) as [[|n| |]|]; cbn [mbind result_bind mret result_ret]; try done.
  intros [= H]. by rewrite (number_ltb_antitone n z z' Hle H).
Qed.

(** X19: The only use [verifyToken] makes of the time is the comparison with
    [exp]: a token that is valid at some time is valid, with the same
    payload, at every earlier time (there is no check of [iat] or of a
    not-before time), and a token that is invalid at some time is invalid at
    every later time. *)
Theorem verifyToken_valid_before (token secret : jsstring) (clock earlier : Z) :
  earlier ≤ clock →
  (∀ v, Token.verifyToken token secret clock = Some v →
        Token.verifyToken token secret earlier = Some v)
  ∧ (Token.verifyToken token secret earlier = None →
     Token.verifyToken token secret clock = None).
Proof.
  intros Hle.
  assert (∀ v, Token.verifyToken token secret clock = Some v →
               Token.verifyToken token secret earlier = Some v) as Hvalid.
  { intros v Hvalid.
    apply verifyToken_Some in Hvalid
      as (h & p & s & d & e & Hsplit & Hsign & Hd & Hp & Hg & Hl).
    apply verifyToken_Some. exists h, p, s, d, e. split_and!; try done.
    eapply lt_number_antitone; [|exact Hl]. by apply Z.div_le_mono. }
  split; [exact Hvalid|]. intros Hnone.
  destruct (Token.verifyToken token secret clock) as [v|] eqn:Hv; [|done].
  rewrite (Hvalid v eq_refl) in Hnone. done.
Qed.

Lemma verifyToken_valid_before_witness :
  Token.verifyToken
    (try_catch (Token.createToken (str "admin") (str "s3") (Some 60) 5000) [])
    (str "s3") 0
  = Some (Token.payload_json (str "admin") 5 65).
Proof.
  destruct (verifyToken_valid_before
              (try_catch (Token.createToken (str "admin") (str "s3") (Some 60) 5000) [])
              (str "s3") 65999 0) as [Hvalid _].
  - lia.
  - apply Hvalid. by vm_compute.
Defined.

End Expiry.

(** * Further properties of authentication *)

Section Authentication.
Import Platform.

Lemma startsWith_Bearer (h : jsstring) :
  startsWith h (str "Bearer ") = true ↔ h = str "Bearer " ++ substring 7 h.
Proof.
  split.
  - intros Hpre. apply startsWith_prefix in Hpre as [rest ->].
    unfold substring. by rewrite (drop_app_length' (str "Bearer ")).
  - intros ->. apply startsWith_app.
Qed.

(** X20: [authMiddleware] lets a request through only with a header of the
    form [Bearer <token>] (exactly so: capital B, one space) whose token
    [verifyToken] accepts, and which therefore carries the signature of its
    first two parts under the secret; the rest of the chain then receives the
    payload.  In every other case it answers 401 itself, leaves the context as
    it was and does not run the rest of the chain: with one message when the
    header is missing, empty or of another form, with another when the token
    is refused. *)
Theorem authMiddleware_guards (secret : jsstring) (clock : Z) (authHeader : option jsstring)
    (next : json → Handler) (c : Context) :
  (∃ token payload h p s,
     authHeader = Some (str "Bearer " ++ token)
     ∧ Token.verifyToken token secret clock = Some payload
     ∧ Auth.truthy payload = true
     ∧ Token.split (chr ".") token = [h; p; s]
     ∧ Token.sign (h ++ Token.dot ++ p) secret = Val s
     ∧ Auth.authMiddleware secret clock authHeader next c = next payload c)
  ∨ (∃ token,
       authHeader = Some (str "Bearer " ++ token)
       ∧ (Token.verifyToken token secret clock = None
          ∨ ∃ payload, Token.verifyToken token secret clock = Some payload
                       ∧ Auth.truthy payload = false)
       ∧ Auth.authMiddleware secret clock authHeader next c
         = (Auth.unauthorized "Invalid or expired token", c))
  ∨ ((∀ token, authHeader ≠ Some (str "Bearer " ++ token))
     ∧ Auth.authMiddleware secret clock authHeader next c
       = (Auth.unauthorized "Missing or invalid authorization header", c)).
Proof.
  unfold Auth.authMiddleware.
  destruct authHeader as [[|x h]|].
  - right; right. split; [|done]. intros token Heq. apply (inj Some) in Heq. discriminate Heq.
  - destruct (startsWith (x :: h) (str "Bearer ")) eqn:Hpre.
    + apply startsWith_Bearer in Hpre. set (token := substring 7 (x :: h)) in *.
      destruct (Token.verifyToken token secret clock) as [payload|] eqn:Hverify.
      * destruct (Auth.truthy payload) eqn:Htruthy.
        -- left. pose proof Hverify as Hparts.
           apply verifyToken_Some in Hparts as (hd & p & s & _ & _ & Hsplit & Hsign & _).
           exists token, payload, hd, p, s. by rewrite Hpre at 1.
        -- right; left. exists token. rewrite Hpre at 1. split_and!; [done| |done].
           right. by exists payload.
      * right; left. exists token. rewrite Hpre at 1. split_and!; [done| |done]. by left.
    + right; right. split; [|done]. intros token Heq.
      apply (inj Some) in Heq. rewrite Heq in Hpre.
      by rewrite startsWith_app in Hpre.
  - right; right. split; [|done]. by intros token [=].
Qed.

Lemma authMiddleware_Bearer (secret : jsstring) (clock : Z) (token : jsstring)
    (next : json → Handler) (c : Context) :
  Auth.authMiddleware secret clock (Some (str "Bearer " ++ token)) next c
  = match Token.verifyToken token secret clock with
    | Some payload =>
        if Auth.truthy payload then next payload c
        else (Auth.unauthorized "Invalid or expired token", c)
    | None => (Auth.unauthorized "Invalid or expired token", c)
    end.
Proof.
  assert (str "Bearer " ++ token = chr "B" :: (str "earer " ++ token)) as Hcons
    by reflexivity.
  unfold Auth.authMiddleware. rewrite Hcons. cbv beta iota zeta. rewrite <- Hcons.
  rewrite startsWith_app. unfold substring.
  rewrite (drop_app_length' (str "Bearer ")) by done.
  destruct (Token.verifyToken token secret clock) as [payload|]; [|done].
  by destruct (Auth.truthy payload).
Qed.

Lemma authStatus_of_issued (env : Env) (h p tag sub : jsstring) (iat exp later : Z)
    (c : Context) :
  dotless h → dotless p → dotless tag →
  Token.sign (h ++ Token.dot ++ p) (JWT_SECRET env) = Val tag →
  Token.base64UrlDecode p = Val (JSON.stringify (Token.payload_json sub iat exp)) →
  Admin.authStatus env later
    (Some (str "Bearer " ++ h ++ Token.dot ++ p ++ Token.dot ++ tag)) c
  = if exp <? later / 1000 then (Auth.unauthorized "Invalid or expired token", c)
    else (Res.mk 200
            (Json (JObj [(str "success", JBool true);
                         (str "data", JObj [(str "username", JStr sub)])])), c).
Proof.
  intros Hh Hp Htag Hsign Hdecode. unfold Admin.authStatus.
  rewrite authMiddleware_Bearer.
  rewrite (verifyToken_issued h p tag (JWT_SECRET env) sub iat exp later) by done.
  by destruct (exp <? later / 1000).
Qed.

(** X21: Logging in and then asking for the status.  With the configured
    credentials in the body, a username whose JSON form [btoa] accepts and
    a non-empty secret, [POST /login] answers 200 with a token; presented as
    [Bearer <token>], that token passes [authMiddleware] and
    [GET /auth/status] answers with the username for the next 86400 seconds,
    and is refused with 401 after that. *)
Theorem login_then_authStatus (env : Env) (clock : Z) (text : jsstring) (body : json) :
  JSON.parse text = Val body →
  Coerce.get body (str "username") = Val (Some (JStr (ADMIN_USERNAME env))) →
  Coerce.get body (str "password") = Val (Some (JStr (ADMIN_PASSWORD env))) →
  latin1 (JSON.quote_body (ADMIN_USERNAME env)) → JWT_SECRET env ≠ [] →
  ∃ token,
    Admin.login env clock text = Res.mk 200 (Json (Admin.login_succeeded token))
    ∧ (∀ later c,
         later / 1000 ≤ clock / 1000 + 86400 →
         Admin.authStatus env later (Some (str "Bearer " ++ token)) c
         = (Res.mk 200
              (Json (JObj [(str "success", JBool true);
                           (str "data",
                            JObj [(str "username", JStr (ADMIN_USERNAME env))])])), c))
    ∧ (∀ later c,
         clock / 1000 + 86400 < later / 1000 →
         Admin.authStatus env later (Some (str "Bearer " ++ token)) c
         = (Auth.unauthorized "Invalid or expired token", c)).
Proof.
  intros Hparse Hu Hp Hlatin Hsecret.
  destruct (createToken_returns (ADMIN_USERNAME env) (JWT_SECRET env) None clock
              Hlatin Hsecret)
    as (h & p & tag & Hcreate & Hsign & Hdecode & Hh & Hpd & Htag).
  exists (h ++ Token.dot ++ p ++ Token.dot ++ tag). split_and!.
  - unfold Admin.login. rewrite Hparse. cbn [mbind result_bind].
    rewrite Hu. cbn [mbind result_bind]. rewrite Hp. cbn [mbind result_bind].
    unfold Auth.validateCredentials, Auth.strict_equals.
    rewrite !bool_decide_eq_true_2 by done. cbn [andb negb].
    by rewrite Hcreate.
  - intros later c Hlater.
    rewrite (authStatus_of_issued env h p tag _ _ _ later c Hh Hpd Htag Hsign Hdecode).
    cbn [default from_option id]. by rewrite (proj2 (Z.ltb_ge _ _)) by lia.
  - intros later c Hlater.
    rewrite (authStatus_of_issued env h p tag _ _ _ later c Hh Hpd Htag Hsign Hdecode).
    cbn [default from_option id]. by rewrite (proj2 (Z.ltb_lt _ _)) by lia.
Qed.

Lemma login_then_authStatus_witness :
  let env :=
    {| ADMIN_USERNAME := str "admin"; ADMIN_PASSWORD := str "admin123";
       JWT_SECRET := str "dev-secret-change-in-production" |} in
  let body :=
    JObj [(str "username", JStr (str "admin")); (str "password", JStr (str "admin123"))] in
  ∃ token,
    Admin.login env 1700000000999 (JSON.stringify body)
    = Res.mk 200 (Json (Admin.login_succeeded token)).
Proof.
  intros env body.
  destruct (login_then_authStatus env 1700000000999 (JSON.stringify body) body)
    as (token & Hlogin & _).
  - by vm_compute.
  - reflexivity.
  - reflexivity.
  - by vm_compute_decide.
  - discriminate.
  - exists token. exact Hlogin.
Defined.

Lemma strict_equals_true (a : option json) (s : jsstring) :
  Auth.strict_equals a s = true ↔ a = Some (JStr s).
Proof.
  unfold Auth.strict_equals. destruct a as [[]|]; try (split; [done|by intros [=]]).
  rewrite bool_decide_eq_true. split; [by intros ->|by intros [= ->]].
Qed.

(** X22: What [POST /login] answers.  It answers 200 only when the body is JSON
    whose [username] and [password] are the configured strings, and then
    with the token that [createToken] made for the configured username with
    the default expiry; it answers 401 when the body is JSON other than
    [null] and one of the two is anything else; and it answers 400 when the
    body is not JSON or is [null], and also when the credentials are right
    but no token can be made (a configured username beyond U+00FF in its
    JSON form, or an empty secret). *)
Theorem login_outcomes (env : Env) (clock : Z) (text : jsstring) :
  let res := Admin.login env clock text in
  let bad_request := Res.mk 400 (Json (Auth.failure "Invalid request body")) in
  (Res.status res = 200 →
   ∃ body token,
     JSON.parse text = Val body
     ∧ Coerce.get body (str "username") = Val (Some (JStr (ADMIN_USERNAME env)))
     ∧ Coerce.get body (str "password") = Val (Some (JStr (ADMIN_PASSWORD env)))
     ∧ Token.createToken (ADMIN_USERNAME env) (JWT_SECRET env) None clock = Val token
     ∧ res = Res.mk 200 (Json (Admin.login_succeeded token)))
  ∧ (JSON.parse text = Throw ∨ JSON.parse text = Val JNull → res = bad_request)
  ∧ (∀ body username password,
       JSON.parse text = Val body →
       Coerce.get body (str "username") = Val username →
       Coerce.get body (str "password") = Val password →
       (username ≠ Some (JStr (ADMIN_USERNAME env))
        ∨ password ≠ Some (JStr (ADMIN_PASSWORD env))) →
       res = Auth.unauthorized "Invalid credentials")
  ∧ (∀ body,
       JSON.parse text = Val body →
       Coerce.get body (str "username") = Val (Some (JStr (ADMIN_USERNAME env))) →
       Coerce.get body (str "password") = Val (Some (JStr (ADMIN_PASSWORD env))) →
       ¬ latin1 (JSON.quote_body (ADMIN_USERNAME env)) ∨ JWT_SECRET env = [] →
       res = bad_request).
Proof.
  intros res bad_request. subst res bad_request. unfold Admin.login. split_and!.
  - destruct (JSON.parse text) as [body|]; [|done]. cbn [mbind result_bind].
    destruct (Coerce.get body (str "username")) as [username|] eqn:Hgu; [|done].
    cbn [mbind result_bind].
    destruct (Coerce.get body (str "password")) as [password|] eqn:Hgp; [|done].
    cbn [mbind result_bind]. unfold Auth.validateCredentials.
    destruct (Auth.strict_equals username _) eqn:Hu; [|done].
    destruct (Auth.strict_equals password _) eqn:Hp; [|done].
    apply strict_equals_true in Hu as ->. apply strict_equals_true in Hp as ->.
    cbn [andb negb]. cbv beta iota.
    destruct (Token.createToken _ _ None clock) as [token|] eqn:Hcreate; [|done].
    intros _. by exists body, token.
  - by intros [->| ->].
  - intros body username password -> Hu Hp Hwrong. cbn [mbind result_bind].
    rewrite Hu. cbn [mbind result_bind]. rewrite Hp. cbn [mbind result_bind].
    assert (Auth.validateCredentials username password
              (ADMIN_USERNAME env) (ADMIN_PASSWORD env) = false) as ->; [|done].
    unfold Auth.validateCredentials. apply andb_false_iff.
    destruct Hwrong as [Hwrong|Hwrong]; [left|right];
      apply not_true_iff_false; by rewrite strict_equals_true.
  - intros body -> Hu Hp Hbad. cbn [mbind result_bind].
    rewrite Hu. cbn [mbind result_bind]. rewrite Hp. cbn [mbind result_bind].
    unfold Auth.validateCredentials, Auth.strict_equals.
    rewrite !bool_decide_eq_true_2 by done. cbn [andb negb].
    by rewrite (proj2 (createToken_throws _ _ None clock) Hbad).
Qed.

End Authentication.

(** * The two entry points *)

(** X23: For a path that neither entry point reserves, the catch-all of the
    Workers entry point answers a preflight with 204 and any other request
    with the response of the mock responder, whatever the origin; the Node
    entry point, and the [/mock] routes of the Workers entry point, answer
    the same when the origin is covered by the settings and 403 when it is
    not. *)
Theorem entry_points_compared {St} `{!IStorage St} (d : St) (req : Request.t) (c : Context) :
  reserved_path (Request.path req) = false →
  let covered :=
    includes (corsOrigins (getSettings d)) (str "*")
    || includes (corsOrigins (getSettings d)) (effective_origin req) in
  let served :=
    if bool_decide (Request.method req = str "OPTIONS") then preflight
    else (mockResponder d req c).1 in
  (workerCatchAll d req c).1 = served
  ∧ (nodeMockTraffic d req c).1 = (if covered then served else forbidden)
  ∧ (workerMockTraffic d req c).1 = (if covered then served else forbidden).
Proof.
  intros Hfree covered served. subst served.
  assert (startsWith (Request.path req) (str "/api/admin") = false) as Hadmin.
  { unfold reserved_path in Hfree. by destruct (startsWith _ _). }
  split_and!.
  - unfold workerCatchAll. rewrite Hadmin.
    unfold mbind, Hono_bind, bind.
    destruct (when _ _ c) as [[] c1].
    destruct (bool_decide (Request.method req = _)); [done|].
    by rewrite !mockResponder_response.
  - unfold nodeMockTraffic. rewrite corsMiddleware_unfold. fold covered.
    destruct covered; [|done]. cbv zeta.
    destruct (bool_decide (Request.method req = _)); [done|].
    unfold nodeCatchAll. rewrite Hfree. by rewrite !mockResponder_response.
  - unfold workerMockTraffic. rewrite corsMiddleware_unfold. fold covered.
    destruct covered; [|done]. cbv zeta.
    destruct (bool_decide (Request.method req = _)); [done|].
    by rewrite !mockResponder_response.
Qed.

Lemma entry_points_compared_witness :
  (workerCatchAll (Sample.store [str "https://a.com"])
     (Sample.get "/api/v1/users" (Some "https://b.com")) fresh).1
  = (mockResponder (Sample.store [str "https://a.com"])
       (Sample.get "/api/v1/users" (Some "https://b.com")) fresh).1.
Proof.
  destruct (entry_points_compared (Sample.store [str "https://a.com"])
              (Sample.get "/api/v1/users" (Some "https://b.com")) fresh) as (Hworker & _).
  - reflexivity.
  - exact Hworker.
Defined.

(** * Generated ids *)

Section GeneratedIds.
Local Open Scope N_scope.

Lemma digit36_spec (n : N) :
  digit36 n ≠ 45 ∧ (n < 36 → value36 (digit36 n) = n).
Proof.
  destruct (decide (n < 36)) as [Hn|Hn].
  - assert (Forall (λ n, digit36 n ≠ 45 ∧ value36 (digit36 n) = n)
              (N.of_nat <$> seq 0 36)) as Hall by (by vm_compute_decide).
    rewrite Forall_forall in Hall. destruct (Hall n) as [H1 H2]; [|done].
    apply list_elem_of_fmap. exists (N.to_nat n). split; [lia|].
    apply list_elem_of_In, in_seq. lia.
  - split; [|lia]. unfold digit36. rewrite nth_overflow; [done|].
    change (length (str "0123456789abcdefghijklmnopqrstuvwxyz")) with 36%nat. lia.
Qed.

Lemma to_radix36_spec (fuel : nat) (n : N) (acc : jsstring) :
  n < 2 ^ N.of_nat fuel →
  foldl (λ a c, a * 36 + value36 c) 0 (to_radix36 fuel n acc)
  = foldl (λ a c, a * 36 + value36 c) n acc.
Proof.
  revert n acc. induction fuel as [|fuel IH]; intros n acc Hn.
  - cbn in Hn. by replace n with 0 by lia.
  - cbn [to_radix36]. destruct (n <? 36) eqn:Hlt.
    + apply N.ltb_lt in Hlt. cbn [foldl].
      by rewrite (proj2 (digit36_spec n) Hlt).
    + apply N.ltb_ge in Hlt. rewrite IH.
      * cbn [foldl]. rewrite (proj2 (digit36_spec (n mod 36))) by (by apply N.mod_lt).
        f_equal. pose proof (N.div_mod n 36). lia.
      * rewrite Nat2N.inj_succ, N.pow_succ_r' in Hn.
        apply N.Div0.div_lt_upper_bound. lia.
Qed.

Lemma to_radix36_no_dash (fuel : nat) (n : N) (acc : jsstring) :
  Forall (λ c, c ≠ 45) acc → Forall (λ c, c ≠ 45) (to_radix36 fuel n acc).
Proof.
  revert n acc. induction fuel as [|fuel IH]; intros n acc Hacc; [done|].
  cbn [to_radix36]. destruct (n <? 36).
  - constructor; [apply digit36_spec|done].
  - apply IH. constructor; [apply digit36_spec|done].
Qed.

Lemma toString36_spec (z : Z) :
  (0 ≤ z)%Z →
  of_radix36 (toString36 z) = Z.to_N z ∧ Forall (λ c, c ≠ 45) (toString36 z).
Proof.
  intros Hz. unfold toString36. rewrite (proj2 (Z.ltb_ge z 0) Hz). cbn [app].
  replace (Z.abs_N z) with (Z.to_N z) by lia.
  split; [|by apply to_radix36_no_dash].
  unfold of_radix36. rewrite to_radix36_spec; [done|].
  rewrite Nat2N.inj_succ, N2Nat.id.
  destruct (Z.to_N z) as [|p] eqn:E; [done|].
  apply N.log2_spec. lia.
Qed.

(** X24: Two generated ids are equal exactly when they were made in the same
    millisecond with the same seven random characters; an id is never the
    empty string.  (The clock reads at least 0.) *)
Theorem generateId_distinguishes (now1 now2 : Z) (random1 random2 : jsstring) :
  (0 ≤ now1)%Z → (0 ≤ now2)%Z →
  (generateId now1 random1 = generateId now2 random2
   ↔ now1 = now2
     ∧ substring_between 2 9 random1 = substring_between 2 9 random2)
  ∧ generateId now1 random1 ≠ []
  ∧ (length (substring_between 2 9 random1) ≤ 7)%nat.
Proof.
  intros H1 H2. destruct (toString36_spec now1 H1) as [Hv1 Hd1].
  destruct (toString36_spec now2 H2) as [Hv2 Hd2].
  unfold generateId. split_and!.
  - split; [|by intros [-> ->]]. intros Heq.
    assert (toString36 now1 = toString36 now2) as Ht.
    { apply (f_equal (Token.split 45)) in Heq.
      change (str "-" ++ ?s) with (45 :: s) in Heq.
      rewrite !split_app in Heq by done. by injection Heq. }
    split.
    + apply (f_equal of_radix36) in Ht. rewrite Hv1, Hv2 in Ht. lia.
    + rewrite Ht in Heq. apply app_inv_head in Heq. by injection Heq.
  - change (str "-" ++ ?s) with (45 :: s). by destruct (toString36 now1).
  - unfold substring_between. rewrite length_take. lia.
Qed.

Lemma generateId_distinguishes_witness :
  generateId 1700000000000 (str "0.4fzyo82mvyr") ≠ [].
Proof.
  destruct (generateId_distinguishes 1700000000000 1700000000001
              (str "0.4fzyo82mvyr") (str "0.4fzyo82mvyr")) as (_ & Hnonempty & _).
  - lia.
  - lia.
  - exact Hnonempty.
Defined.

End GeneratedIds.

(** * What an accepted token looks like *)

Section Accepted.
Import Platform.

Lemma split_parts_free (sep : N) (s : jsstring) :
  Forall (Forall (λ c, c ≠ sep)) (Token.split sep s).
Proof.
  induction s as [|c s IH]; [by repeat constructor|]. cbn [Token.split].
  case_bool_decide as Hc.
  - by constructor.
  - destruct (Token.split sep s) as [|part parts]; [by repeat constructor|].
    apply Forall_cons in IH as [Hpart Hparts]. by repeat constructor.
Qed.

(** X25: Whatever [verifyToken] accepts has exactly two dots, and its third
    part is the 43 characters that [sign] returns for the first two parts
    under the secret: a token with a third part of another length or with a
    character outside [A-Z a-z 0-9 - _] there is refused at every time, and
    with the empty secret every token is refused. *)
Theorem accepted_token_is_signed (token secret : jsstring) (clock : Z) (v : json) :
  Token.verifyToken token secret clock = Some v →
  secret ≠ []
  ∧ ∃ h p s,
      token = h ++ Token.dot ++ p ++ Token.dot ++ s
      ∧ dotless h ∧ dotless p
      ∧ length s = 43%nat ∧ Forall url_safe s
      ∧ Token.sign (h ++ Token.dot ++ p) secret = Val s.
Proof.
  intros Hvalid.
  apply verifyToken_Some in Hvalid as (h & p & s & _ & _ & Hsplit & Hsign & _).
  assert (secret ≠ []) as Hsecret by (intros ->; discriminate Hsign).
  split; [done|]. exists h, p, s.
  destruct (sign_returns_43 (h ++ Token.dot ++ p) secret Hsecret) as (tag & Htag & Hlen & Hsafe).
  rewrite Hsign in Htag. injection Htag as <-.
  pose proof (split_parts_free (chr ".") token) as Hfree. rewrite Hsplit in Hfree.
  apply Forall_cons in Hfree as [Hh Hfree]. apply Forall_cons in Hfree as [Hp _].
  split_and!; try done.
  apply split_three_inv in Hsplit. by rewrite <- !app_assoc in Hsplit.
Qed.

Lemma accepted_token_is_signed_witness :
  str "s3" ≠ []
  ∧ ∃ h p s,
      str "eyJhbGciOiJIUzI1NiIsInR5cCI6IkpXVCJ9" ++ Token.dot ++ str "eyJzdWIiOiJhZG1pbiJ9"
      ++ Token.dot ++ str "LjjMfb1HQekXhBH2JjuSDWmMAs2fXWQtwWC-eh9DLkY"
      = h ++ Token.dot ++ p ++ Token.dot ++ s
      ∧ dotless h ∧ dotless p
      ∧ length s = 43%nat ∧ Forall url_safe s
      ∧ Token.sign (h ++ Token.dot ++ p) (str "s3") = Val s.
Proof.
  apply (accepted_token_is_signed _ (str "s3") 0 (JObj [(str "sub", JStr (str "admin"))])).
  by vm_compute.
Defined.

End Accepted.
